(** * bg-phishing-detector: the domain risk-scoring engine

    A shallow embedding of [src/detection/bg-phishing-detector.py]:
    the whitelist test, the brand matcher, the homoglyph and typosquatting
    detectors, the Levenshtein distance, the composite score, the feed
    file and the admission loop of the scanner, followed by the
    properties that the specification states about them.

    A Python [str] is a sequence of Unicode code points, so a string is a
    list of integers here; [len], indexing, [in], [startswith] and
    [endswith] then have their Python meaning on non-ASCII text too. *)

From Stdlib Require Import ZArith List Bool Lia String Ascii.
Import ListNotations.
Local Open Scope Z_scope.

(* ================================================================== *)
(** ** Strings *)

Module Py.

Definition char := Z.
Definition str := list char.

(** String literals of this file are UTF-8 encoded, as the Python source
    is; [utf8] decodes them to code points. *)
Fixpoint utf8 (bs : list Z) : str :=
  match bs with
  | [] => []
  | b0 :: t =>
      if b0 <? 128 then b0 :: utf8 t
      else if b0 <? 224 then
        match t with
        | b1 :: t1 => ((b0 - 192) * 64 + (b1 - 128)) :: utf8 t1
        | _ => []
        end
      else if b0 <? 240 then
        match t with
        | b1 :: b2 :: t2 =>
            ((b0 - 224) * 4096 + (b1 - 128) * 64 + (b2 - 128)) :: utf8 t2
        | _ => []
        end
      else
        match t with
        | b1 :: b2 :: b3 :: t3 =>
            ((b0 - 240) * 262144 + (b1 - 128) * 4096
             + (b2 - 128) * 64 + (b3 - 128)) :: utf8 t3
        | _ => []
        end
  end.

Definition py (s : string) : str :=
  utf8 (map (fun a => Z.of_nat (nat_of_ascii a)) (list_ascii_of_string s)).

(** [len(s)], of a string or of a list *)
Definition len {A} (s : list A) : Z := Z.of_nat (List.length s).

(** [s1 == s2] *)
Fixpoint eqb (s1 s2 : str) : bool :=
  match s1, s2 with
  | [], [] => true
  | c1 :: t1, c2 :: t2 => (c1 =? c2) && eqb t1 t2
  | _, _ => false
  end.

(** [s.startswith(p)] *)
Fixpoint startswith (p s : str) : bool :=
  match p, s with
  | [], _ => true
  | c :: p', d :: s' => (c =? d) && startswith p' s'
  | _ :: _, [] => false
  end.

(** [s.endswith(p)] *)
Definition endswith (p s : str) : bool := startswith (rev p) (rev s).

(** [p in s] *)
Fixpoint contains (p s : str) : bool :=
  startswith p s ||
  match s with
  | [] => false
  | _ :: t => contains p t
  end.

(** [s.count(c)] for a one-character [c] *)
Definition count (c : char) (s : str) : Z :=
  len (filter (fun d => d =? c) s).

(** [s.replace(a, b)] for one-character [a] and [b] *)
Definition replace (a b : char) (s : str) : str :=
  map (fun c => if c =? a then b else c) s.

(** [s.split(sep)] for a one-character separator, and [re.split] on a
    one-character class: the pieces between separators, empty pieces
    included, one more than there are separators. *)
Fixpoint split_on (sep : char -> bool) (s : str) : list str :=
  match s with
  | [] => [[]]
  | c :: t =>
      if sep c then [] :: split_on sep t
      else match split_on sep t with
           | l :: ls => (c :: l) :: ls
           | [] => [[c]]
           end
  end.

(** [x in xs] for a list of strings *)
Definition mem (x : str) (xs : list str) : bool := existsb (eqb x) xs.

Definition is_ascii (c : char) : bool := (0 <=? c) && (c <? 128).

(** What [str.lower] does to an ASCII character. *)
Definition ascii_lower (c : char) : char :=
  if (65 <=? c) && (c <=? 90) then c + 32 else c.

End Py.
Import Py.


(* ================================================================== *)
(** ** Regular expressions

    The fragment of Python's [re] syntax that the detector uses: literal
    text, the anchors [^] and [$], a character class, a greedy repetition
    of a character class ([c?], [c+], [c{m,}], [c{m,n}]), concatenation
    and alternation.  [ends r at0 s] lists, in the order in which the
    backtracking matcher of [re] tries them, the remainders that a match
    of [r] at the front of [s] can leave; [at0] tells whether the front
    of [s] is the start of the searched string. *)

Module Re.

Inductive regex :=
| Bol                                                (* ^ *)
| Eol                                                (* $ *)
| Lit (l : str)                                      (* text *)
| Cls (p : char -> bool)                             (* [...] or \d *)
| Rep (p : char -> bool) (lo : nat) (hi : option nat) (* [...]{lo,hi} *)
| Seq (r1 r2 : regex)
| Alt (r1 r2 : regex).

(** Greedy repetition: the longest run first, then shorter ones. *)
Fixpoint rep_ends (p : char -> bool) (lo : nat) (hi : option nat) (s : str)
  : list str :=
  let stop := match lo with O => [s] | S _ => [] end in
  match s with
  | c :: t =>
      if p c && match hi with Some O => false | _ => true end
      then rep_ends p (Nat.pred lo) (option_map Nat.pred hi) t ++ stop
      else stop
  | [] => stop
  end.

Fixpoint ends (r : regex) (at0 : bool) (s : str) : list str :=
  match r with
  | Bol => if at0 then [s] else []
  | Eol =>
      (* the end of the string, or just before a newline that ends it *)
      match s with
      | [] => [s]
      | [c] => if c =? 10 then [s] else []
      | _ => []
      end
  | Lit l => if startswith l s then [skipn (List.length l) s] else []
  | Cls p =>
      match s with
      | c :: t => if p c then [t] else []
      | [] => []
      end
  | Rep p lo hi => rep_ends p lo hi s
  | Seq r1 r2 =>
      flat_map
        (fun s' => ends r2 (at0 && (List.length s' =? List.length s)%nat) s')
        (ends r1 at0 s)
  | Alt r1 r2 => ends r1 at0 s ++ ends r2 at0 s
  end.

(** [re.search(r, s)] as a truth value: a match at some start position,
    the positions tried from left to right, the end of [s] included. *)
Fixpoint search_from (r : regex) (at0 : bool) (s : str) : bool :=
  match ends r at0 s with
  | _ :: _ => true
  | [] =>
      match s with
      | [] => false
      | _ :: t => search_from r false t
      end
  end.

Definition search (r : regex) (s : str) : bool := search_from r true s.

(** [len(re.findall(r, s))] for an [r] that matches no empty string: the
    leftmost match is taken, the scan resumes where it ended.  [skip]
    counts the characters of the last match still to be passed over. *)
Fixpoint findall_from (r : regex) (at0 : bool) (skip : nat) (s : str) : Z :=
  match skip with
  | S k =>
      match s with
      | [] => 0
      | _ :: t => findall_from r false k t
      end
  | O =>
      match ends r at0 s with
      | s' :: _ =>
          match s with
          | [] => 1
          | _ :: t =>
              1 + findall_from r false
                    (Nat.pred (List.length s - List.length s')) t
          end
      | [] =>
          match s with
          | [] => 0
          | _ :: t => findall_from r false O t
          end
      end
  end.

Definition findall_count (r : regex) (s : str) : Z := findall_from r true O s.

(** [r1 r2 ... rn] and [r1|r2|...|rn] *)
Definition cat (rs : list regex) : regex :=
  fold_right Seq (Lit []) rs.

Fixpoint alt (r : regex) (rs : list regex) : regex :=
  match rs with
  | [] => r
  | r' :: rs' => Alt r (alt r' rs')
  end.

Definition plus (p : char -> bool) : regex := Rep p 1 None.       (* c+ *)
Definition opt (p : char -> bool) : regex := Rep p 0 (Some 1%nat). (* c? *)
Definition at_least (n : nat) (p : char -> bool) : regex := Rep p n None.

Definition one_of (c : string) : char -> bool :=
  fun d => existsb (Z.eqb d) (py c).              (* one of the characters *)
Definition range (a b : string) : char -> bool :=
  fun d => match py a, py b with
           | [x], [y] => (x <=? d) && (d <=? y)
           | _, _ => false
           end.

End Re.
Import Re.

(* ================================================================== *)
(** ** Configuration (the module-level constants of the detector) *)

Definition SCORE_THRESHOLD : Z := 70.

Definition MANUAL_CHECK_DOMAINS : list str :=
  [].

Definition WHITELISTED_DOMAINS : list str :=
  [py "econt.com"; py "econt.bg"; py "speedy.bg"; py "intime.bg";
   py "interlogistica.bg"; py "olx.bg"; py "bgpost.bg";
   py "bulgariapost.bg"; py "samedaybg.com"; py "boxnow.bg";
   py "cityexpress.bg"; py "expressone.bg"; py "sameday.bg";
   py "evropat.bg"; py "dhl.bg"; py "easypay.bg"; py "epay.bg";
   py "borica.bg"; py "fastpay.bg"].

Definition BRAND_KEYWORDS : list str :=
  [py "econt"; py "speedy"; py "bulgariapost"; py "bgpost"; py "bg-post";
   py "olx"; py "dhl"; py "sameday"; py "samedaybg"; py "evropat";
   py "boxnow"; py "boxnowbg"; py "cityexpress"; py "cityexpressbg";
   py "expressone"; py "expressonebg"; py "intime"; py "interlogistica";
   py "easypay"; py "epay"; py "borica"; py "fastpay"].

Definition TRANSACTION_KEYWORDS : list str :=
  [py "tracking"; py "delivery"; py "shipment"; py "parcel"; py "payment";
   py "secure-pay"; py "pay-now"; py "invoice"; py "confirm"; py "verify";
   py "account"; py "login"; py "update"; py "suspended"; py "tax";
   py "fee"; py "customer-center"; py "klient"; py "pratka"; py "dostavka";
   py "usluga"].

Definition GEO_INDICATORS : list str :=
  [py ".bg"; py "bulgaria"; py "bg-"; py "-bg"].

Definition SUSPICIOUS_TLDS : list str :=
  [py ".cfd"; py ".tk"; py ".ml"; py ".ga"; py ".cf"; py ".gq"; py ".top";
   py ".xyz"; py ".club"; py ".online"; py ".site"; py ".space";
   py ".click"; py ".link"; py ".live"; py ".icu"; py ".buzz"; py ".cam";
   py ".rest"; py ".store"; py ".tech"; py ".website"; py ".world";
   py ".pw"; py ".cc"; py ".sbs"].

Definition FREE_HOSTING_SUFFIXES : list str :=
  [py ".web.app"; py ".firebaseapp.com"; py ".herokuapp.com";
   py ".pages.dev"; py ".netlify.app"; py ".vercel.app";
   py ".onrender.com"; py ".render.com"; py ".fly.dev"; py ".surge.sh";
   py ".gitlab.io"; py ".github.io"; py ".repl.co"; py ".replit.dev";
   py ".replit.app"; py ".glitch.me"; py ".cyclic.app"; py ".railway.app";
   py ".deta.dev"; py ".azurestaticapps.net"; py ".amplifyapp.com";
   py ".cloudflare.com"].

Definition INFRASTRUCTURE_PATTERNS : list str :=
  [py ".postgres.render.com"; py ".redis.render.com";
   py ".internal.render.com"; py "replica-"; py ".rds.amazonaws.com";
   py ".elb.amazonaws.com"; py ".elasticache.amazonaws.com";
   py ".drive.amazonaws.com"; py "kms.amazonaws.com";
   py "s3.amazonaws.com"; py "s3-deprecated"; py "content-eu.drive";
   py "content-jp.drive"; py ".database.windows.net";
   py ".redis.cache.windows.net"; py ".workers.dev";
   py "--deploy-preview-"; py "preview.vercel.app"; py "bgptools"].

Definition HOMOGLYPH_MAP : list (str * list str) :=
  [
   (py "a", [py "а"; py "ạ"; py "ą"; py "ά"; py "α"]);  (* U+0430 U+1EA1 U+0105 U+03AC U+03B1 *)
   (py "c", [py "с"; py "ϲ"; py "ć"; py "ċ"]);  (* U+0441 U+03F2 U+0107 U+010B *)
   (py "e", [py "е"; py "ė"; py "ę"; py "ё"; py "έ"; py "ε"]);  (* U+0435 U+0117 U+0119 U+0451 U+03AD U+03B5 *)
   (py "i", [py "і"; py "ı"; py "í"; py "ì"; py "ï"; py "ι"]);  (* U+0456 U+0131 U+00ED U+00EC U+00EF U+03B9 *)
   (py "o", [py "о"; py "ο"; py "ọ"; py "ó"; py "ò"; py "0"]);  (* U+043E U+03BF U+1ECD U+00F3 U+00F2 U+0030 *)
   (py "p", [py "р"; py "ρ"; py "þ"]);  (* U+0440 U+03C1 U+00FE *)
   (py "s", [py "ѕ"; py "ś"; py "ş"]);  (* U+0455 U+015B U+015F *)
   (py "t", [py "т"; py "τ"]);  (* U+0442 U+03C4 *)
   (py "u", [py "υ"; py "ú"; py "ù"]);  (* U+03C5 U+00FA U+00F9 *)
   (py "x", [py "х"; py "χ"]);  (* U+0445 U+03C7 *)
   (py "y", [py "у"; py "ү"; py "ý"])   (* U+0443 U+04AF U+00FD *)
  ].

Definition TARGET_SUFFIXES : list str :=
  FREE_HOSTING_SUFFIXES ++ SUSPICIOUS_TLDS.

(* ================================================================== *)
(** ** The Unicode tables of the Python runtime

    [str.lower], the class [\d] of [re] and [str.strip] consult the
    Unicode database of the interpreter.  The detector is modelled over
    any such tables; what is assumed of them is what holds of CPython's
    on the characters that the examples of the specification use: a
    string of ASCII characters and of the (lower-case) look-alike letters
    of [HOMOGLYPH_MAP] is lower-cased character by character, only the
    ASCII capitals changing, and the ASCII decimal digits are [0-9]. *)

Definition lookalikes : list str := flat_map snd HOMOGLYPH_MAP.

Definition plain (c : char) : bool := is_ascii c || mem [c] lookalikes.

Definition ascii_digit (c : char) : bool := (48 <=? c) && (c <=? 57).

Class Unicode := {
  lower : str -> str;                       (* str.lower *)
  isdigit : char -> bool;                   (* \d *)
  isspace : char -> bool;                   (* str.isspace, for strip *)
  lower_plain :
    forall s, forallb plain s = true -> lower s = map ascii_lower s;
  isdigit_ascii :
    forall c, is_ascii c = true -> isdigit c = ascii_digit c
}.

(** Tables that know the ASCII range only: an instance on which the
    ASCII examples can be evaluated. *)
#[program] Definition ascii_tables : Unicode := {|
  lower := map ascii_lower;
  isdigit := ascii_digit;
  isspace := fun c => ((9 <=? c) && (c <=? 13)) || ((28 <=? c) && (c <=? 32))
|}.

(** [s.strip()] *)
Fixpoint lstrip (sp : char -> bool) (s : str) : str :=
  match s with
  | c :: t => if sp c then lstrip sp t else s
  | [] => []
  end.

Definition strip {U : Unicode} (s : str) : str :=
  rev (lstrip isspace (rev (lstrip isspace s))).

(** [enumerate(s)] *)
Definition enumerate {A} (l : list A) : list (nat * A) :=
  combine (seq 0 (List.length l)) l.

(* ================================================================== *)
(** ** The detectors *)

Section Detector.
Context {U : Unicode}.

Definition www : str := py "www.".

(** The two lines that every entry point starts with:
    [domain_lower = domain.lower()], then, if it starts with ["www."],
    [domain_lower = domain_lower[4:]]. *)
Definition lower_without_www (domain : str) : str :=
  let domain_lower := lower domain in
  if startswith www domain_lower then skipn 4 domain_lower else domain_lower.

(** *** Whitelist *)

Definition is_whitelisted (domain : str) : bool :=
  let domain_lower := lower_without_www domain in
  existsb
    (fun whitelisted =>
       eqb domain_lower whitelisted
       || endswith (py "." ++ whitelisted) domain_lower)
    WHITELISTED_DOMAINS.

(** *** Brand matcher *)

(** The nine patterns built for a brand.  The brand is spliced into the
    pattern text; the registered brands consist of letters and hyphens,
    which stand for themselves in a pattern. *)
Definition brand_patterns (brand : str) : list regex :=
  [ cat [Bol; Lit brand; Lit (py ".")];            (* ^brand\.  *)
    cat [Bol; Lit brand; Lit (py "-")];            (* ^brand-   *)
    cat [Bol; Lit brand; Eol];                     (* ^brand$   *)
    cat [Lit (py "."); Lit brand; Lit (py ".")];   (* \.brand\. *)
    cat [Lit (py "."); Lit brand; Lit (py "-")];   (* \.brand-  *)
    cat [Lit (py "."); Lit brand; Eol];            (* \.brand$  *)
    cat [Lit (py "-"); Lit brand; Lit (py ".")];   (* -brand\.  *)
    cat [Lit (py "-"); Lit brand; Lit (py "-")];   (* -brand-   *)
    cat [Lit (py "-"); Lit brand; Eol] ].          (* -brand$   *)

Definition brand_matches (check_domain brand : str) : bool :=
  existsb (fun pattern => search pattern check_domain) (brand_patterns brand).

Definition contains_brand_impersonation (domain : str) : bool * list str :=
  let check_domain := lower_without_www domain in
  let matched_brands := filter (brand_matches check_domain) BRAND_KEYWORDS in
  (0 <? len matched_brands, matched_brands).

(** *** Homoglyphs *)

(** [re.split(r'[.\-]', s)] *)
Definition is_separator (c : char) : bool := (c =? 46) || (c =? 45).
Definition labels (s : str) : list str := split_on is_separator s.

Definition normalize_homoglyphs (text : str) : str :=
  List.concat
    (map
       (fun c =>
          match find (fun entry => mem [c] (snd entry)) HOMOGLYPH_MAP with
          | Some (latin, _) => latin
          | None => if c =? 48 then py "o" else [c]
          end)
       text).

(** The body of the loop over the parts, for one part: [true] when the
    part is appended (and the loop over the parts is left). *)
Definition homoglyph_hit (brand part : str) : bool :=
  if (len part <? 3) || (2 <? Z.abs (len part - len brand)) then false
  else
    let has_non_ascii := negb (forallb (fun c => c <? 128) part) in
    (has_non_ascii &&
     (let normalized := normalize_homoglyphs part in
      eqb normalized brand
      || ((4 <=? len normalized) && contains normalized brand)))
    || (contains (py "0") part && eqb (replace 48 111 part) brand).

Definition detect_homoglyphs (domain : str) (brands : list str)
  : bool * list str :=
  let domain_lower := lower_without_www domain in
  let homoglyphs_found :=
    flat_map
      (fun brand =>
         let parts := labels domain_lower in
         match find (homoglyph_hit brand) parts with
         | Some part => [part]
         | None => []
         end)
      brands in
  (0 <? len homoglyphs_found, homoglyphs_found).

(** *** Typosquatting *)

(** One pass of the inner loop: the row of the character [c1], the
    [i]-th of [s1], from the row before it. *)
Definition levenshtein_row (i : nat) (c1 : char) (s2 : str)
  (previous_row : list Z) : list Z :=
  fold_left
    (fun current_row '(j, c2) =>
       let insertions := nth (j + 1) previous_row 0 + 1 in
       let deletions := nth j current_row 0 + 1 in
       let substitutions :=
         nth j previous_row 0 + (if c1 =? c2 then 0 else 1) in
       current_row ++ [Z.min insertions (Z.min deletions substitutions)])
    (enumerate s2)
    [Z.of_nat i + 1].

Definition levenshtein_rows (s1 s2 : str) : list Z :=
  fold_left
    (fun previous_row '(i, c1) => levenshtein_row i c1 s2 previous_row)
    (enumerate s1)
    (map Z.of_nat (seq 0 (List.length s2 + 1))).

(** The function calls itself once, with the arguments swapped, when
    the first is the shorter one; the test then fails in the inner call. *)
Definition levenshtein_distance (s1 s2 : str) : Z :=
  let '(s1, s2) := if len s1 <? len s2 then (s2, s1) else (s1, s2) in
  if len s2 =? 0 then len s1
  else last (levenshtein_rows s1 s2) 0.

Inductive TypoType := missing_char | extra_char | swapped_chars | substitution.

Definition classify_typo_type (original typo : str) : TypoType :=
  if len typo <? len original then missing_char
  else if len original <? len typo then extra_char
  else
    let differences :=
      len (filter (fun '(a, b) => negb (a =? b)) (combine original typo)) in
    if (differences =? 2)
       && existsb
            (fun i => (nth i original 0 =? nth (i + 1) typo 0)
                      && (nth (i + 1) original 0 =? nth i typo 0))
            (seq 0 (List.length original - 1))
    then swapped_chars
    else substitution.

Record Typo := {
  typo_brand : str;          (* 'brand' *)
  typo_label : str;          (* 'typo' *)
  typo_distance : Z;         (* 'distance' *)
  typo_type : TypoType       (* 'type' *)
}.

Definition detect_typosquatting (domain : str) (brands : list str)
  : bool * list Typo :=
  let domain_lower := lower_without_www domain in
  let parts := labels domain_lower in
  let detected_typos :=
    flat_map
      (fun brand =>
         if len brand <? 4 then []
         else
           flat_map
             (fun part =>
                if len part <? 3 then []
                else
                  let distance := levenshtein_distance part brand in
                  let length_diff := Z.abs (len part - len brand) in
                  if (0 <? distance) && (distance <=? 2) && (length_diff <=? 2)
                  then
                    if negb (eqb part brand)
                    then [ {| typo_brand := brand;
                              typo_label := part;
                              typo_distance := distance;
                              typo_type := classify_typo_type brand part |} ]
                    else []
                  else [])
             parts)
      brands in
  (0 <? len detected_typos, detected_typos).

End Detector.

(* ================================================================== *)
(** ** The score *)

(** [details] is a Python dictionary from key names to booleans, strings
    (or [None]), lists of strings and the list of typo records.  A
    dictionary keeps its keys in insertion order; assigning to a key that
    is present replaces its value in place. *)
Inductive value :=
| VNone
| VBool (b : bool)
| VStr (s : str)
| VStrs (l : list str)
| VTypos (l : list Typo).

Definition dict := list (string * value).

Fixpoint dict_set (k : string) (v : value) (d : dict) : dict :=
  match d with
  | [] => [(k, v)]
  | (k', v') :: t =>
      if String.eqb k' k then (k, v) :: t else (k', v') :: dict_set k v t
  end.

Fixpoint dict_get (k : string) (d : dict) : option value :=
  match d with
  | [] => None
  | (k', v') :: t => if String.eqb k' k then Some v' else dict_get k t
  end.

(** [d.get(k, False)], as a truth value *)
Definition get_flag (k : string) (d : dict) : bool :=
  match dict_get k d with
  | Some (VBool b) => b
  | Some (VStr s) => negb (eqb s [])
  | Some (VStrs l) => match l with [] => false | _ => true end
  | Some (VTypos l) => match l with [] => false | _ => true end
  | Some VNone | None => false
  end.

(** [d[k].append(x)] for a key that holds a list of strings *)
Definition dict_append (k : string) (x : str) (d : dict) : dict :=
  match dict_get k d with
  | Some (VStrs l) => dict_set k (VStrs (l ++ [x])) d
  | _ => d
  end.

Definition initial_details : dict :=
  [ ("brand_keywords", VStrs []);
    ("transaction_keywords", VStrs []);
    ("geo_indicators", VStrs []);
    ("suspicious_tld", VNone);
    ("free_hosting", VNone);
    ("multiple_hyphens", VBool false);
    ("numeric_suffix", VBool false);
    ("subdomain_stacking", VBool false);
    ("high_entropy", VBool false);
    ("homoglyphs_detected", VBool false);
    ("homoglyphs_used", VStrs []);
    ("typosquatting_detected", VBool false);
    ("typosquatting_details", VTypos []) ]%string.

(** The local variables that [calculate_score] updates as it goes. *)
Record Locals := {
  score : Z;
  details : dict;
  has_bg_context : bool
}.

(** [score += w], with the assignments to [details] that go with it *)
Definition award (w : Z) (f : dict -> dict) (st : Locals) : Locals :=
  {| score := score st + w;
     details := f (details st);
     has_bg_context := has_bg_context st |}.

(** [has_bg_context = True] *)
Definition bg_context (st : Locals) : Locals :=
  {| score := score st; details := details st; has_bg_context := true |}.

Definition lower_az : char -> bool := range "a" "z".

Definition numeric_suffix_1 {U : Unicode} : regex :=       (* -\d{3,}\. *)
  cat [Lit (py "-"); at_least 3 isdigit; Lit (py ".")].
Definition numeric_suffix_2 {U : Unicode} : regex :=       (* \d{4,}\. *)
  cat [at_least 4 isdigit; Lit (py ".")].
Definition consonant_cluster : regex :=     (* [bcdfghjklmnpqrstvwxyz]{3,} *)
  at_least 3 (one_of "bcdfghjklmnpqrstvwxyz").
Definition mixed_alphanum_re {U : Unicode} : regex :=
  (* [a-z]+\d+[a-z]+|\d+[a-z]+\d+ *)
  Alt (cat [plus lower_az; plus isdigit; plus lower_az])
      (cat [plus isdigit; plus lower_az; plus isdigit]).
Definition bg_tld_abuse_re : regex :=
  (* \.bg-[a-z]{2,4}\.(cfd|tk|ml|ga|cf|gq|xyz|online|site|click|icu) *)
  cat [Lit (py ".bg-"); Rep lower_az 2 (Some 4%nat); Lit (py ".");
       alt (Lit (py "cfd"))
         (map (fun t => Lit (py t))
            ["tk"; "ml"; "ga"; "cf"; "gq"; "xyz"; "online"; "site";
             "click"; "icu"]%string)].

(** [brand-?bg] and [bg-?brand] *)
Definition then_bg (b : string) : regex :=
  cat [Lit (py b); opt (one_of "-"); Lit (py "bg")].
Definition bg_then (b : string) : regex :=
  cat [Lit (py "bg"); opt (one_of "-"); Lit (py b)].

Definition direct_impersonation_patterns : list regex :=
  [ then_bg "econt"; then_bg "speedy"; then_bg "bgpost"; then_bg "olx";
    then_bg "sameday"; then_bg "easypay"; then_bg "epay"; then_bg "borica";
    bg_then "econt"; bg_then "speedy"; bg_then "post"; bg_then "olx" ].

Section Score.
Context {U : Unicode}.

(** The numbered blocks of [calculate_score], one definition each; every
    block reads the lower-cased domain and updates the locals. *)

(* 1. BRAND KEYWORD DETECTION (+40) *)
Definition brand_block (has_brand : bool) (matched_brands : list str)
  (st : Locals) : Locals :=
  if has_brand
  then award 40 (dict_set "brand_keywords" (VStrs matched_brands)) st
  else st.

(* 2. HOMOGLYPH DETECTION (+30) *)
Definition homoglyph_block (has_homoglyphs : bool)
  (homoglyphs_list : list str) (st : Locals) : Locals :=
  if has_homoglyphs
  then award 30
         (fun d => dict_set "homoglyphs_used" (VStrs homoglyphs_list)
                     (dict_set "homoglyphs_detected" (VBool true) d)) st
  else st.

(* 3. TYPOSQUATTING DETECTION (+25) *)
Definition typosquatting_block (has_typos : bool) (typos_list : list Typo)
  (st : Locals) : Locals :=
  if has_typos
  then award 25
         (fun d => dict_set "typosquatting_details" (VTypos typos_list)
                     (dict_set "typosquatting_detected" (VBool true) d)) st
  else st.

(* 4. FREE HOSTING DETECTION (+25) *)
Definition free_hosting_block (domain_lower : str) (st : Locals) : Locals :=
  match find (fun suffix => endswith suffix domain_lower)
             FREE_HOSTING_SUFFIXES with
  | Some suffix => award 25 (dict_set "free_hosting" (VStr suffix)) st
  | None => st
  end.

(* 5. SUSPICIOUS TLD DETECTION (+20) *)
Definition suspicious_tld_block (domain_lower : str) (st : Locals) : Locals :=
  match find (fun tld => endswith tld domain_lower) SUSPICIOUS_TLDS with
  | Some tld => award 20 (dict_set "suspicious_tld" (VStr tld)) st
  | None => st
  end.

(* 6. GEOGRAPHIC INDICATOR (+15); [has_bg_context] starts out false here *)
Definition geo_block (domain_lower : str) (st : Locals) : Locals :=
  match find (fun geo => contains geo domain_lower) GEO_INDICATORS with
  | Some geo => bg_context (award 15 (dict_append "geo_indicators" geo) st)
  | None => st
  end.

(* 7. TRANSACTION KEYWORDS (+10) *)
Definition transaction_block (domain_lower : str) (st : Locals) : Locals :=
  match find (fun keyword => contains keyword domain_lower)
             TRANSACTION_KEYWORDS with
  | Some keyword => award 10 (dict_append "transaction_keywords" keyword) st
  | None => st
  end.

(* 8. MULTIPLE HYPHENS (+10) *)
Definition hyphen_block (domain_lower : str) (st : Locals) : Locals :=
  let hyphen_count := count 45 domain_lower in
  if 2 <=? hyphen_count
  then award 10 (dict_set "multiple_hyphens" (VBool true)) st
  else st.

(* 9. NUMERIC SUFFIX (+10) *)
Definition numeric_suffix_block (domain_lower : str) (st : Locals) : Locals :=
  if search numeric_suffix_1 domain_lower
     || search numeric_suffix_2 domain_lower
  then award 10 (dict_set "numeric_suffix" (VBool true)) st
  else st.

(* 10. SUBDOMAIN STACKING (+10) *)
Definition stacking_block (domain_lower : str) (st : Locals) : Locals :=
  let parts := split_on (fun c => c =? 46) domain_lower in
  if 4 <=? len parts
  then award 10 (dict_set "subdomain_stacking" (VBool true)) st
  else st.

(* 11. HIGH ENTROPY / RANDOMNESS (+10) *)
Definition high_entropy (domain_lower : str) : bool :=
  let domain_name := hd [] (split_on (fun c => c =? 46) domain_lower) in
  if 10 <? len domain_name then
    let consonant_clusters := findall_count consonant_cluster domain_name in
    let mixed_alphanum := findall_count mixed_alphanum_re domain_name in
    (2 <=? consonant_clusters) || (2 <=? mixed_alphanum)
  else false.

Definition entropy_block (domain_lower : str) (st : Locals) : Locals :=
  if high_entropy domain_lower
  then award 10 (dict_set "high_entropy" (VBool true)) st
  else st.

(* BONUS: .bg-XX.TLD pattern (+10) *)
Definition bg_tld_abuse_block (domain_lower : str) (st : Locals) : Locals :=
  if search bg_tld_abuse_re domain_lower
  then bg_context (award 10 (dict_set "bg_tld_abuse" (VBool true)) st)
  else st.

(* SMART BULGARIAN CONTEXT DETECTION *)
Definition weak_context_block (domain_lower : str) (st : Locals) : Locals :=
  if negb (has_bg_context st) then
    if contains (py "bg") domain_lower
       || contains (py "bulgaria") domain_lower
    then bg_context st
    else st
  else st.

(* BONUS: Direct impersonation of whitelisted domains (+15) *)
Definition direct_impersonation_block (domain_lower : str) (st : Locals)
  : Locals :=
  if existsb (fun pattern => search pattern domain_lower)
             direct_impersonation_patterns
  then bg_context
         (award 15 (dict_set "direct_impersonation" (VBool true)) st)
  else st.

(** [calculate_score] up to and including the direct-impersonation bonus:
    the verdicts of the three detectors and the locals at that point. *)
Definition signals (domain : str) : bool * bool * bool * Locals :=
  let st := {| score := 0; details := initial_details;
               has_bg_context := false |} in
  let domain_lower := lower_without_www domain in
  let '(has_brand, matched_brands) := contains_brand_impersonation domain in
  let st := brand_block has_brand matched_brands st in
  let '(has_homoglyphs, homoglyphs_list) :=
    detect_homoglyphs domain BRAND_KEYWORDS in
  let st := homoglyph_block has_homoglyphs homoglyphs_list st in
  let '(has_typos, typos_list) := detect_typosquatting domain BRAND_KEYWORDS in
  let st := typosquatting_block has_typos typos_list st in
  let st := free_hosting_block domain_lower st in
  let st := suspicious_tld_block domain_lower st in
  let st := geo_block domain_lower st in
  let st := transaction_block domain_lower st in
  let st := hyphen_block domain_lower st in
  let st := numeric_suffix_block domain_lower st in
  let st := stacking_block domain_lower st in
  let st := entropy_block domain_lower st in
  let st := bg_tld_abuse_block domain_lower st in
  let st := weak_context_block domain_lower st in
  let st := direct_impersonation_block domain_lower st in
  (has_brand, has_homoglyphs, has_typos, st).

(** The rest of [calculate_score]: the penalty and the clamp. *)
Definition calculate_score (domain : str) : Z * dict :=
  let '(has_brand, has_homoglyphs, has_typos, st) := signals domain in
  let apply_penalty :=
    (has_brand || has_homoglyphs || has_typos)
    && negb (has_bg_context st)
    && negb (get_flag "direct_impersonation" (details st)) in
  let st :=
    if apply_penalty
    then award (-20) (dict_set "non_bg_context_penalty" (VBool true)) st
    else st in
  let score := Z.min (Z.max (score st) 0) 100 in
  (score, details st).

End Score.

(* ================================================================== *)
(** ** The feed file

    [save_feed] writes the feed with [json.dump] and [load_existing_feed]
    reads it with [json.load].  [json.dump] writes every character that
    is not ASCII as an escape of four hexadecimal digits, a character
    beyond U+FFFF as the two escapes of its surrogates, and a surrogate
    of the string as its own escape; [json.load] reads an escape of a
    high surrogate that is followed by one of a low surrogate as one
    character.  So a string is read back as written unless it holds a
    high surrogate followed by a low one. *)

Definition is_high_surrogate (c : char) : bool :=
  (55296 <=? c) && (c <=? 56319).                      (* U+D800..U+DBFF *)

Definition is_low_surrogate (c : char) : bool :=
  (56320 <=? c) && (c <=? 57343).                      (* U+DC00..U+DFFF *)

(** A string as [json.load] reads it from what [json.dump] wrote. *)
Fixpoint json_text (s : str) : str :=
  match s with
  | [] => []
  | c :: t =>
      match t with
      | c2 :: t2 =>
          if is_high_surrogate c && is_low_surrogate c2
          then (65536 + (c - 55296) * 1024 + (c2 - 56320)) :: json_text t2
          else c :: json_text t
      | [] => [c]
      end
  end.

Definition json_typo (t : Typo) : Typo :=
  {| typo_brand := json_text (typo_brand t);
     typo_label := json_text (typo_label t);
     typo_distance := typo_distance t;
     typo_type := typo_type t |}.

Definition json_value (v : value) : value :=
  match v with
  | VNone => VNone
  | VBool b => VBool b
  | VStr s => VStr (json_text s)
  | VStrs l => VStrs (map json_text l)
  | VTypos l => VTypos (map json_typo l)
  end.

(** The keys of the details are ASCII names. *)
Definition json_dict (d : dict) : dict :=
  map (fun '(k, v) => (k, json_value v)) d.

(** An entry of the feed; the time stamp ['detected_at'] is left out. *)
Record FeedEntry := {
  entry_domain : str;
  entry_score : Z;
  entry_details : dict;
  entry_source : str
}.

Definition json_entry (entry : FeedEntry) : FeedEntry :=
  {| entry_domain := json_text (entry_domain entry);
     entry_score := entry_score entry;
     entry_details := json_dict (entry_details entry);
     entry_source := json_text (entry_source entry) |}.

(** The file feed/phishing_feed.json: missing, not JSON, or the text
    that [json.dump] writes for a list of entries (any JSON text of a
    list of entries is read as the text that [json.dump] writes for what
    was read). *)
Inductive FeedFile :=
| NoFile
| Unreadable
| Dumped (feed_data : list FeedEntry).

Definition load_existing_feed (file : FeedFile) : list FeedEntry :=
  match file with
  | NoFile => []                           (* os.path.exists is False *)
  | Unreadable => []                       (* json.JSONDecodeError *)
  | Dumped feed_data => map json_entry feed_data
  end.

(** What becomes of a call of [save_feed], which catches every exception:
    the feed is written; or [open] fails and the file is as it was; or
    the file is opened, and so emptied, and the writing fails. *)
Inductive WriteOutcome := Saved | OpenFailed | WriteFailed.

Definition save_feed (outcome : WriteOutcome) (feed_data : list FeedEntry)
  (file : FeedFile) : FeedFile :=
  match outcome with
  | Saved => Dumped feed_data
  | OpenFailed => file
  | WriteFailed => Unreadable
  end.

Definition add_to_feed (outcome : WriteOutcome) (domain : str) (sc : Z)
  (det : dict) (source : str) (file : FeedFile) : FeedFile :=
  let feed_data := load_existing_feed file in
  if existsb (fun entry => eqb (entry_domain entry) domain) feed_data
  then file
  else
    let entry := {| entry_domain := domain; entry_score := sc;
                    entry_details := det; entry_source := source |} in
    save_feed outcome (feed_data ++ [entry]) file.

(* ================================================================== *)
(** ** Admission and the scan loop

    [scan_domains] harvests candidate domains and runs each through the
    filters and the scorer.  What it reads from outside is a parameter
    here: the candidates in the order in which the loop meets them; the
    clock, as the test [expired i] that the duration limit is set and
    exceeded when the [i]-th candidate comes up; what becomes of the
    writing of the feed for the [i]-th candidate, [writes i]; and the
    feed file as the scan finds it.  Log lines are left out. *)

Record Scan := {
  processed_domains : list str;          (* a set *)
  findings_count : Z;
  feed : FeedFile;                       (* feed/phishing_feed.json *)
  scored : list str  (* the arguments of the calls of calculate_score,
                        the oldest first *)
}.

Section Scanner.
Context {U : Unicode}.

Definition is_infrastructure_domain (domain : str) : bool :=
  let domain_lower := lower domain in
  existsb (fun pattern => contains pattern domain_lower)
          INFRASTRUCTURE_PATTERNS.

Definition contains_courier_keyword (domain : str) : bool * list str :=
  contains_brand_impersonation domain.

(** The body of the loop over the candidates, after the duration test. *)
Definition scan_one (outcome : WriteOutcome) (domain : str) (st : Scan)
  : Scan :=
  let domain := strip domain in
  if eqb domain [] || startswith (py "*") domain
     || mem domain (processed_domains st)
  then st
  else
    let st := {| processed_domains := domain :: processed_domains st;
                 findings_count := findings_count st;
                 feed := feed st; scored := scored st |} in
    (* filter 1: infrastructure *)
    if is_infrastructure_domain domain then st
    (* filter 2: whitelist *)
    else if is_whitelisted domain then st
    (* filter 3: a suspicious platform or TLD, unless manual *)
    else if negb (mem domain MANUAL_CHECK_DOMAINS)
            && negb (existsb (fun suffix => endswith suffix domain)
                             TARGET_SUFFIXES)
    then st
    else
      let '(has_courier, courier_keywords) :=
        contains_courier_keyword domain in
      let '(sc, det) := calculate_score domain in
      let st := {| processed_domains := processed_domains st;
                   findings_count := findings_count st;
                   feed := feed st; scored := scored st ++ [domain] |} in
      if negb has_courier
         && negb (existsb (fun kw => contains kw (lower domain))
                          TRANSACTION_KEYWORDS)
         && (sc <? 60)
      then st
      else if SCORE_THRESHOLD <=? sc
      then {| processed_domains := processed_domains st;
              findings_count := findings_count st + 1;
              feed := add_to_feed outcome domain sc det (py "scanner")
                        (feed st);
              scored := scored st |}
      else st.

Fixpoint scan_loop (expired : nat -> bool) (writes : nat -> WriteOutcome)
  (i : nat) (all_domains : list str) (st : Scan) : Scan :=
  match all_domains with
  | [] => st
  | domain :: rest =>
      if expired i then st                       (* break *)
      else scan_loop expired writes (S i) rest
             (scan_one (writes i) domain st)
  end.

Definition scan_domains (expired : nat -> bool)
  (writes : nat -> WriteOutcome) (all_domains : list str)
  (feed_file : FeedFile) : Scan :=
  scan_loop expired writes 0 all_domains
    {| processed_domains := []; findings_count := 0;
       feed := feed_file; scored := [] |}.

End Scanner.

(* ================================================================== *)
(** ** The statements of the specification

    The signals of the score table and the penalty rule, written from the
    words of the specification, to be compared with what
    [calculate_score] computes. *)

Section Statements.
Context {U : Unicode}.

Definition brand_fired (d : str) : bool :=
  fst (contains_brand_impersonation d).
Definition homoglyph_fired (d : str) : bool :=
  fst (detect_homoglyphs d BRAND_KEYWORDS).
Definition typosquat_fired (d : str) : bool :=
  fst (detect_typosquatting d BRAND_KEYWORDS).
Definition free_hosting_fired (d : str) : bool :=
  existsb (fun suffix => endswith suffix (lower_without_www d))
          FREE_HOSTING_SUFFIXES.
Definition suspicious_tld_fired (d : str) : bool :=
  existsb (fun tld => endswith tld (lower_without_www d)) SUSPICIOUS_TLDS.
Definition geo_fired (d : str) : bool :=
  existsb (fun geo => contains geo (lower_without_www d)) GEO_INDICATORS.
Definition transaction_fired (d : str) : bool :=
  existsb (fun kw => contains kw (lower_without_www d)) TRANSACTION_KEYWORDS.
Definition hyphens_fired (d : str) : bool :=
  2 <=? count 45 (lower_without_www d).
Definition numeric_suffix_fired (d : str) : bool :=
  search numeric_suffix_1 (lower_without_www d)
  || search numeric_suffix_2 (lower_without_www d).
Definition stacking_fired (d : str) : bool :=
  4 <=? len (split_on (fun c => c =? 46) (lower_without_www d)).
Definition entropy_fired (d : str) : bool :=
  high_entropy (lower_without_www d).
Definition abuse_infix_fired (d : str) : bool :=
  search bg_tld_abuse_re (lower_without_www d).
Definition weak_fallback_fired (d : str) : bool :=
  contains (py "bg") (lower_without_www d)
  || contains (py "bulgaria") (lower_without_www d).
Definition direct_impersonation_fired (d : str) : bool :=
  existsb (fun pattern => search pattern (lower_without_www d))
          direct_impersonation_patterns.

Definition weight (fired : bool) (w : Z) : Z := if fired then w else 0.

(** The weighted additive model of the score table. *)
Definition weighted_sum (d : str) : Z :=
  weight (brand_fired d) 40
  + weight (homoglyph_fired d) 30
  + weight (typosquat_fired d) 25
  + weight (free_hosting_fired d) 25
  + weight (suspicious_tld_fired d) 20
  + weight (geo_fired d) 15
  + weight (transaction_fired d) 10
  + weight (hyphens_fired d) 10
  + weight (numeric_suffix_fired d) 10
  + weight (stacking_fired d) 10
  + weight (entropy_fired d) 10
  + weight (abuse_infix_fired d) 10
  + weight (direct_impersonation_fired d) 15.

(** The context-penalty rule: a brand-derived signal fired, no
    Bulgarian-context signal fired at all, and the direct-impersonation
    pattern did not fire. *)
Definition penalty_due (d : str) : bool :=
  (brand_fired d || homoglyph_fired d || typosquat_fired d)
  && (negb (geo_fired d) && negb (weak_fallback_fired d)
      && negb (abuse_infix_fired d) && negb (direct_impersonation_fired d))
  && negb (direct_impersonation_fired d).

Definition clamp (x : Z) : Z := Z.min (Z.max x 0) 100.

End Statements.

(** *** Boundaries of a brand inside a domain *)

(** Before the brand: the start of the string, a dot or a hyphen. *)
Definition boundary_before (pre : str) : Prop :=
  pre = [] \/ exists p c, pre = p ++ [c] /\ is_separator c = true.

(** After the brand: the end of the string, a dot or a hyphen. *)
Definition boundary_after (post : str) : Prop :=
  post = [] \/ exists c q, post = c :: q /\ is_separator c = true.

(** The end of the string as [$] reads it: also before a final newline. *)
Definition boundary_after_re (post : str) : Prop :=
  boundary_after post \/ post = [10].

(** [brand] occurs in [s] between two boundaries. *)
Definition bounded_in (after : str -> Prop) (brand s : str) : Prop :=
  exists pre post,
    s = pre ++ brand ++ post /\ boundary_before pre /\ after post.

(** [brand] is one of the labels of [s], split at dots and hyphens. *)
Definition whole_label (brand s : str) : Prop := In brand (labels s).

(** *** Homoglyph hits *)

Definition infix (p s : str) : Prop := exists a b, s = a ++ p ++ b.

Definition has_non_ascii (l : str) : Prop := exists c, In c l /\ 128 <= c.

(** The hit of a label for a brand, in one reading of the specification:
    any label of the right length with a non-ASCII character or a zero
    whose normal form is the brand or a long enough part of it, or that
    is the brand once its zeros read as the letter o. *)
Definition homoglyph_hit_any (brand l : str) : Prop :=
  3 <= len l /\ Z.abs (len l - len brand) <= 2
  /\ (has_non_ascii l \/ In 48 l)
  /\ (normalize_homoglyphs l = brand
      \/ (4 <= len (normalize_homoglyphs l)
          /\ infix (normalize_homoglyphs l) brand)
      \/ replace 48 111 l = brand).

(** The hit as the detector tests it: the normal form counts for a label
    with a non-ASCII character only; a zero only counts through the
    literal replacement. *)
Definition homoglyph_rule (brand l : str) : Prop :=
  3 <= len l /\ Z.abs (len l - len brand) <= 2
  /\ ((has_non_ascii l
       /\ (normalize_homoglyphs l = brand
           \/ (4 <= len (normalize_homoglyphs l)
               /\ infix (normalize_homoglyphs l) brand)))
      \/ (In 48 l /\ replace 48 111 l = brand)).

(** [l] is the first element of [parts] with the property [P]. *)
Definition first_with {A} (P : A -> Prop) (parts : list A) (l : A) : Prop :=
  exists pre post,
    parts = pre ++ l :: post /\ P l /\ forall x, In x pre -> ~ P x.

(** *** The edit distance

    The glossary of the specification: the minimum number of
    single-character insertions, deletions, or substitutions that
    transform one string into another.  [edits a b n]: [n] such
    operations turn [a] into [b]. *)
Inductive edits : str -> str -> Z -> Prop :=
| edits_nil : edits [] [] 0
| edits_delete x a b n : edits a b n -> edits (x :: a) b (n + 1)
| edits_insert y a b n : edits a b n -> edits a (y :: b) (n + 1)
| edits_keep x a b n : edits a b n -> edits (x :: a) (x :: b) n
| edits_substitute x y a b n :
    edits a b n -> edits (x :: a) (y :: b) (n + 1).

(** The least such number, by recursion on the two strings. *)
Fixpoint edit_distance (a : str) : str -> Z :=
  fix inner (b : str) : Z :=
    match a, b with
    | [], _ => len b
    | _, [] => len a
    | x :: a', y :: b' =>
        Z.min (edit_distance a' b + 1)
          (Z.min (inner b' + 1)
             (edit_distance a' b' + (if x =? y then 0 else 1)))
    end.

(** The row of the distance table for the part [ra] (reversed) of the
    first string: its distances to the prefixes of [s2]. *)
Definition table_row (ra s2 : str) : list Z :=
  map (fun k => edit_distance ra (rev (firstn k s2)))
      (seq 0 (S (List.length s2))).

(** *** Kinds of typo *)

(** The two strings differ at exactly the positions [i] and [i+1], and
    there the one has the characters of the other in the opposite order. *)
Definition mirrored_adjacent_pair (original typo : str) : Prop :=
  exists i : nat,
    (S i < List.length original)%nat
    /\ (forall j : nat, (j < List.length original)%nat ->
          (nth j original 0 <> nth j typo 0 <-> j = i \/ j = S i))
    /\ nth i original 0 = nth (S i) typo 0
    /\ nth (S i) original 0 = nth i typo 0.

(** The kind of edit that the specification gives a recorded typo. *)
Definition typo_kind_spec (brand label : str) (k : TypoType) : Prop :=
  match k with
  | missing_char => len label < len brand
  | extra_char => len brand < len label
  | swapped_chars =>
      len label = len brand /\ mirrored_adjacent_pair brand label
  | substitution =>
      len label = len brand /\ ~ mirrored_adjacent_pair brand label
  end.

(** When a typo is recorded for a brand and a label. *)
Definition typo_condition (brand label : str) : Prop :=
  4 <= len brand /\ 3 <= len label
  /\ 0 < edit_distance label brand <= 2
  /\ Z.abs (len label - len brand) <= 2
  /\ label <> brand.

(** How often a string occurs in a list. *)
Definition occurrences (x : str) (l : list str) : nat :=
  List.length (filter (eqb x) l).

(** *** The whitelist *)

(** The lower-cased, www-stripped domain is a whitelist entry or ends
    with a dot and an entry. *)
Definition on_whitelist {U : Unicode} (d : str) : Prop :=
  exists w, In w WHITELISTED_DOMAINS
            /\ (lower_without_www d = w
                \/ exists sub, lower_without_www d = sub ++ py "." ++ w).

(* ================================================================== *)
(** ** Notions used in the proofs *)

Definition nonempty {A} (l : list A) : bool :=
  match l with [] => false | _ :: _ => true end.

(** A row of the distance table without negative entries. *)
Definition nonneg (row : list Z) : Prop := Forall (fun x => 0 <= x) row.

(** [differences] of [classify_typo_type]: the number of positions at
    which the two strings differ. *)
Definition differences (original typo : str) : Z :=
  len (filter (fun '(a, b) => negb (a =? b)) (combine original typo)).

(** What a block does to the locals: [w] points if it fired, Bulgarian
    context if it fired and is a context signal, the direct-impersonation
    flag if it fired and is the direct-impersonation block; none touches
    the penalty key. *)
Definition block_effect (fired : bool) (w : Z) (ctx direct : bool)
  (st st' : Locals) : Prop :=
  score st' = score st + weight fired w
  /\ has_bg_context st' = has_bg_context st || (fired && ctx)
  /\ get_flag "direct_impersonation" (details st')
     = get_flag "direct_impersonation" (details st) || (fired && direct)
  /\ dict_get "non_bg_context_penalty" (details st')
     = dict_get "non_bg_context_penalty" (details st).

(** The three ways a pattern of [brand_patterns] starts and ends. *)
Inductive side := edge | dot | hyphen.

Definition left_re (k : side) : regex :=
  match k with edge => Bol | dot => Lit [46] | hyphen => Lit [45] end.

Definition right_re (k : side) : regex :=
  match k with edge => Eol | dot => Lit [46] | hyphen => Lit [45] end.

Definition left_ok (k : side) (pre : str) : Prop :=
  match k with
  | edge => pre = []
  | dot => exists p, pre = p ++ [46]
  | hyphen => exists p, pre = p ++ [45]
  end.

Definition right_ok (k : side) (post : str) : Prop :=
  match k with
  | edge => post = [] \/ post = [10]
  | dot => exists q, post = 46 :: q
  | hyphen => exists q, post = 45 :: q
  end.

Definition sep_free (sep : char -> bool) (l : str) : Prop :=
  forall c, In c l -> sep c = false.

(** Two patterns that are the same up to their character classes, which
    agree on the characters with the property [P]. *)
Fixpoint same_on (P : char -> bool) (r r' : regex) : Prop :=
  match r, r' with
  | Bol, Bol => True
  | Eol, Eol => True
  | Lit l, Lit l' => l = l'
  | Cls p, Cls p' => forall c, P c = true -> p c = p' c
  | Rep p lo hi, Rep p' lo' hi' =>
      lo = lo' /\ hi = hi' /\ forall c, P c = true -> p c = p' c
  | Seq a b, Seq a' b' => same_on P a a' /\ same_on P b b'
  | Alt a b, Alt a' b' => same_on P a a' /\ same_on P b b'
  | _, _ => False
  end.

(** The pair that identifies a recorded typo. *)
Definition typo_key (t : Typo) : str * str := (typo_brand t, typo_label t).

Section ScanInvariant.
Context {U : Unicode}.

(** Every domain that was scored had passed the whitelist filter. *)
Definition scored_unlisted (st : Scan) : Prop :=
  Forall (fun d => is_whitelisted d = false) (scored st).

End ScanInvariant.

(** What [normalize_homoglyphs] makes of one character. *)
Definition normalize_char (c : char) : str :=
  match find (fun entry => mem [c] (snd entry)) HOMOGLYPH_MAP with
  | Some (latin, _) => latin
  | None => if c =? 48 then py "o" else [c]
  end.

(** An ASCII character other than the digit zero. *)
Definition ascii_not_zero (c : char) : bool := (c <? 128) && negb (c =? 48).

(** A list of strings without repetition, as a test. *)
Fixpoint distinct (l : list str) : bool :=
  match l with
  | [] => true
  | x :: t => negb (mem x t) && distinct t
  end.

Section MoreStatements.
Context {U : Unicode}.

(** Some signal of the score table fired. *)
Definition any_signal (d : str) : bool :=
  brand_fired d || homoglyph_fired d || typosquat_fired d
  || free_hosting_fired d || suspicious_tld_fired d || geo_fired d
  || transaction_fired d || hyphens_fired d || numeric_suffix_fired d
  || stacking_fired d || entropy_fired d || abuse_infix_fired d
  || direct_impersonation_fired d.

End MoreStatements.

(** The first element of a list with a property, as a list of at most
    one element. *)
Definition first_match {A} (f : A -> bool) (l : list A) : list A :=
  match find f l with Some x => [x] | None => [] end.

(** [st'] has every key of the details of [st]. *)
Definition keeps_keys (st st' : Locals) : Prop :=
  forall k, dict_get k (details st) <> None ->
            dict_get k (details st') <> None.

(** ** The scan, step by step *)

Definition feed_domains (feed_data : list FeedEntry) : list str :=
  map entry_domain feed_data.

Section ScanStatements.
Context {U : Unicode}.

(** The first test of the loop body: the candidate is not taken up. *)
Definition skipped (domain : str) (st : Scan) : bool :=
  eqb domain [] || startswith (py "*") domain
  || mem domain (processed_domains st).

(** The three filters before the scorer let the domain through. *)
Definition admitted (domain : str) : bool :=
  negb (is_infrastructure_domain domain)
  && negb (is_whitelisted domain)
  && (mem domain MANUAL_CHECK_DOMAINS
      || existsb (fun suffix => endswith suffix domain) TARGET_SUFFIXES).

(** The score of the domain reaches the threshold. *)
Definition finding (domain : str) : bool :=
  SCORE_THRESHOLD <=? fst (calculate_score domain).

(** The entry that the scanner writes for a domain. *)
Definition scanner_entry (domain : str) : FeedEntry :=
  {| entry_domain := domain;
     entry_score := fst (calculate_score domain);
     entry_details := snd (calculate_score domain);
     entry_source := py "scanner" |}.

(** Of a list of scored domains, the ones that become new entries of a
    feed with the entries [existing_feed]. *)
Definition new_findings (existing_feed : list FeedEntry)
  (domains : list str) : list str :=
  filter (fun d => finding d && negb (mem d (feed_domains existing_feed)))
         domains.

End ScanStatements.

(** No high surrogate of the string is followed by a low one. *)
Fixpoint surrogate_pair_free (s : str) : bool :=
  match s with
  | [] => true
  | c :: t =>
      match t with
      | c2 :: _ =>
          negb (is_high_surrogate c && is_low_surrogate c2)
          && surrogate_pair_free t
      | [] => true
      end
  end.

(* ================================================================== *)
(** * Properties *)

(** ** Strings *)

Lemma eqb_eq (a b : str) : eqb a b = true <-> a = b.
Proof.
  revert b; induction a as [|c a IH]; intros [|d b]; simpl;
    try (split; [discriminate | discriminate]); try tauto.
  rewrite andb_true_iff, Z.eqb_eq, IH.
  split; [intros [-> ->]; reflexivity | intros [= -> ->]; auto].
Qed.

Lemma eqb_refl (a : str) : eqb a a = true.
Proof. apply eqb_eq; reflexivity. Qed.

Lemma eqb_neq (a b : str) : eqb a b = false <-> a <> b.
Proof.
  rewrite <- eqb_eq. destruct (eqb a b); split; congruence.
Qed.

Lemma startswith_iff (p s : str) :
  startswith p s = true <-> exists t, s = p ++ t.
Proof.
  revert s; induction p as [|c p IH]; intros s; simpl.
  - split; eauto.
  - destruct s as [|d s].
    + split; [discriminate | intros [t Ht]; discriminate].
    + rewrite andb_true_iff, Z.eqb_eq, IH. split.
      * intros [-> [t ->]]. eauto.
      * intros [t [= -> ->]]. eauto.
Qed.

Lemma startswith_app (p t : str) : startswith p (p ++ t) = true.
Proof. apply startswith_iff; eauto. Qed.

Lemma skipn_app_exact {A} (p t : list A) : skipn (List.length p) (p ++ t) = t.
Proof. induction p; simpl; auto. Qed.

Lemma endswith_iff (p s : str) :
  endswith p s = true <-> exists t, s = t ++ p.
Proof.
  unfold endswith. rewrite startswith_iff. split.
  - intros [t Ht]. exists (rev t).
    rewrite <- (rev_involutive s), Ht, rev_app_distr, rev_involutive.
    reflexivity.
  - intros [t ->]. exists (rev t). apply rev_app_distr.
Qed.

Lemma contains_iff (p s : str) :
  contains p s = true <-> exists a b, s = a ++ p ++ b.
Proof.
  induction s as [|c s IH]; simpl.
  - rewrite orb_false_r, startswith_iff. split.
    + intros [t Ht]. exists [], t. exact Ht.
    + intros (a & b & H). destruct a; simpl in H; [eauto|discriminate].
  - rewrite orb_true_iff, startswith_iff, IH. split.
    + intros [[t Ht] | (a & b & ->)].
      * exists [], t. exact Ht.
      * exists (c :: a), b. reflexivity.
    + intros (a & b & H). destruct a as [|c' a]; simpl in H.
      * left; eauto.
      * right. injection H as _ ->. eauto.
Qed.

Lemma len_nonneg {A} (l : list A) : 0 <= len l.
Proof. unfold len; lia. Qed.

Lemma len_app {A} (a b : list A) : len (a ++ b) = len a + len b.
Proof. unfold len. rewrite length_app. lia. Qed.

Lemma mem_iff (x : str) (xs : list str) : mem x xs = true <-> In x xs.
Proof.
  unfold mem. rewrite existsb_exists. split.
  - intros (y & Hy & E). apply eqb_eq in E. subst; assumption.
  - intros H. exists x. split; [assumption | apply eqb_refl].
Qed.

(** The literals of this file decode to the code points of the source:
    the Cyrillic example of the specification, and the values of
    [HOMOGLYPH_MAP], row by row. *)
Example py_cyrillic_econt :
  py "есоnt.cfd" = [1077; 1089; 1086; 110; 116; 46; 99; 102; 100].
Proof. reflexivity. Qed.

Example lookalikes_code_points :
  lookalikes =
    [[1072]; [7841]; [261]; [940]; [945]] ++
    [[1089]; [1010]; [263]; [267]] ++
    [[1077]; [279]; [281]; [1105]; [941]; [949]] ++
    [[1110]; [305]; [237]; [236]; [239]; [953]] ++
    [[1086]; [959]; [7885]; [243]; [242]; [48]] ++
    [[1088]; [961]; [254]] ++
    [[1109]; [347]; [351]] ++
    [[1090]; [964]] ++
    [[965]; [250]; [249]] ++
    [[1093]; [967]] ++
    [[1091]; [1199]; [253]].
Proof. reflexivity. Qed.

(** ** The Levenshtein distance *)

Lemma fold_left_invariant {A B} (P : A -> Prop) (f : A -> B -> A) l a :
  P a -> (forall a b, P a -> P (f a b)) -> P (fold_left f l a).
Proof. revert a; induction l; simpl; auto. Qed.

Lemma nth_nonneg (row : list Z) j : nonneg row -> 0 <= nth j row 0.
Proof.
  intros H. destruct (Nat.lt_ge_cases j (List.length row)) as [Hj|Hj].
  - exact (proj1 (Forall_forall _ row) H _ (nth_In row 0 Hj)).
  - rewrite nth_overflow by assumption. lia.
Qed.

Lemma last_nonneg (row : list Z) : nonneg row -> 0 <= last row 0.
Proof.
  induction 1 as [|x row Hx H IH]; simpl; [lia|].
  destruct row; [assumption | exact IH].
Qed.

Lemma levenshtein_row_nonneg i c1 s2 previous_row :
  nonneg previous_row -> nonneg (levenshtein_row i c1 s2 previous_row).
Proof.
  intros Hp. unfold levenshtein_row.
  apply fold_left_invariant.
  - constructor; [lia | constructor].
  - intros current_row [j c2] Hc. apply Forall_app. split; [assumption|].
    constructor; [|constructor].
    pose proof (nth_nonneg previous_row (j + 1) Hp).
    pose proof (nth_nonneg previous_row j Hp).
    pose proof (nth_nonneg current_row j Hc).
    destruct (c1 =? c2); lia.
Qed.

Lemma levenshtein_rows_nonneg s1 s2 : nonneg (levenshtein_rows s1 s2).
Proof.
  unfold levenshtein_rows. apply fold_left_invariant.
  - apply Forall_forall. intros x Hx. apply in_map_iff in Hx.
    destruct Hx as (n & <- & _). lia.
  - intros row [i c1] H. apply levenshtein_row_nonneg; assumption.
Qed.

(** The indices that the inner loop reads are within the rows: every row
    has one entry per character of [s2], and one more. *)
Lemma levenshtein_row_length i c1 s2 previous_row :
  List.length (levenshtein_row i c1 s2 previous_row) = S (List.length s2).
Proof.
  unfold levenshtein_row, enumerate.
  assert (G : forall (l : list (nat * char)) (row : list Z),
             List.length
               (fold_left
                  (fun current_row '(j, c2) =>
                     current_row ++
                     [Z.min (nth (j + 1) previous_row 0 + 1)
                        (Z.min (nth j current_row 0 + 1)
                           (nth j previous_row 0
                            + (if c1 =? c2 then 0 else 1)))]) l row)
             = (List.length row + List.length l)%nat).
  { induction l as [|[j c2] l IH]; intros row; simpl; [lia|].
    rewrite IH, length_app; simpl; lia. }
  rewrite G, length_combine, length_seq; simpl; lia.
Qed.

Lemma levenshtein_rows_length s1 s2 :
  List.length (levenshtein_rows s1 s2) = S (List.length s2).
Proof.
  unfold levenshtein_rows.
  apply fold_left_invariant.
  - rewrite length_map, length_seq. lia.
  - intros row [i c1] _. apply levenshtein_row_length.
Qed.

Lemma levenshtein_distance_nonneg s1 s2 : 0 <= levenshtein_distance s1 s2.
Proof.
  unfold levenshtein_distance.
  destruct (len s1 <? len s2).
  - destruct (len s1 =? 0); [apply len_nonneg|].
    apply last_nonneg, levenshtein_rows_nonneg.
  - destruct (len s2 =? 0); [apply len_nonneg|].
    apply last_nonneg, levenshtein_rows_nonneg.
Qed.

Lemma levenshtein_distance_empty_r s : levenshtein_distance s [] = len s.
Proof.
  unfold levenshtein_distance.
  pose proof (len_nonneg s).
  destruct (len s <? len (@nil char)) eqn:E.
  - apply Z.ltb_lt in E. change (len (@nil char)) with 0 in E. lia.
  - reflexivity.
Qed.

Lemma levenshtein_distance_empty_l s : levenshtein_distance [] s = len s.
Proof.
  unfold levenshtein_distance.
  destruct (len (@nil char) <? len s) eqn:E.
  - reflexivity.
  - apply Z.ltb_ge in E. change (len (@nil char)) with 0 in *.
    pose proof (len_nonneg s).
    assert (H0 : len s = 0) by lia. rewrite H0. reflexivity.
Qed.

(** C9. For all strings [s1] and [s2], [levenshtein_distance s1 s2] is not
    negative, and when either argument is the empty string the result is
    the length of the other. *)
Theorem levenshtein_distance_nonneg_and_empty :
  forall s1 s2 : str,
    0 <= levenshtein_distance s1 s2
    /\ levenshtein_distance [] s2 = len s2
    /\ levenshtein_distance s1 [] = len s1.
Proof.
  intros s1 s2. split; [apply levenshtein_distance_nonneg|].
  split; [apply levenshtein_distance_empty_l
         | apply levenshtein_distance_empty_r].
Qed.

(** ** The distance computed is the edit distance *)

Lemma edit_distance_nil_r a : edit_distance a [] = len a.
Proof. destruct a; reflexivity. Qed.

Lemma edit_distance_nil_l b : edit_distance [] b = len b.
Proof. destruct b; reflexivity. Qed.

Lemma edit_distance_cons x a y b :
  edit_distance (x :: a) (y :: b)
  = Z.min (edit_distance a (y :: b) + 1)
      (Z.min (edit_distance (x :: a) b + 1)
         (edit_distance a b + (if x =? y then 0 else 1))).
Proof. reflexivity. Qed.

Lemma len_cons {A} (x : A) l : len (x :: l) = len l + 1.
Proof. unfold len. cbn [List.length]. lia. Qed.

Lemma edit_distance_sym a : forall b, edit_distance a b = edit_distance b a.
Proof.
  induction a as [|x a IHa]; intros b.
  - rewrite edit_distance_nil_l, edit_distance_nil_r. reflexivity.
  - induction b as [|y b IHb].
    + rewrite edit_distance_nil_l, edit_distance_nil_r. reflexivity.
    + rewrite !edit_distance_cons.
      rewrite (IHa (y :: b)), IHb, (IHa b), (Z.eqb_sym y x). lia.
Qed.

Lemma edits_refl_len a : edits a [] (len a).
Proof.
  induction a as [|x a IH]; [constructor|].
  rewrite len_cons. constructor. assumption.
Qed.

Lemma edits_len_refl b : edits [] b (len b).
Proof.
  induction b as [|y b IH]; [constructor|].
  rewrite len_cons. constructor. assumption.
Qed.

(** The recursion yields a number of edits that does the job... *)
Lemma edit_distance_edits a : forall b, edits a b (edit_distance a b).
Proof.
  induction a as [|x a IHa]; intros b.
  - rewrite edit_distance_nil_l. apply edits_len_refl.
  - induction b as [|y b IHb].
    + rewrite edit_distance_nil_r. apply edits_refl_len.
    + rewrite edit_distance_cons.
      pose proof (edits_delete x _ _ _ (IHa (y :: b))) as Hd.
      pose proof (edits_insert y _ _ _ IHb) as Hi.
      assert (Hs : edits (x :: a) (y :: b)
                     (edit_distance a b + (if x =? y then 0 else 1))).
      { destruct (Z.eqb_spec x y) as [->|Hne].
        - rewrite Z.add_0_r. apply edits_keep, IHa.
        - apply edits_substitute, IHa. }
      destruct (Z.min_spec (edit_distance a (y :: b) + 1)
                  (Z.min (edit_distance (x :: a) b + 1)
                     (edit_distance a b + (if x =? y then 0 else 1))))
        as [[_ ->]|[_ ->]]; [assumption|].
      destruct (Z.min_spec (edit_distance (x :: a) b + 1)
                  (edit_distance a b + (if x =? y then 0 else 1)))
        as [[_ ->]|[_ ->]]; assumption.
Qed.

(** ... and no smaller number does. *)
Lemma edit_distance_least a b n : edits a b n -> edit_distance a b <= n.
Proof.
  induction 1 as [|x a b n H IH|y a b n H IH|x a b n H IH|x y a b n H IH].
  - simpl. unfold len. simpl. lia.
  - destruct b as [|y b].
    + rewrite edit_distance_nil_r in *. rewrite len_cons. lia.
    + rewrite edit_distance_cons. lia.
  - destruct a as [|x a].
    + rewrite edit_distance_nil_l in *. rewrite len_cons. lia.
    + rewrite edit_distance_cons. lia.
  - rewrite edit_distance_cons, Z.eqb_refl. lia.
  - rewrite edit_distance_cons. destruct (x =? y); lia.
Qed.

(** The same operations at the other end of the strings. *)
Lemma edits_delete_last x a b n :
  edits a b n -> edits (a ++ [x]) b (n + 1).
Proof.
  induction 1; simpl.
  - apply (edits_delete x [] [] 0). constructor.
  - apply edits_delete. assumption.
  - apply edits_insert. assumption.
  - apply edits_keep. assumption.
  - apply edits_substitute. assumption.
Qed.

Lemma edits_insert_last y a b n :
  edits a b n -> edits a (b ++ [y]) (n + 1).
Proof.
  induction 1; simpl.
  - apply (edits_insert y [] [] 0). constructor.
  - apply edits_delete. assumption.
  - apply edits_insert. assumption.
  - apply edits_keep. assumption.
  - apply edits_substitute. assumption.
Qed.

Lemma edits_keep_last x a b n :
  edits a b n -> edits (a ++ [x]) (b ++ [x]) n.
Proof.
  induction 1; simpl.
  - constructor. constructor.
  - apply edits_delete. assumption.
  - apply edits_insert. assumption.
  - apply edits_keep. assumption.
  - apply edits_substitute. assumption.
Qed.

Lemma edits_substitute_last x y a b n :
  edits a b n -> edits (a ++ [x]) (b ++ [y]) (n + 1).
Proof.
  induction 1; simpl.
  - apply (edits_substitute x y [] [] 0). constructor.
  - apply edits_delete. assumption.
  - apply edits_insert. assumption.
  - apply edits_keep. assumption.
  - apply edits_substitute. assumption.
Qed.

Lemma edits_rev a b n : edits a b n -> edits (rev a) (rev b) n.
Proof.
  induction 1; simpl.
  - constructor.
  - apply edits_delete_last. assumption.
  - apply edits_insert_last. assumption.
  - apply edits_keep_last. assumption.
  - apply edits_substitute_last. assumption.
Qed.

Lemma edit_distance_rev a b :
  edit_distance (rev a) (rev b) = edit_distance a b.
Proof.
  apply Z.le_antisymm.
  - apply edit_distance_least, edits_rev, edit_distance_edits.
  - rewrite <- (rev_involutive a), <- (rev_involutive b) at 1.
    apply edit_distance_least, edits_rev, edit_distance_edits.
Qed.

Lemma firstn_prefix {A} (d t : list A) k :
  (k <= List.length d)%nat -> firstn k (d ++ t) = firstn k d.
Proof.
  intros Hk. rewrite firstn_app.
  replace (k - List.length d)%nat with 0%nat by lia.
  simpl. apply app_nil_r.
Qed.

Lemma firstn_whole {A} (d t : list A) : firstn (List.length d) (d ++ t) = d.
Proof. rewrite firstn_prefix by lia. apply firstn_all. Qed.

Lemma firstn_one_more {A} (d : list A) c t :
  firstn (List.length d + 1) (d ++ c :: t) = d ++ [c].
Proof.
  replace (d ++ c :: t) with ((d ++ [c]) ++ t)
    by (rewrite <- app_assoc; reflexivity).
  replace (List.length d + 1)%nat with (List.length (d ++ [c]))
    by (rewrite length_app; simpl; lia).
  apply firstn_whole.
Qed.

Lemma table_row_nth ra s2 j :
  (j <= List.length s2)%nat ->
  nth j (table_row ra s2) 0 = edit_distance ra (rev (firstn j s2)).
Proof.
  intros Hj. unfold table_row.
  rewrite (nth_indep _ 0 (edit_distance ra (rev (firstn 0 s2))))
    by (rewrite length_map, length_seq; lia).
  rewrite (map_nth (fun k => edit_distance ra (rev (firstn k s2)))
             (seq 0 (S (List.length s2))) 0%nat j).
  rewrite seq_nth by lia. reflexivity.
Qed.

Lemma table_row_snoc ra d c :
  table_row ra (d ++ [c])
  = table_row ra d ++ [edit_distance ra (rev (d ++ [c]))].
Proof.
  unfold table_row. rewrite length_app. simpl List.length.
  replace (S (List.length d + 1)) with (S (S (List.length d))) by lia.
  rewrite (seq_S (S (List.length d)) 0), map_app. cbn [map].
  f_equal.
  - apply map_ext_in. intros k Hk. apply in_seq in Hk.
    rewrite firstn_prefix by lia. reflexivity.
  - rewrite ?Nat.add_0_l.
    replace (S (List.length d)) with (List.length (d ++ [c]))
      by (rewrite length_app; simpl; lia).
    rewrite firstn_all. reflexivity.
Qed.

(** The inner loop fills the row of [c1 :: ra] from the row of [ra]. *)
Lemma levenshtein_row_fills c1 ra s2 : forall todo done,
  s2 = done ++ todo ->
  fold_left
    (fun current_row '(j, c2) =>
       let insertions := nth (j + 1) (table_row ra s2) 0 + 1 in
       let deletions := nth j current_row 0 + 1 in
       let substitutions :=
         nth j (table_row ra s2) 0 + (if c1 =? c2 then 0 else 1) in
       current_row ++ [Z.min insertions (Z.min deletions substitutions)])
    (combine (seq (List.length done) (List.length todo)) todo)
    (table_row (c1 :: ra) done)
  = table_row (c1 :: ra) s2.
Proof.
  induction todo as [|c2 todo IH]; intros done E.
  - rewrite app_nil_r in E. subst done. reflexivity.
  - cbn [List.length seq combine fold_left]. cbv zeta.
    assert (Hlen : (List.length done + 1 <= List.length s2)%nat).
    { rewrite E, length_app. simpl. lia. }
    rewrite !table_row_nth by lia.
    replace (firstn (List.length done + 1) s2) with (done ++ [c2])
      by (rewrite E; symmetry; apply firstn_one_more).
    replace (firstn (List.length done) s2) with done
      by (rewrite E; symmetry; apply firstn_whole).
    rewrite firstn_all.
    rewrite rev_unit, <- edit_distance_cons, <- (rev_unit done c2).
    rewrite <- table_row_snoc.
    replace (S (List.length done)) with (List.length (done ++ [c2]))
      by (rewrite length_app; simpl; lia).
    apply IH. rewrite <- app_assoc. exact E.
Qed.

Lemma levenshtein_row_table i c1 ra s2 :
  i = List.length ra ->
  levenshtein_row i c1 s2 (table_row ra s2) = table_row (c1 :: ra) s2.
Proof.
  intros ->. unfold levenshtein_row, enumerate.
  replace [Z.of_nat (List.length ra) + 1] with (table_row (c1 :: ra) []).
  - apply (levenshtein_row_fills c1 ra s2 s2 []). reflexivity.
  - unfold table_row. simpl. rewrite len_cons. reflexivity.
Qed.

Lemma levenshtein_rows_fill s2 : forall todo ra,
  fold_left
    (fun previous_row '(i, c1) => levenshtein_row i c1 s2 previous_row)
    (combine (seq (List.length ra) (List.length todo)) todo)
    (table_row ra s2)
  = table_row (rev todo ++ ra) s2.
Proof.
  induction todo as [|c1 todo IH]; intros ra.
  - reflexivity.
  - cbn [List.length seq combine fold_left].
    rewrite levenshtein_row_table by reflexivity.
    change (S (List.length ra)) with (List.length (c1 :: ra)).
    rewrite IH. simpl rev. rewrite <- app_assoc. reflexivity.
Qed.

Lemma table_row_start s2 :
  map Z.of_nat (seq 0 (List.length s2 + 1)) = table_row [] s2.
Proof.
  unfold table_row. rewrite Nat.add_1_r.
  apply map_ext_in. intros k Hk. apply in_seq in Hk.
  rewrite edit_distance_nil_l. unfold len.
  rewrite length_rev, length_firstn. f_equal. lia.
Qed.

Lemma levenshtein_rows_table s1 s2 :
  levenshtein_rows s1 s2 = table_row (rev s1) s2.
Proof.
  unfold levenshtein_rows, enumerate. rewrite table_row_start.
  pose proof (levenshtein_rows_fill s2 s1 []) as H.
  cbn [List.length] in H. rewrite H, app_nil_r. reflexivity.
Qed.

Lemma table_row_last ra s2 :
  last (table_row ra s2) 0 = edit_distance ra (rev s2).
Proof.
  unfold table_row. rewrite seq_S, map_app. cbn [map].
  rewrite last_last, ?Nat.add_0_l, firstn_all. reflexivity.
Qed.

(** What [levenshtein_distance] returns is the least number of
    insertions, deletions and substitutions that turn the one string
    into the other. *)
Theorem levenshtein_distance_is_edit_distance s1 s2 :
  levenshtein_distance s1 s2 = edit_distance s1 s2.
Proof.
  unfold levenshtein_distance.
  assert (G : forall a b,
             (if len b =? 0 then len a else last (levenshtein_rows a b) 0)
             = edit_distance a b).
  { intros a b. destruct (Z.eqb_spec (len b) 0) as [E|E].
    - destruct b; [|rewrite len_cons in E; pose proof (len_nonneg b); lia].
      symmetry. apply edit_distance_nil_r.
    - rewrite levenshtein_rows_table, table_row_last. apply edit_distance_rev. }
  destruct (len s1 <? len s2).
  - rewrite G. apply edit_distance_sym.
  - apply G.
Qed.

(** [levenshtein_distance s1 s2] single-character insertions, deletions
    and substitutions turn [s1] into [s2], and no smaller number of them
    does. *)
Corollary levenshtein_distance_least s1 s2 :
  edits s1 s2 (levenshtein_distance s1 s2)
  /\ forall n, edits s1 s2 n -> levenshtein_distance s1 s2 <= n.
Proof.
  rewrite levenshtein_distance_is_edit_distance.
  split; [apply edit_distance_edits | apply edit_distance_least].
Qed.

(** ** The score *)

Lemma dict_get_set_other (k k' : string) v d :
  k <> k' -> dict_get k (dict_set k' v d) = dict_get k d.
Proof.
  intros Hk. induction d as [|[k0 v0] d IH]; simpl.
  - destruct (String.eqb_spec k' k); congruence.
  - destruct (String.eqb_spec k0 k') as [->|Hn]; simpl.
    + destruct (String.eqb_spec k' k); congruence.
    + destruct (String.eqb_spec k0 k); [reflexivity | exact IH].
Qed.

Lemma dict_get_set_same (k : string) v d :
  dict_get k (dict_set k v d) = Some v.
Proof.
  induction d as [|[k0 v0] d IH]; simpl.
  - rewrite String.eqb_refl. reflexivity.
  - destruct (String.eqb_spec k0 k) as [->|Hn]; simpl.
    + rewrite String.eqb_refl. reflexivity.
    + destruct (String.eqb_spec k0 k); [contradiction | exact IH].
Qed.

Lemma dict_get_append_other (k k' : string) x d :
  k <> k' -> dict_get k (dict_append k' x d) = dict_get k d.
Proof.
  intros Hk. unfold dict_append.
  destruct (dict_get k' d) as [[]|]; try reflexivity.
  apply dict_get_set_other; assumption.
Qed.

Lemma get_flag_ext k d d' :
  dict_get k d' = dict_get k d -> get_flag k d' = get_flag k d.
Proof. unfold get_flag. intros ->. reflexivity. Qed.

Lemma existsb_find {A} (f : A -> bool) (l : list A) :
  existsb f l = match find f l with Some _ => true | None => false end.
Proof.
  induction l as [|a l IH]; simpl; [reflexivity|].
  destruct (f a); simpl; auto.
Qed.

Ltac dict_keys :=
  repeat first
    [ rewrite dict_get_set_other by (intro; discriminate)
    | rewrite dict_get_append_other by (intro; discriminate) ].

Ltac block_effect :=
  unfold block_effect, weight; simpl;
  repeat split;
  solve [ lia
        | rewrite ?orb_false_r, ?orb_true_r; reflexivity
        | unfold get_flag; dict_keys;
          rewrite ?orb_false_r, ?orb_true_r; reflexivity
        | dict_keys; reflexivity ].

Section ScoreFacts.
Context {U : Unicode}.

Lemma brand_block_effect b l st :
  block_effect b 40 false false st (brand_block b l st).
Proof. unfold brand_block. destruct b; block_effect. Qed.

Lemma homoglyph_block_effect b l st :
  block_effect b 30 false false st (homoglyph_block b l st).
Proof. unfold homoglyph_block. destruct b; block_effect. Qed.

Lemma typosquatting_block_effect b l st :
  block_effect b 25 false false st (typosquatting_block b l st).
Proof. unfold typosquatting_block. destruct b; block_effect. Qed.

Lemma free_hosting_block_effect d st :
  block_effect (free_hosting_fired d) 25 false false st
    (free_hosting_block (lower_without_www d) st).
Proof.
  unfold free_hosting_block, free_hosting_fired. rewrite existsb_find.
  destruct (find _ _); block_effect.
Qed.

Lemma suspicious_tld_block_effect d st :
  block_effect (suspicious_tld_fired d) 20 false false st
    (suspicious_tld_block (lower_without_www d) st).
Proof.
  unfold suspicious_tld_block, suspicious_tld_fired. rewrite existsb_find.
  destruct (find _ _); block_effect.
Qed.

Lemma geo_block_effect d st :
  block_effect (geo_fired d) 15 true false st
    (geo_block (lower_without_www d) st).
Proof.
  unfold geo_block, geo_fired. rewrite existsb_find.
  destruct (find _ _); block_effect.
Qed.

Lemma transaction_block_effect d st :
  block_effect (transaction_fired d) 10 false false st
    (transaction_block (lower_without_www d) st).
Proof.
  unfold transaction_block, transaction_fired. rewrite existsb_find.
  destruct (find _ _); block_effect.
Qed.

Lemma hyphen_block_effect d st :
  block_effect (hyphens_fired d) 10 false false st
    (hyphen_block (lower_without_www d) st).
Proof.
  unfold hyphen_block, hyphens_fired.
  destruct (2 <=? _); block_effect.
Qed.

Lemma numeric_suffix_block_effect d st :
  block_effect (numeric_suffix_fired d) 10 false false st
    (numeric_suffix_block (lower_without_www d) st).
Proof.
  unfold numeric_suffix_block, numeric_suffix_fired.
  destruct (_ || _); block_effect.
Qed.

Lemma stacking_block_effect d st :
  block_effect (stacking_fired d) 10 false false st
    (stacking_block (lower_without_www d) st).
Proof.
  unfold stacking_block, stacking_fired.
  destruct (4 <=? _); block_effect.
Qed.

Lemma entropy_block_effect d st :
  block_effect (entropy_fired d) 10 false false st
    (entropy_block (lower_without_www d) st).
Proof.
  unfold entropy_block, entropy_fired.
  destruct (high_entropy _); block_effect.
Qed.

Lemma bg_tld_abuse_block_effect d st :
  block_effect (abuse_infix_fired d) 10 true false st
    (bg_tld_abuse_block (lower_without_www d) st).
Proof.
  unfold bg_tld_abuse_block, abuse_infix_fired.
  destruct (search _ _); block_effect.
Qed.

Lemma weak_context_block_effect d st :
  block_effect (weak_fallback_fired d) 0 true false st
    (weak_context_block (lower_without_www d) st).
Proof.
  unfold weak_context_block, weak_fallback_fired.
  destruct (has_bg_context st) eqn:E; simpl;
    destruct (_ || _); unfold block_effect, weight; simpl;
    rewrite ?E; repeat split; try lia;
    rewrite ?orb_false_r, ?orb_true_r; reflexivity.
Qed.

Lemma direct_impersonation_block_effect d st :
  block_effect (direct_impersonation_fired d) 15 true true st
    (direct_impersonation_block (lower_without_www d) st).
Proof.
  unfold direct_impersonation_block, direct_impersonation_fired.
  destruct (existsb _ _).
  - unfold block_effect, weight; simpl. repeat split.
    + rewrite orb_true_r; reflexivity.
    + unfold get_flag. rewrite dict_get_set_same, orb_true_r. reflexivity.
    + dict_keys; reflexivity.
  - block_effect.
Qed.

(** The locals when the penalty rule is reached. *)
Lemma signals_spec (d : str) :
  exists st,
    signals d = (brand_fired d, homoglyph_fired d, typosquat_fired d, st)
    /\ score st = weighted_sum d
    /\ has_bg_context st
       = geo_fired d || abuse_infix_fired d || weak_fallback_fired d
         || direct_impersonation_fired d
    /\ get_flag "direct_impersonation" (details st)
       = direct_impersonation_fired d
    /\ dict_get "non_bg_context_penalty" (details st) = None.
Proof.
  unfold signals, weighted_sum, brand_fired, homoglyph_fired, typosquat_fired.
  destruct (contains_brand_impersonation d) as [has_brand matched_brands].
  destruct (detect_homoglyphs d BRAND_KEYWORDS)
    as [has_homoglyphs homoglyphs_list].
  destruct (detect_typosquatting d BRAND_KEYWORDS) as [has_typos typos_list].
  cbv zeta. simpl fst.
  set (st0 := {| score := 0; details := initial_details;
                 has_bg_context := false |}).
  set (st1 := brand_block has_brand matched_brands st0).
  set (st2 := homoglyph_block has_homoglyphs homoglyphs_list st1).
  set (st3 := typosquatting_block has_typos typos_list st2).
  set (st4 := free_hosting_block _ st3).
  set (st5 := suspicious_tld_block _ st4).
  set (st6 := geo_block _ st5).
  set (st7 := transaction_block _ st6).
  set (st8 := hyphen_block _ st7).
  set (st9 := numeric_suffix_block _ st8).
  set (st10 := stacking_block _ st9).
  set (st11 := entropy_block _ st10).
  set (st12 := bg_tld_abuse_block _ st11).
  set (st13 := weak_context_block _ st12).
  set (st14 := direct_impersonation_block _ st13).
  exists st14. split; [reflexivity|].
  destruct (brand_block_effect has_brand matched_brands st0)
    as (S1 & B1 & D1 & P1).
  destruct (homoglyph_block_effect has_homoglyphs homoglyphs_list st1)
    as (S2 & B2 & D2 & P2).
  destruct (typosquatting_block_effect has_typos typos_list st2)
    as (S3 & B3 & D3 & P3).
  destruct (free_hosting_block_effect d st3) as (S4 & B4 & D4 & P4).
  destruct (suspicious_tld_block_effect d st4) as (S5 & B5 & D5 & P5).
  destruct (geo_block_effect d st5) as (S6 & B6 & D6 & P6).
  destruct (transaction_block_effect d st6) as (S7 & B7 & D7 & P7).
  destruct (hyphen_block_effect d st7) as (S8 & B8 & D8 & P8).
  destruct (numeric_suffix_block_effect d st8) as (S9 & B9 & D9 & P9).
  destruct (stacking_block_effect d st9) as (S10 & B10 & D10 & P10).
  destruct (entropy_block_effect d st10) as (S11 & B11 & D11 & P11).
  destruct (bg_tld_abuse_block_effect d st11) as (S12 & B12 & D12 & P12).
  destruct (weak_context_block_effect d st12) as (S13 & B13 & D13 & P13).
  destruct (direct_impersonation_block_effect d st13)
    as (S14 & B14 & D14 & P14).
  fold st1 in S1, B1, D1, P1. fold st2 in S2, B2, D2, P2.
  fold st3 in S3, B3, D3, P3. fold st4 in S4, B4, D4, P4.
  fold st5 in S5, B5, D5, P5. fold st6 in S6, B6, D6, P6.
  fold st7 in S7, B7, D7, P7. fold st8 in S8, B8, D8, P8.
  fold st9 in S9, B9, D9, P9. fold st10 in S10, B10, D10, P10.
  fold st11 in S11, B11, D11, P11. fold st12 in S12, B12, D12, P12.
  fold st13 in S13, B13, D13, P13. fold st14 in S14, B14, D14, P14.
  repeat split.
  - rewrite S14, S13, S12, S11, S10, S9, S8, S7, S6, S5, S4, S3, S2, S1.
    assert (W : forall b, weight b 0 = 0) by (intros []; reflexivity).
    rewrite W. change (score st0) with 0. lia.
  - rewrite B14, B13, B12, B11, B10, B9, B8, B7, B6, B5, B4, B3, B2, B1.
    simpl has_bg_context.
    rewrite !andb_false_r, !andb_true_r, !orb_false_r. reflexivity.
  - rewrite D14, D13, D12, D11, D10, D9, D8, D7, D6, D5, D4, D3, D2, D1.
    rewrite !andb_false_r, !andb_true_r, !orb_false_r. reflexivity.
  - rewrite P14, P13, P12, P11, P10, P9, P8, P7, P6, P5, P4, P3, P2, P1.
    reflexivity.
Qed.

(** C1. For every domain string, [calculate_score] returns a score between
    0 and 100, whatever the weights and the penalty add up to. *)
Theorem calculate_score_in_range :
  forall d : str, 0 <= fst (calculate_score d) <= 100.
Proof.
  intros d. unfold calculate_score.
  destruct (signals d) as [[[has_brand has_homoglyphs] has_typos] st].
  simpl. lia.
Qed.

(** C2. [calculate_score] subtracts the 20 points of the penalty exactly
    once, from the sum of the weights of the signals that fired, and does
    so if and only if a brand, homoglyph or typosquat match fired, no
    Bulgarian-context signal fired (geo indicator, 'bg'/'bulgaria'
    fallback, .bg-XX infix, direct impersonation), and the
    direct-impersonation pattern did not fire; the details then carry the
    penalty flag, and otherwise do not have the key. *)
Theorem penalty_once_iff_no_context :
  forall d : str,
    fst (calculate_score d)
    = clamp (weighted_sum d - (if penalty_due d then 20 else 0))
    /\ (dict_get "non_bg_context_penalty" (snd (calculate_score d))
        = Some (VBool true) <-> penalty_due d = true)
    /\ (dict_get "non_bg_context_penalty" (snd (calculate_score d))
        = None <-> penalty_due d = false).
Proof.
  intros d. unfold calculate_score, penalty_due.
  destruct (signals_spec d) as (st & -> & Hs & Hb & Hd & Hp).
  rewrite Hb, Hd.
  destruct (brand_fired d), (homoglyph_fired d), (typosquat_fired d),
    (geo_fired d), (abuse_infix_fired d), (weak_fallback_fired d),
    (direct_impersonation_fired d);
    cbn [orb andb negb fst snd]; unfold clamp;
    cbn [award score details];
    rewrite <- ?Hs, ?Hp, ?dict_get_set_same, ?Z.sub_0_r;
    (split; [f_equal; f_equal; lia | split; split; congruence]).
Qed.

End ScoreFacts.

(** ** Regular expressions *)

Lemma rep_ends_suffix p lo hi s s' :
  In s' (rep_ends p lo hi s) -> exists pre, s = pre ++ s'.
Proof.
  revert lo hi. induction s as [|c t IH]; intros lo hi; simpl.
  - destruct lo; simpl; [intros [<-|[]]; exists []; reflexivity | intros []].
  - assert (Hstop : In s' (match lo with O => [c :: t] | S _ => [] end) ->
                    exists pre, c :: t = pre ++ s').
    { destruct lo; simpl; [intros [<-|[]]; exists []; reflexivity|intros []]. }
    destruct (p c && _); [|exact Hstop].
    rewrite in_app_iff. intros [H|H]; [|exact (Hstop H)].
    destruct (IH _ _ H) as [pre ->]. exists (c :: pre). reflexivity.
Qed.

(** A match consumes a prefix of the text. *)
Lemma ends_suffix r : forall at0 s s',
  In s' (ends r at0 s) -> exists pre, s = pre ++ s'.
Proof.
  induction r as [| |l|p|p lo hi|r1 IH1 r2 IH2|r1 IH1 r2 IH2];
    intros at0 s s'; simpl.
  - destruct at0; simpl; [intros [<-|[]]; exists []; reflexivity|intros []].
  - destruct s as [|c [|d t]]; simpl.
    + intros [<-|[]]. exists []; reflexivity.
    + destruct (c =? 10); simpl; [intros [<-|[]]; exists []; reflexivity|intros []].
    + intros [].
  - destruct (startswith l s) eqn:E; simpl; [|intros []].
    apply startswith_iff in E. destruct E as [t ->].
    rewrite skipn_app_exact. intros [<-|[]]. eauto.
  - destruct s as [|c t]; simpl; [intros []|].
    destruct (p c); simpl; [intros [<-|[]]; exists [c]; reflexivity|intros []].
  - apply rep_ends_suffix.
  - rewrite in_flat_map. intros (s1 & H1 & H2).
    destruct (IH1 _ _ _ H1) as [pre1 ->].
    destruct (IH2 _ _ _ H2) as [pre2 ->].
    exists (pre1 ++ pre2). rewrite app_assoc. reflexivity.
  - rewrite in_app_iff. intros [H|H]; eauto.
Qed.

Lemma nonempty_iff {A} (l : list A) : nonempty l = true <-> exists x, In x l.
Proof.
  destruct l as [|a l]; simpl.
  - split; [discriminate | intros [x []]].
  - split; [intros _; exists a; auto | reflexivity].
Qed.

Lemma search_from_iff r at0 s :
  search_from r at0 s = true <->
  exists pre post,
    s = pre ++ post
    /\ nonempty (ends r (at0 && negb (nonempty pre)) post) = true.
Proof.
  revert at0. induction s as [|c t IH]; intros at0; simpl.
  - destruct (ends r at0 []) eqn:E.
    + split; [discriminate|]. intros (pre & post & H & Hn).
      symmetry in H. apply app_eq_nil in H. destruct H as [-> ->].
      simpl in Hn. rewrite andb_true_r, E in Hn. discriminate.
    + split; [|reflexivity]. intros _. exists [], []. split; [reflexivity|].
      simpl. rewrite andb_true_r, E. reflexivity.
  - destruct (ends r at0 (c :: t)) eqn:E.
    + rewrite IH. split.
      * intros (pre & post & -> & Hn). exists (c :: pre), post.
        split; [reflexivity|]. simpl. rewrite andb_false_r.
        simpl in Hn. exact Hn.
      * intros (pre & post & H & Hn). destruct pre as [|c' pre].
        -- simpl in H. subst post. simpl in Hn.
           rewrite andb_true_r, E in Hn. discriminate.
        -- injection H as <- ->. exists pre, post. split; [reflexivity|].
           simpl in Hn. rewrite andb_false_r in Hn. simpl. exact Hn.
    + split; [|reflexivity]. intros _. exists [], (c :: t).
      split; [reflexivity|]. simpl. rewrite andb_true_r, E. reflexivity.
Qed.

Lemma search_iff r s :
  search r s = true <->
  exists pre post,
    s = pre ++ post /\ nonempty (ends r (negb (nonempty pre)) post) = true.
Proof. unfold search. rewrite search_from_iff. reflexivity. Qed.

(** ** The brand matcher *)

Lemma ends_seq_nonempty r1 r2 at0 s :
  nonempty (ends (Seq r1 r2) at0 s) = true <->
  exists s1,
    In s1 (ends r1 at0 s)
    /\ nonempty
         (ends r2 (at0 && (List.length s1 =? List.length s)%nat) s1) = true.
Proof.
  rewrite nonempty_iff. simpl. split.
  - intros (x & Hx). apply in_flat_map in Hx. destruct Hx as (s1 & H1 & H2).
    exists s1. split; [assumption|]. apply nonempty_iff; eauto.
  - intros (s1 & H1 & H2). apply nonempty_iff in H2. destruct H2 as [x Hx].
    exists x. apply in_flat_map. eauto.
Qed.

Lemma ends_lit_in l at0 s s1 : In s1 (ends (Lit l) at0 s) <-> s = l ++ s1.
Proof.
  simpl. destruct (startswith l s) eqn:E.
  - apply startswith_iff in E. destruct E as [t ->].
    rewrite skipn_app_exact. simpl. split.
    + intros [<-|[]]. reflexivity.
    + intros H. apply app_inv_head in H. auto.
  - simpl. split; [intros []|]. intros ->.
    rewrite startswith_app in E. discriminate.
Qed.

Lemma right_re_nonempty k at0 s :
  nonempty (ends (Seq (right_re k) (Lit [])) at0 s) = true <-> right_ok k s.
Proof.
  rewrite ends_seq_nonempty. destruct k; [simpl| |].
  - destruct s as [|c [|d t]]; simpl.
    + split; [auto|]. intros _. exists []. auto.
    + destruct (Z.eqb_spec c 10) as [->|Hc]; simpl.
      * split; [auto|]. intros _. exists [10]. auto.
      * split; [intros (s1 & [] & _)|]. intros [H|H]; congruence.
    + split; [intros (s1 & [] & _)|]. intros [H|H]; discriminate.
  - split.
    + intros (s1 & H1 & _). apply (ends_lit_in [46]) in H1.
      exists s1. exact H1.
    + intros [q ->]. exists q. split; [|reflexivity].
      apply (ends_lit_in [46]). reflexivity.
  - split.
    + intros (s1 & H1 & _). apply (ends_lit_in [45]) in H1.
      exists s1. exact H1.
    + intros [q ->]. exists q. split; [|reflexivity].
      apply (ends_lit_in [45]). reflexivity.
Qed.

Lemma left_re_in k (pre post s1 : str) :
  In s1 (ends (left_re k) (negb (nonempty pre)) post) <->
  match k with
  | edge => pre = [] /\ s1 = post
  | dot => post = 46 :: s1
  | hyphen => post = 45 :: s1
  end.
Proof.
  destruct k.
  - simpl. destruct pre; simpl.
    + split; [intros [<-|[]]; auto | intros [_ ->]; auto].
    + split; [intros [] | intros [H _]; discriminate].
  - apply (ends_lit_in [46]).
  - apply (ends_lit_in [45]).
Qed.

Lemma search_bounded kl kr brand s :
  search (cat [left_re kl; Lit brand; right_re kr]) s = true <->
  exists pre post,
    s = pre ++ brand ++ post /\ left_ok kl pre /\ right_ok kr post.
Proof.
  rewrite search_iff. unfold cat; simpl fold_right. split.
  - intros (pre & post & -> & H).
    apply ends_seq_nonempty in H. destruct H as (s1 & H1 & H).
    apply ends_seq_nonempty in H. destruct H as (s2 & H2 & H).
    apply ends_lit_in in H2. apply right_re_nonempty in H.
    apply left_re_in in H1.
    destruct kl; simpl.
    + destruct H1 as [-> ->]. subst post. exists [], s2. auto.
    + subst post s1. exists (pre ++ [46]), s2.
      rewrite <- app_assoc. simpl. eauto.
    + subst post s1. exists (pre ++ [45]), s2.
      rewrite <- app_assoc. simpl. eauto.
  - intros (pre & post & -> & Hl & Hr).
    assert (G : forall (pre0 post0 : str) (at1 : bool),
               In (brand ++ post) (ends (left_re kl) (negb (nonempty pre0)) post0) ->
               nonempty
                 (ends (Seq (left_re kl) (Seq (Lit brand) (Seq (right_re kr) (Lit []))))
                    (negb (nonempty pre0)) post0) = true).
    { intros pre0 post0 _ H1. apply ends_seq_nonempty.
      exists (brand ++ post). split; [assumption|].
      apply ends_seq_nonempty. exists post.
      split; [apply ends_lit_in; reflexivity|].
      apply right_re_nonempty. assumption. }
    destruct kl; simpl in Hl.
    + subst pre. exists [], (brand ++ post). split; [reflexivity|].
      apply (G [] _ true). apply (left_re_in edge). auto.
    + destruct Hl as [p ->]. exists p, (46 :: brand ++ post).
      split; [rewrite <- app_assoc; reflexivity|].
      apply (G p _ true). apply (left_re_in dot). reflexivity.
    + destruct Hl as [p ->]. exists p, (45 :: brand ++ post).
      split; [rewrite <- app_assoc; reflexivity|].
      apply (G p _ true). apply (left_re_in hyphen). reflexivity.
Qed.

Lemma brand_patterns_sides brand :
  brand_patterns brand
  = flat_map
      (fun kl => map (fun kr => cat [left_re kl; Lit brand; right_re kr])
                   [dot; hyphen; edge])
      [edge; dot; hyphen].
Proof. reflexivity. Qed.

Lemma is_separator_iff c : is_separator c = true <-> c = 46 \/ c = 45.
Proof. unfold is_separator. rewrite orb_true_iff, !Z.eqb_eq. reflexivity. Qed.

Lemma boundary_before_sides pre :
  boundary_before pre <-> exists k, left_ok k pre.
Proof.
  unfold boundary_before. split.
  - intros [->|(p & c & -> & Hc)].
    + exists edge. reflexivity.
    + apply is_separator_iff in Hc. destruct Hc as [->| ->].
      * exists dot. simpl. eauto.
      * exists hyphen. simpl. eauto.
  - intros [[| |] H]; simpl in H.
    + left; assumption.
    + destruct H as [p ->]. right. exists p, 46. auto.
    + destruct H as [p ->]. right. exists p, 45. auto.
Qed.

Lemma boundary_after_sides post :
  boundary_after_re post <-> exists k, right_ok k post.
Proof.
  unfold boundary_after_re, boundary_after. split.
  - intros [[->|(c & q & -> & Hc)]| ->].
    + exists edge. simpl. auto.
    + apply is_separator_iff in Hc. destruct Hc as [->| ->].
      * exists dot. simpl. eauto.
      * exists hyphen. simpl. eauto.
    + exists edge. simpl. auto.
  - intros [[| |] H]; simpl in H.
    + destruct H as [->| ->]; auto.
    + destruct H as [q ->]. left. right. exists 46, q. auto.
    + destruct H as [q ->]. left. right. exists 45, q. auto.
Qed.

(** What the nine patterns test. *)
Lemma brand_matches_iff s brand :
  brand_matches s brand = true <-> bounded_in boundary_after_re brand s.
Proof.
  unfold brand_matches, bounded_in.
  rewrite brand_patterns_sides, existsb_exists. split.
  - intros (r & Hr & Hs). apply in_flat_map in Hr.
    destruct Hr as (kl & _ & Hr). apply in_map_iff in Hr.
    destruct Hr as (kr & <- & _). apply search_bounded in Hs.
    destruct Hs as (pre & post & -> & Hl & Hr). exists pre, post.
    split; [reflexivity|]. split.
    + apply boundary_before_sides; eauto.
    + apply boundary_after_sides; eauto.
  - intros (pre & post & -> & Hl & Hr).
    apply boundary_before_sides in Hl. destruct Hl as [kl Hl].
    apply boundary_after_sides in Hr. destruct Hr as [kr Hr].
    exists (cat [left_re kl; Lit brand; right_re kr]). split.
    + apply in_flat_map. exists kl. split; [destruct kl; simpl; auto|].
      apply in_map_iff. exists kr. split; [reflexivity|].
      destruct kr; simpl; auto.
    + apply search_bounded. eauto.
Qed.

(** ** Labels *)

Lemma split_on_sep_free sep l : sep_free sep l -> split_on sep l = [l].
Proof.
  induction l as [|c l IH]; intros H; simpl; [reflexivity|].
  rewrite (H c) by (left; reflexivity).
  rewrite IH by (intros x Hx; apply H; right; assumption). reflexivity.
Qed.

Lemma split_on_not_nil sep s : split_on sep s <> [].
Proof.
  destruct s as [|c s]; simpl; [discriminate|].
  destruct (sep c); [discriminate|].
  destruct (split_on sep s); discriminate.
Qed.

(** Splitting at a separator: the pieces before it, then those after. *)
Lemma split_on_app_sep sep a c t :
  sep c = true ->
  split_on sep (a ++ c :: t) = split_on sep a ++ split_on sep t.
Proof.
  intros Hc. induction a as [|x a IH]; simpl.
  - rewrite Hc. reflexivity.
  - rewrite IH. destruct (sep x); [reflexivity|].
    pose proof (split_on_not_nil sep a).
    destruct (split_on sep a); [contradiction | reflexivity].
Qed.

(** The first piece, and what is left behind its separator. *)
Lemma split_on_first sep s :
  exists l0,
    sep_free sep l0
    /\ ((s = l0 /\ split_on sep s = [l0])
        \/ exists c t, sep c = true /\ s = l0 ++ c :: t
                       /\ split_on sep s = l0 :: split_on sep t).
Proof.
  induction s as [|x s (l0 & Hf & IH)]; simpl.
  - exists []. split; [intros c []|]. left. auto.
  - destruct (sep x) eqn:Hx.
    + exists []. split; [intros c []|]. right. exists x, s. auto.
    + exists (x :: l0). split.
      { intros c [<-|Hc]; [assumption | apply Hf; assumption]. }
      destruct IH as [[-> ->]|(c & t & Hc & -> & ->)].
      * left. auto.
      * right. exists c, t. auto.
Qed.

Lemma split_on_In_bounded sep : forall n s l,
  (List.length s <= n)%nat ->
  In l (split_on sep s) ->
  sep_free sep l
  /\ exists pre post,
       s = pre ++ l ++ post
       /\ (pre = [] \/ exists p c, pre = p ++ [c] /\ sep c = true)
       /\ (post = [] \/ exists c q, post = c :: q /\ sep c = true).
Proof.
  induction n as [|n IH]; intros s l Hn Hl.
  - destruct s; [|simpl in Hn; lia]. simpl in Hl. destruct Hl as [<-|[]].
    split; [intros c []|]. exists [], []. auto.
  - destruct (split_on_first sep s) as (l0 & Hf & [[-> E]|(c & t & Hc & -> & E)]);
      rewrite E in Hl.
    + destruct Hl as [<-|[]]. split; [assumption|].
      exists [], []. rewrite app_nil_r. auto.
    + destruct Hl as [<-|Hl].
      * split; [assumption|]. exists [], (c :: t). split; [reflexivity|].
        split; [auto|]. right. exists c, t. auto.
      * rewrite length_app in Hn. simpl in Hn.
        destruct (IH t l ltac:(lia) Hl) as (Hfl & pre & post & -> & Hpre & Hpost).
        split; [assumption|].
        exists (l0 ++ c :: pre), post. split.
        { rewrite <- app_assoc. reflexivity. }
        split; [|assumption]. right.
        destruct Hpre as [->|(p & c' & -> & Hc')].
        -- exists l0, c. auto.
        -- exists (l0 ++ c :: p), c'. rewrite <- app_assoc. auto.
Qed.

Lemma split_on_bounded_In sep s l pre post :
  sep_free sep l ->
  s = pre ++ l ++ post ->
  (pre = [] \/ exists p c, pre = p ++ [c] /\ sep c = true) ->
  (post = [] \/ exists c q, post = c :: q /\ sep c = true) ->
  In l (split_on sep s).
Proof.
  intros Hf -> Hpre Hpost.
  assert (Hr : In l (split_on sep (l ++ post))).
  { destruct Hpost as [->|(c & q & -> & Hc)].
    - rewrite app_nil_r, split_on_sep_free by assumption. left; reflexivity.
    - rewrite split_on_app_sep, split_on_sep_free by assumption.
      left; reflexivity. }
  destruct Hpre as [->|(p & c & -> & Hc)]; [exact Hr|].
  rewrite <- app_assoc. simpl. rewrite split_on_app_sep by assumption.
  apply in_or_app. right. exact Hr.
Qed.

(** A separator-free string is a label exactly when it occurs between
    two boundaries. *)
Lemma whole_label_iff brand s :
  sep_free is_separator brand ->
  whole_label brand s <-> bounded_in boundary_after brand s.
Proof.
  intros Hf. unfold whole_label, labels, bounded_in, boundary_before,
    boundary_after. split.
  - intros H.
    destruct (split_on_In_bounded is_separator _ s brand (le_n _) H)
      as (_ & pre & post & E & Hpre & Hpost).
    exists pre, post. auto.
  - intros (pre & post & E & Hpre & Hpost).
    eapply split_on_bounded_In; eauto.
Qed.

Lemma bounded_in_no_newline brand s :
  endswith [10] s = false ->
  bounded_in boundary_after_re brand s <-> bounded_in boundary_after brand s.
Proof.
  intros Hn. unfold bounded_in, boundary_after_re. split.
  - intros (pre & post & E & Hpre & [Hpost| ->]); [eauto|].
    exfalso. assert (Hs : endswith [10] s = true).
    { apply endswith_iff. exists (pre ++ brand). rewrite E, app_assoc.
      reflexivity. }
    congruence.
  - intros (pre & post & E & Hpre & Hpost). eauto 6.
Qed.

Section BrandFacts.
Context {U : Unicode}.

Lemma brand_reported_iff d brand :
  In brand (snd (contains_brand_impersonation d)) <->
  In brand BRAND_KEYWORDS
  /\ bounded_in boundary_after_re brand (lower_without_www d).
Proof.
  unfold contains_brand_impersonation. cbv zeta. cbn [snd].
  rewrite filter_In, brand_matches_iff. reflexivity.
Qed.

Lemma brand_flag d :
  fst (contains_brand_impersonation d) = true <->
  exists brand, In brand (snd (contains_brand_impersonation d)).
Proof.
  unfold contains_brand_impersonation. cbv zeta. cbn [fst snd].
  destruct (filter _ _) as [|b l].
  - split; [discriminate | intros [b []]].
  - split; [intros _; exists b; left; reflexivity|]. intros _.
    apply Z.ltb_lt. unfold len. cbn [List.length]. lia.
Qed.

(** Every registered brand but ["bg-post"] is free of dots and hyphens. *)
Lemma brand_sep_free brand :
  In brand BRAND_KEYWORDS -> brand <> py "bg-post" ->
  sep_free is_separator brand.
Proof.
  intros Hin Hne.
  assert (G : forallb (fun b => eqb b (py "bg-post")
                                || forallb (fun c => negb (is_separator c)) b)
                BRAND_KEYWORDS = true) by (vm_compute; reflexivity).
  rewrite forallb_forall in G. specialize (G _ Hin).
  apply orb_true_iff in G. destruct G as [G|G].
  - apply eqb_eq in G. contradiction.
  - rewrite forallb_forall in G. intros c Hc.
    specialize (G c Hc). destruct (is_separator c); [discriminate|reflexivity].
Qed.

Lemma brand_reported_iff_label d brand :
  In brand BRAND_KEYWORDS ->
  brand <> py "bg-post" ->
  endswith [10] (lower_without_www d) = false ->
  In brand (snd (contains_brand_impersonation d)) <->
  whole_label brand (lower_without_www d).
Proof.
  intros Hin Hne Hnl.
  rewrite brand_reported_iff, bounded_in_no_newline by assumption.
  rewrite whole_label_iff by (apply brand_sep_free; assumption).
  tauto.
Qed.

End BrandFacts.

(** ** Evaluation on plain text

    On a string of ASCII characters and look-alike letters every Unicode
    table lower-cases like [ascii_tables]; on ASCII text the class [\d]
    is the same too.  So the detectors can be evaluated on such input
    whatever the tables are. *)

Lemma same_on_refl P r : same_on P r r.
Proof. induction r; simpl; auto. Qed.

Lemma forallb_suffix {A} (P : A -> bool) pre s :
  forallb P (pre ++ s) = true -> forallb P s = true.
Proof. rewrite forallb_app, andb_true_iff. tauto. Qed.

Lemma flat_map_ext_in {A B} (f g : A -> list B) l :
  (forall a, In a l -> f a = g a) -> flat_map f l = flat_map g l.
Proof.
  induction l as [|a l IH]; intros H; simpl; [reflexivity|].
  rewrite (H a) by (left; reflexivity).
  rewrite IH by (intros; apply H; right; assumption). reflexivity.
Qed.

Lemma rep_ends_same P p p' :
  (forall c, P c = true -> p c = p' c) ->
  forall s lo hi, forallb P s = true ->
    rep_ends p lo hi s = rep_ends p' lo hi s.
Proof.
  intros Hp. induction s as [|c t IH]; intros lo hi H; simpl; [reflexivity|].
  simpl in H. apply andb_true_iff in H. destruct H as [Hc Ht].
  rewrite (Hp c Hc), IH by assumption. reflexivity.
Qed.

Lemma ends_same P r : forall r' at0 s,
  same_on P r r' -> forallb P s = true -> ends r at0 s = ends r' at0 s.
Proof.
  induction r as [| |l|p|p lo hi|r1 IH1 r2 IH2|r1 IH1 r2 IH2];
    intros r' at0 s Hr Hs; destruct r'; simpl in Hr; try contradiction.
  - reflexivity.
  - reflexivity.
  - subst. reflexivity.
  - simpl. destruct s as [|c t]; [reflexivity|].
    simpl in Hs. apply andb_true_iff in Hs. destruct Hs as [Hc _].
    rewrite (Hr c Hc). reflexivity.
  - destruct Hr as (-> & -> & Hp). simpl.
    apply (rep_ends_same P); assumption.
  - destruct Hr as [Ha Hb]. simpl.
    rewrite <- (IH1 _ at0 s Ha Hs).
    apply flat_map_ext_in. intros s' Hs'.
    apply IH2; [assumption|].
    destruct (ends_suffix _ _ _ _ Hs') as [pre ->].
    eapply forallb_suffix; eassumption.
  - destruct Hr as [Ha Hb]. simpl.
    rewrite (IH1 _ at0 s Ha Hs), (IH2 _ at0 s Hb Hs). reflexivity.
Qed.

Lemma search_from_same P r r' :
  same_on P r r' ->
  forall s at0, forallb P s = true ->
    search_from r at0 s = search_from r' at0 s.
Proof.
  intros Hr. induction s as [|c t IH]; intros at0 Hs; simpl.
  - rewrite (ends_same P r r' at0 [] Hr Hs). reflexivity.
  - rewrite (ends_same P r r' at0 (c :: t) Hr Hs).
    simpl in Hs. apply andb_true_iff in Hs. destruct Hs as [_ Ht].
    rewrite (IH false Ht). reflexivity.
Qed.

Lemma search_same P r r' s :
  same_on P r r' -> forallb P s = true -> search r s = search r' s.
Proof. intros Hr Hs. apply (search_from_same P); assumption. Qed.

Lemma findall_from_same P r r' :
  same_on P r r' ->
  forall s at0 skip, forallb P s = true ->
    findall_from r at0 skip s = findall_from r' at0 skip s.
Proof.
  intros Hr. induction s as [|c t IH]; intros at0 skip Hs.
  - destruct skip; simpl; [|reflexivity].
    rewrite (ends_same P r r' at0 [] Hr Hs). reflexivity.
  - pose proof Hs as Hs'. simpl in Hs'. apply andb_true_iff in Hs'.
    destruct Hs' as [_ Ht].
    destruct skip; simpl.
    + rewrite (ends_same P r r' at0 (c :: t) Hr Hs).
      destruct (ends r' at0 (c :: t)); rewrite IH by assumption; reflexivity.
    + apply IH. assumption.
Qed.

Lemma findall_count_same P r r' s :
  same_on P r r' -> forallb P s = true ->
  findall_count r s = findall_count r' s.
Proof. intros Hr Hs. apply (findall_from_same P); assumption. Qed.

Lemma forallb_split_on (P : char -> bool) sep s :
  forallb P s = true ->
  forallb (forallb P) (split_on sep s) = true.
Proof.
  induction s as [|c t IH]; intros H; simpl; [reflexivity|].
  simpl in H. apply andb_true_iff in H. destruct H as [Hc Ht].
  specialize (IH Ht).
  destruct (sep c); simpl; [assumption|].
  destruct (split_on sep t) as [|l ls]; simpl in *.
  - rewrite Hc. reflexivity.
  - rewrite Hc. exact IH.
Qed.

Lemma forallb_skipn {A} (P : A -> bool) n s :
  forallb P s = true -> forallb P (skipn n s) = true.
Proof.
  intros H. rewrite <- (firstn_skipn n s) in H.
  eapply forallb_suffix; eassumption.
Qed.

Lemma is_ascii_plain d : forallb is_ascii d = true -> forallb plain d = true.
Proof.
  rewrite !forallb_forall. intros H c Hc. unfold plain.
  rewrite (H c Hc). reflexivity.
Qed.

Lemma ascii_lower_is_ascii d :
  forallb is_ascii d = true -> forallb is_ascii (map ascii_lower d) = true.
Proof.
  rewrite !forallb_forall. intros H c Hc. apply in_map_iff in Hc.
  destruct Hc as (x & <- & Hx). specialize (H x Hx).
  unfold is_ascii, ascii_lower in *.
  destruct ((65 <=? x) && (x <=? 90)) eqn:E; [|assumption].
  apply andb_true_iff in E. destruct E as [E1 E2].
  apply Z.leb_le in E1, E2.
  apply andb_true_iff. split; [apply Z.leb_le | apply Z.ltb_lt]; lia.
Qed.

Section Transfer.
Context {U : Unicode}.

Lemma lower_without_www_plain d :
  forallb plain d = true ->
  lower_without_www d = @lower_without_www ascii_tables d.
Proof.
  intros H. unfold lower_without_www. rewrite (lower_plain d H). reflexivity.
Qed.

Lemma is_whitelisted_plain d :
  forallb plain d = true -> is_whitelisted d = @is_whitelisted ascii_tables d.
Proof.
  intros H. unfold is_whitelisted.
  rewrite (lower_without_www_plain d H). reflexivity.
Qed.

Lemma contains_brand_impersonation_plain d :
  forallb plain d = true ->
  contains_brand_impersonation d = @contains_brand_impersonation ascii_tables d.
Proof.
  intros H. unfold contains_brand_impersonation.
  rewrite (lower_without_www_plain d H). reflexivity.
Qed.

Lemma detect_homoglyphs_plain d brands :
  forallb plain d = true ->
  detect_homoglyphs d brands = @detect_homoglyphs ascii_tables d brands.
Proof.
  intros H. unfold detect_homoglyphs.
  rewrite (lower_without_www_plain d H). reflexivity.
Qed.

Lemma detect_typosquatting_plain d brands :
  forallb plain d = true ->
  detect_typosquatting d brands = @detect_typosquatting ascii_tables d brands.
Proof.
  intros H. unfold detect_typosquatting.
  rewrite (lower_without_www_plain d H). reflexivity.
Qed.

Lemma lower_without_www_is_ascii d :
  forallb is_ascii d = true ->
  forallb is_ascii (@lower_without_www ascii_tables d) = true.
Proof.
  intros H. unfold lower_without_www.
  change (@lower ascii_tables d) with (map ascii_lower d).
  pose proof (ascii_lower_is_ascii d H) as Hl.
  destruct (startswith www (map ascii_lower d)); [|assumption].
  apply forallb_skipn. assumption.
Qed.

Lemma same_digit : forall c, is_ascii c = true -> isdigit c = ascii_digit c.
Proof. exact isdigit_ascii. Qed.

Lemma numeric_suffix_block_ascii dl st :
  forallb is_ascii dl = true ->
  numeric_suffix_block dl st = @numeric_suffix_block ascii_tables dl st.
Proof.
  intros H. unfold numeric_suffix_block.
  rewrite (search_same is_ascii numeric_suffix_1 (@numeric_suffix_1 ascii_tables) dl),
          (search_same is_ascii numeric_suffix_2 (@numeric_suffix_2 ascii_tables) dl);
    try assumption; try reflexivity.
  - simpl. repeat split; auto using same_digit.
  - simpl. repeat split; auto using same_digit.
Qed.

Lemma entropy_block_ascii dl st :
  forallb is_ascii dl = true ->
  entropy_block dl st = @entropy_block ascii_tables dl st.
Proof.
  intros H. unfold entropy_block, high_entropy.
  assert (Hn : forallb is_ascii (hd [] (split_on (fun c => c =? 46) dl)) = true).
  { pose proof (forallb_split_on is_ascii (fun c => c =? 46) dl H) as Hs.
    destruct (split_on _ dl); simpl in *; [reflexivity|].
    apply andb_true_iff in Hs. tauto. }
  rewrite (findall_count_same is_ascii mixed_alphanum_re
             (@mixed_alphanum_re ascii_tables) _); try assumption.
  - reflexivity.
  - simpl. repeat split; auto using same_digit.
Qed.

(** On an ASCII domain the score is the one the ASCII tables give. *)
Lemma calculate_score_ascii d :
  forallb is_ascii d = true ->
  calculate_score d = @calculate_score ascii_tables d.
Proof.
  intros H. pose proof (is_ascii_plain d H) as Hp.
  pose proof (lower_without_www_is_ascii d H) as Hl.
  unfold calculate_score, signals.
  rewrite (contains_brand_impersonation_plain d Hp),
          (detect_homoglyphs_plain d _ Hp),
          (detect_typosquatting_plain d _ Hp),
          (lower_without_www_plain d Hp).
  destruct (@contains_brand_impersonation ascii_tables d) as [has_brand mb].
  destruct (@detect_homoglyphs ascii_tables d BRAND_KEYWORDS) as [has_h hl].
  destruct (@detect_typosquatting ascii_tables d BRAND_KEYWORDS) as [has_t tl].
  cbv zeta.
  rewrite (numeric_suffix_block_ascii _ _ Hl), (entropy_block_ascii _ _ Hl).
  reflexivity.
Qed.

End Transfer.

(** ** The brand matcher: the claims *)

Section BrandClaims.
Context {U : Unicode}.

Lemma brand_examples :
  snd (contains_brand_impersonation (py "content.example.cfd")) = []
  /\ snd (contains_brand_impersonation (py "speedy-bg.cfd")) = [py "speedy"].
Proof.
  rewrite (contains_brand_impersonation_plain (py "content.example.cfd")),
          (contains_brand_impersonation_plain (py "speedy-bg.cfd"))
    by (vm_compute; reflexivity).
  split; vm_compute; reflexivity.
Qed.

(** ["bg-post"] is reported for ["bg-post.cfd"], whose labels are
    ["bg"], ["post"] and ["cfd"]. *)
Lemma bg_post_reported_not_label :
  In (py "bg-post") (snd (contains_brand_impersonation (py "bg-post.cfd")))
  /\ ~ whole_label (py "bg-post") (lower_without_www (py "bg-post.cfd")).
Proof.
  rewrite contains_brand_impersonation_plain, lower_without_www_plain
    by (vm_compute; reflexivity).
  unfold whole_label. rewrite <- !mem_iff.
  split; [vm_compute; reflexivity | vm_compute; discriminate].
Qed.

(** [$] also matches before a newline that ends the string: ["econt"] is
    reported for ["econt" + newline], whose only label keeps the newline. *)
Lemma econt_newline_reported_not_label :
  In (py "econt") (snd (contains_brand_impersonation (py "econt" ++ [10])))
  /\ ~ whole_label (py "econt") (lower_without_www (py "econt" ++ [10])).
Proof.
  rewrite contains_brand_impersonation_plain, lower_without_www_plain
    by (vm_compute; reflexivity).
  unfold whole_label. rewrite <- !mem_iff.
  split; [vm_compute; reflexivity | vm_compute; discriminate].
Qed.

(** C3 (amended). For a domain whose lower-cased, www-stripped form does
    not end in a newline, a brand is reported exactly when it is
    registered and occurs in that form with the start of the string, a
    dot or a hyphen before it and a dot, a hyphen or the end of the
    string after it; for a registered brand other than ["bg-post"] this
    is to say that the brand is a whole label of the form split at dots
    and hyphens.  No brand is reported for ["content.example.cfd"], and
    ["speedy"] alone for ["speedy-bg.cfd"]. *)
Theorem brand_reported_iff_bounded :
  (forall d brand : str,
     endswith [10] (lower_without_www d) = false ->
     (In brand (snd (contains_brand_impersonation d)) <->
      In brand BRAND_KEYWORDS
      /\ bounded_in boundary_after brand (lower_without_www d))
     /\ (In brand BRAND_KEYWORDS ->
         brand <> py "bg-post" ->
         (In brand (snd (contains_brand_impersonation d)) <->
          whole_label brand (lower_without_www d))))
  /\ snd (contains_brand_impersonation (py "content.example.cfd")) = []
  /\ snd (contains_brand_impersonation (py "speedy-bg.cfd")) = [py "speedy"].
Proof.
  split; [|apply brand_examples].
  intros d brand Hn. split.
  - rewrite brand_reported_iff, bounded_in_no_newline by assumption.
    reflexivity.
  - intros Hin Hne. apply brand_reported_iff_label; assumption.
Qed.

End BrandClaims.

(** C3 as stated does not hold: a registered brand can be reported
    without being a whole label. *)
Lemma brand_reported_not_whole_label :
  ~ (forall (U : Unicode) (d brand : str),
       In brand BRAND_KEYWORDS ->
       (In brand (snd (contains_brand_impersonation d)) <->
        whole_label brand (lower_without_www d))).
Proof.
  intros H.
  destruct (@bg_post_reported_not_label ascii_tables) as [Hr Hl].
  assert (Hin : In (py "bg-post") BRAND_KEYWORDS)
    by (apply mem_iff; vm_compute; reflexivity).
  destruct (H ascii_tables (py "bg-post.cfd") (py "bg-post") Hin) as [H1 _].
  exact (Hl (H1 Hr)).
Qed.

Lemma brand_reported_iff_bounded_witness :
  In (py "speedy")
     (snd (@contains_brand_impersonation ascii_tables (py "speedy-bg.cfd")))
  <-> whole_label (py "speedy")
        (@lower_without_www ascii_tables (py "speedy-bg.cfd")).
Proof.
  refine (proj2 (proj1 (@brand_reported_iff_bounded ascii_tables)
                   (py "speedy-bg.cfd") (py "speedy") _) _ _).
  - vm_compute. reflexivity.
  - apply mem_iff. vm_compute. reflexivity.
  - vm_compute. discriminate.
Defined.

(** ** The score: the claims on concrete domains *)

Section ScoreClaims.
Context {U : Unicode}.

(** C7. [calculate_score("econt-bg.tk")] is 90, so at least 70: the brand
    (+40), the suspicious TLD (+20), the geo indicator ["-bg"] (+15) and
    the direct-impersonation pattern (+15); the details carry the
    direct-impersonation flag, and no penalty is applied. *)
Theorem econt_bg_tk_score :
  70 <= fst (calculate_score (py "econt-bg.tk"))
  /\ fst (calculate_score (py "econt-bg.tk")) = 40 + 20 + 15 + 15
  /\ dict_get "direct_impersonation" (snd (calculate_score (py "econt-bg.tk")))
     = Some (VBool true)
  /\ dict_get "non_bg_context_penalty"
       (snd (calculate_score (py "econt-bg.tk"))) = None
  /\ dict_get "brand_keywords" (snd (calculate_score (py "econt-bg.tk")))
     = Some (VStrs [py "econt"])
  /\ dict_get "suspicious_tld" (snd (calculate_score (py "econt-bg.tk")))
     = Some (VStr (py ".tk"))
  /\ dict_get "geo_indicators" (snd (calculate_score (py "econt-bg.tk")))
     = Some (VStrs [py "-bg"]).
Proof.
  rewrite calculate_score_ascii by (vm_compute; reflexivity).
  repeat split; try (vm_compute; reflexivity).
  vm_compute. discriminate.
Qed.

Lemma lower_without_www_prefix d :
  lower (www ++ d) = www ++ lower d ->
  startswith www (lower d) = false ->
  lower_without_www (www ++ d) = lower_without_www d.
Proof.
  intros Hl Hw. unfold lower_without_www.
  rewrite Hl, startswith_app, Hw.
  apply (skipn_app_exact www).
Qed.

(** The score depends on the domain through its lower-cased,
    www-stripped form only. *)
Lemma calculate_score_normal_form d d' :
  lower_without_www d = lower_without_www d' ->
  calculate_score d = calculate_score d'.
Proof.
  intros E.
  unfold calculate_score, signals, contains_brand_impersonation,
    detect_homoglyphs, detect_typosquatting.
  rewrite E. reflexivity.
Qed.

(** C10 (amended). When lower-casing leaves the prefix ["www."] alone
    (as it does for an ASCII [d]) and the lower-cased [d] does not start
    with ["www."], [calculate_score("www." + d)] is [calculate_score(d)],
    score and details. *)
Theorem www_prefix_same_score :
  forall d : str,
    lower (www ++ d) = www ++ lower d ->
    startswith www (lower d) = false ->
    calculate_score (www ++ d) = calculate_score d.
Proof.
  intros d Hl Hw. apply calculate_score_normal_form.
  apply lower_without_www_prefix; assumption.
Qed.

(** The first premise holds of every plain [d], an ASCII one for
    instance. *)
Lemma lower_www_plain d :
  forallb plain d = true -> lower (www ++ d) = www ++ lower d.
Proof.
  intros H.
  rewrite (lower_plain d H), (lower_plain (www ++ d)), map_app.
  - reflexivity.
  - rewrite forallb_app, H. reflexivity.
Qed.

Corollary www_prefix_same_score_plain d :
  forallb plain d = true ->
  startswith www (lower d) = false ->
  calculate_score (www ++ d) = calculate_score d.
Proof.
  intros H Hw. apply calculate_score_normal_form.
  apply lower_without_www_prefix; [|assumption].
  apply lower_www_plain. assumption.
Qed.

End ScoreClaims.

Lemma www_prefix_same_score_witness :
  @calculate_score ascii_tables (www ++ py "econt-bg.tk")
  = @calculate_score ascii_tables (py "econt-bg.tk").
Proof.
  apply (@www_prefix_same_score ascii_tables (py "econt-bg.tk")).
  - vm_compute. reflexivity.
  - vm_compute. reflexivity.
Defined.

(** C10 as stated does not hold: for [d = "WWW.a.b.c"], which does not
    start with ["www."], the prefixed domain lower-cases to
    ["www.www.a.b.c"], keeps four labels after the prefix is removed and
    scores 10 for subdomain stacking; [d] itself scores 0. *)
Lemma www_prefix_changes_score :
  ~ (forall (U : Unicode) (d : str),
       startswith www d = false ->
       calculate_score (www ++ d) = calculate_score d).
Proof.
  intros H.
  specialize (H ascii_tables (py "WWW.a.b.c") eq_refl).
  apply (f_equal fst) in H. vm_compute in H. discriminate.
Qed.

(** ** The homoglyph detector *)

Lemma find_first {A} (f : A -> bool) (l : list A) (x : A) :
  find f l = Some x <->
  first_with (fun y => f y = true) l x.
Proof.
  unfold first_with. induction l as [|a l IH]; simpl.
  - split; [discriminate|]. intros (pre & post & H & _).
    destruct pre; discriminate.
  - destruct (f a) eqn:Fa.
    + split.
      * intros [= ->]. exists [], l. split; [reflexivity|].
        split; [assumption|]. intros y [].
      * intros (pre & post & H & Hx & Hpre). destruct pre as [|b pre].
        -- injection H as ->. reflexivity.
        -- injection H as -> _. exfalso. apply (Hpre b); [left; reflexivity|].
           assumption.
    + rewrite IH. split.
      * intros (pre & post & -> & Hx & Hpre). exists (a :: pre), post.
        split; [reflexivity|]. split; [assumption|].
        intros y [<-|Hy]; [congruence | apply Hpre; assumption].
      * intros (pre & post & H & Hx & Hpre). destruct pre as [|b pre].
        -- injection H as -> _. congruence.
        -- injection H as -> ->. exists pre, post.
           split; [reflexivity|]. split; [assumption|].
           intros y Hy. apply Hpre. right. assumption.
Qed.

Lemma first_with_ext {A} (P Q : A -> Prop) l x :
  (forall y, P y <-> Q y) -> first_with P l x <-> first_with Q l x.
Proof.
  intros H. unfold first_with. split;
    intros (pre & post & E & Hx & Hpre); exists pre, post;
    (split; [assumption|]); (split; [apply H; assumption|]);
    intros y Hy Hq; apply (Hpre y Hy); apply H; assumption.
Qed.

Lemma has_non_ascii_iff l :
  negb (forallb (fun c => c <? 128) l) = true <-> has_non_ascii l.
Proof.
  unfold has_non_ascii. rewrite negb_true_iff. split.
  - intros H. induction l as [|c l IH]; simpl in H; [discriminate|].
    apply andb_false_iff in H. destruct H as [H|H].
    + exists c. split; [left; reflexivity|]. apply Z.ltb_ge in H. lia.
    + destruct (IH H) as (x & Hx & Hge). exists x. split; [right|]; assumption.
  - intros (c & Hc & Hge). destruct (forallb _ l) eqn:E; [|reflexivity].
    rewrite forallb_forall in E. specialize (E c Hc).
    apply Z.ltb_lt in E. lia.
Qed.

Lemma contains_char c (s : str) : contains [c] s = true <-> In c s.
Proof.
  rewrite contains_iff. split.
  - intros (a & b & ->). apply in_or_app. right. left. reflexivity.
  - intros H. apply in_split in H. destruct H as (a & b & ->).
    exists a, b. reflexivity.
Qed.

Lemma homoglyph_hit_iff brand l :
  homoglyph_hit brand l = true <-> homoglyph_rule brand l.
Proof.
  unfold homoglyph_hit, homoglyph_rule, infix.
  destruct ((len l <? 3) || (2 <? Z.abs (len l - len brand))) eqn:G.
  - split; [discriminate|]. intros (H3 & H2 & _).
    apply orb_true_iff in G. destruct G as [G|G].
    + apply Z.ltb_lt in G. lia.
    + apply Z.ltb_lt in G. lia.
  - apply orb_false_iff in G. destruct G as [G1 G2].
    apply Z.ltb_ge in G1, G2.
    cbv zeta.
    rewrite orb_true_iff, !andb_true_iff, orb_true_iff, andb_true_iff.
    rewrite has_non_ascii_iff, !eqb_eq, Z.leb_le, contains_iff.
    change (py "0") with [48]. rewrite contains_char.
    tauto.
Qed.

Section HomoglyphFacts.
Context {U : Unicode}.

Lemma homoglyphs_found_iff d brands l :
  In l (snd (detect_homoglyphs d brands)) <->
  exists brand,
    In brand brands
    /\ first_with (homoglyph_rule brand) (labels (lower_without_www d)) l.
Proof.
  unfold detect_homoglyphs. cbv zeta. cbn [snd].
  rewrite in_flat_map. split.
  - intros (brand & Hb & Hl). exists brand. split; [assumption|].
    destruct (find _ _) as [part|] eqn:F; [|destruct Hl].
    destruct Hl as [<-|[]]. apply find_first in F.
    eapply first_with_ext; [|exact F].
    intros y. symmetry. apply homoglyph_hit_iff.
  - intros (brand & Hb & Hf). exists brand. split; [assumption|].
    assert (F : find (homoglyph_hit brand) (labels (lower_without_www d))
                = Some l).
    { apply find_first. eapply first_with_ext; [|exact Hf].
      intros y. apply homoglyph_hit_iff. }
    rewrite F. left. reflexivity.
Qed.

(** At most one label is reported per brand. *)
Lemma homoglyphs_found_length d brands :
  (List.length (snd (detect_homoglyphs d brands)) <= List.length brands)%nat.
Proof.
  unfold detect_homoglyphs. cbv zeta. cbn [snd].
  induction brands as [|b brands IH]; simpl; [lia|].
  rewrite length_app. destruct (find _ _); simpl; lia.
Qed.

Lemma homoglyph_examples :
  detect_homoglyphs (py "ec0nt-pay.tk") [py "econt"] = (true, [py "ec0nt"])
  /\ detect_homoglyphs (py "есоnt.cfd") [py "econt"] = (true, [py "есоnt"]).
Proof.
  rewrite (detect_homoglyphs_plain (py "ec0nt-pay.tk")),
          (detect_homoglyphs_plain (py "есоnt.cfd"))
    by (vm_compute; reflexivity).
  split; vm_compute; reflexivity.
Qed.

(** C4 (amended). [detect_homoglyphs] reports, for each brand, the first
    label of the domain (and no later one) that has at least three
    characters, a length within two of the brand's, and either a
    non-ASCII character and a normal form that is the brand or, with at
    least four characters, a part of the brand, or a zero and the brand
    as its reading with o for 0.  So there is a hit on ["ec0nt"] in
    ["ec0nt-pay.tk"], and one in the Cyrillic ["есоnt.cfd"]. *)
Theorem homoglyphs_reported_iff_first_hit :
  forall (d : str) (brands : list str) (l : str),
    (In l (snd (detect_homoglyphs d brands)) <->
     exists brand,
       In brand brands
       /\ first_with (homoglyph_rule brand) (labels (lower_without_www d)) l)
    /\ detect_homoglyphs (py "ec0nt-pay.tk") [py "econt"]
       = (true, [py "ec0nt"])
    /\ detect_homoglyphs (py "есоnt.cfd") [py "econt"]
       = (true, [py "есоnt"]).
Proof.
  intros d brands l. split; [apply homoglyphs_found_iff|].
  apply homoglyph_examples.
Qed.

End HomoglyphFacts.

(** The label ["b0xn"] of ["b0xn.cfd"] has a zero, and its normal form
    ["boxn"] is a part of ["boxnow"]; being ASCII it is only compared,
    with o for 0, with the whole brand, and is not reported. *)
Lemma b0xn_not_reported :
  snd (@detect_homoglyphs ascii_tables (py "b0xn.cfd") [py "boxnow"]) = []
  /\ In (py "b0xn") (labels (@lower_without_www ascii_tables (py "b0xn.cfd")))
  /\ homoglyph_hit_any (py "boxnow") (py "b0xn").
Proof.
  split; [vm_compute; reflexivity|].
  split; [apply mem_iff; vm_compute; reflexivity|].
  unfold homoglyph_hit_any.
  split; [vm_compute; discriminate|].
  split; [vm_compute; discriminate|].
  split; [right; vm_compute; auto|].
  right. left. split; [vm_compute; discriminate|].
  exists [], (py "ow"). vm_compute. reflexivity.
Qed.

(** C4 as stated does not hold. *)
Lemma homoglyph_hit_any_not_reported :
  ~ (forall (U : Unicode) (d : str) (brands : list str) (l : str),
       In l (snd (detect_homoglyphs d brands)) <->
       exists brand,
         In brand brands
         /\ In l (labels (lower_without_www d))
         /\ homoglyph_hit_any brand l).
Proof.
  intros H. destruct b0xn_not_reported as (E & Hl & Hh).
  destruct (H ascii_tables (py "b0xn.cfd") [py "boxnow"] (py "b0xn"))
    as [_ H2].
  assert (Hin : In (py "b0xn")
                  (snd (@detect_homoglyphs ascii_tables (py "b0xn.cfd")
                          [py "boxnow"]))).
  { apply H2. exists (py "boxnow"). split; [left; reflexivity|]. auto. }
  rewrite E in Hin. destruct Hin.
Qed.

(** ** The typosquatting detector *)

Lemma classify_missing original typo :
  classify_typo_type original typo = missing_char <-> len typo < len original.
Proof.
  unfold classify_typo_type.
  destruct (len typo <? len original) eqn:E1.
  - apply Z.ltb_lt in E1. tauto.
  - apply Z.ltb_ge in E1. destruct (len original <? len typo).
    + split; [discriminate | lia].
    + destruct (_ && _); (split; [discriminate | lia]).
Qed.

Lemma classify_extra original typo :
  classify_typo_type original typo = extra_char <-> len original < len typo.
Proof.
  unfold classify_typo_type.
  destruct (len typo <? len original) eqn:E1.
  - apply Z.ltb_lt in E1. split; [discriminate | lia].
  - destruct (len original <? len typo) eqn:E2.
    + apply Z.ltb_lt in E2. tauto.
    + apply Z.ltb_ge in E2. destruct (_ && _); (split; [discriminate | lia]).
Qed.

(** What the detector calls a swap: two positions differ, and somewhere
    two neighbours of the one string are the neighbours of the other in
    the opposite order. *)
Lemma classify_swapped original typo :
  classify_typo_type original typo = swapped_chars <->
  len typo = len original
  /\ differences original typo = 2
  /\ exists i : nat,
       (i < List.length original - 1)%nat
       /\ nth i original 0 = nth (i + 1) typo 0
       /\ nth (i + 1) original 0 = nth i typo 0.
Proof.
  unfold classify_typo_type, differences.
  destruct (len typo <? len original) eqn:E1.
  { apply Z.ltb_lt in E1. split; [discriminate | lia]. }
  destruct (len original <? len typo) eqn:E2.
  { apply Z.ltb_lt in E2. split; [discriminate | lia]. }
  apply Z.ltb_ge in E1, E2.
  destruct (_ && _) eqn:E.
  - split; [|reflexivity]. intros _. split; [lia|].
    apply andb_true_iff in E. destruct E as [Ed Ex].
    apply Z.eqb_eq in Ed. split; [assumption|].
    apply existsb_exists in Ex. destruct Ex as (i & Hi & Hm).
    apply in_seq in Hi. apply andb_true_iff in Hm.
    rewrite !Z.eqb_eq in Hm. exists i. split; [lia | assumption].
  - split; [discriminate|]. intros (_ & Hd & i & Hi & H1 & H2).
    exfalso. apply andb_false_iff in E. destruct E as [E|E].
    + apply Z.eqb_neq in E. contradiction.
    + assert (Ex : existsb
                     (fun i => (nth i original 0 =? nth (i + 1) typo 0)
                               && (nth (i + 1) original 0 =? nth i typo 0))
                     (seq 0 (List.length original - 1)) = true).
      { apply existsb_exists. exists i. split; [apply in_seq; lia|].
        rewrite H1, H2, !Z.eqb_refl. reflexivity. }
      congruence.
Qed.

Lemma map_flat_map {A B C} (g : B -> C) (f : A -> list B) l :
  map g (flat_map f l) = flat_map (fun x => map g (f x)) l.
Proof.
  induction l as [|a l IH]; simpl; [reflexivity|].
  rewrite map_app, IH. reflexivity.
Qed.

Lemma occurrences_cons x a l :
  occurrences x (a :: l)
  = ((if eqb x a then 1 else 0) + occurrences x l)%nat.
Proof.
  unfold occurrences. cbn [filter]. destruct (eqb x a); reflexivity.
Qed.

Lemma occurrences_in x l : In x l <-> (1 <= occurrences x l)%nat.
Proof.
  induction l as [|a l IH];
    [unfold occurrences; cbn; split; [intros []|lia]|].
  rewrite occurrences_cons. destruct (eqb x a) eqn:E.
  - apply eqb_eq in E. subst a. split; [lia|]. intros _. left. reflexivity.
  - apply eqb_neq in E. cbn [In]. rewrite IH. split.
    + intros [H|H]; [congruence|assumption].
    + intros H. right. assumption.
Qed.

Lemma occurrences_absent x l : ~ In x l -> occurrences x l = 0%nat.
Proof.
  intros H. rewrite occurrences_in in H.
  destruct (occurrences x l); [reflexivity|lia].
Qed.

Lemma NoDup_occurrences x l : NoDup l -> In x l -> occurrences x l = 1%nat.
Proof.
  induction 1 as [|a l Ha Hl IH]; intros Hin; [destruct Hin|].
  rewrite occurrences_cons. destruct (eqb x a) eqn:E.
  - apply eqb_eq in E. subst a. rewrite (occurrences_absent x l Ha).
    reflexivity.
  - apply eqb_neq in E. destruct Hin as [Hin|Hin]; [congruence|].
    rewrite IH by assumption. reflexivity.
Qed.

Lemma occurrences_filter (p : str -> bool) x l :
  p x = true -> occurrences x (filter p l) = occurrences x l.
Proof.
  intros Hp. induction l as [|a l IH]; [reflexivity|].
  cbn [filter]. destruct (p a) eqn:Ea.
  - rewrite !occurrences_cons, IH. reflexivity.
  - rewrite occurrences_cons, IH.
    destruct (eqb x a) eqn:E; [|reflexivity].
    apply eqb_eq in E. congruence.
Qed.

Lemma NoDup_app_parts {A} (l l' : list A) :
  NoDup (l ++ l') ->
  NoDup l /\ NoDup l' /\ forall a, In a l -> ~ In a l'.
Proof.
  induction l as [|x l IH]; cbn [app]; intros H.
  - split; [constructor|]. split; [assumption|]. intros a [].
  - inversion H as [|y m Hx Hm]; subst.
    destruct (IH Hm) as (H1 & H2 & H3).
    split.
    + constructor; [|assumption]. intros Hin. apply Hx, in_or_app.
      left. assumption.
    + split; [assumption|]. intros a [<-|Ha].
      * intros Hin. apply Hx, in_or_app. right. assumption.
      * apply H3, Ha.
Qed.

(** A list put together from one list per element of [l] has no
    repetition exactly when the lists have none, and every element that
    contributes occurs once in [l]; the lists of different elements
    being disjoint. *)
Lemma NoDup_flat_map_once {B} (f : str -> list B) l :
  (forall x y b, In x l -> In y l -> In b (f x) -> In b (f y) -> x = y) ->
  NoDup (flat_map f l)
  <-> (forall x, In x l -> NoDup (f x))
      /\ (forall x b, In x l -> In b (f x) -> occurrences x l = 1%nat).
Proof.
  induction l as [|a l IH]; intros Hd; cbn [flat_map].
  - split; [|intros _; constructor].
    intros _. split; intros x; [intros []|intros b []].
  - assert (Hd' : forall x y b, In x l -> In y l ->
                                In b (f x) -> In b (f y) -> x = y).
    { intros x y b Hx Hy. apply Hd; right; assumption. }
    specialize (IH Hd'). split.
    + intros H. apply NoDup_app_parts in H. destruct H as (Ha & Hl & Hal).
      apply IH in Hl. destruct Hl as [Hl1 Hl2]. split.
      * intros x [<-|Hx]; [assumption | apply Hl1, Hx].
      * intros x b Hx Hb. rewrite occurrences_cons.
        destruct (eqb x a) eqn:E.
        -- apply eqb_eq in E. subst x.
           rewrite occurrences_absent; [reflexivity|].
           intros Hin. apply (Hal b Hb). apply in_flat_map.
           exists a. split; assumption.
        -- apply eqb_neq in E. destruct Hx as [Hx|Hx]; [congruence|].
           rewrite (Hl2 x b Hx Hb). reflexivity.
    + intros [H1 H2]. apply NoDup_app.
      * apply H1. left. reflexivity.
      * apply IH. split.
        -- intros x Hx. apply H1. right. assumption.
        -- intros x b Hx Hb.
           assert (Hxa : x <> a).
           { intros ->.
             assert (G := H2 a b (or_introl eq_refl) Hb).
             rewrite occurrences_cons, eqb_refl in G.
             apply occurrences_in in Hx. lia. }
           assert (G := H2 x b (or_intror Hx) Hb).
           rewrite occurrences_cons in G.
           apply eqb_neq in Hxa. rewrite Hxa in G. exact G.
      * intros b Hb Hin. apply in_flat_map in Hin.
        destruct Hin as (y & Hy & Hby).
        assert (E : a = y)
          by (apply (Hd a y b); [left; reflexivity|right; assumption| |];
              assumption).
        subst y.
        assert (G := H2 a b (or_introl eq_refl) Hb).
        rewrite occurrences_cons, eqb_refl in G.
        apply occurrences_in in Hy. lia.
Qed.

(** The same for the entries that a double loop records, at most one
    for a pair of an outer and an inner element, with the pair as its
    key. *)
Lemma pairs_once {B} (key : B -> str * str) (cell : str -> str -> list B)
  (short : str -> bool) (outer inner : list str) :
  (forall x y, (List.length (cell x y) <= 1)%nat) ->
  (forall x y b, In b (cell x y) -> key b = (x, y)) ->
  NoDup (map key
           (flat_map
              (fun x => if short x then [] else flat_map (cell x) inner)
              outer))
  <-> forall t,
        In t (flat_map
                (fun x => if short x then [] else flat_map (cell x) inner)
                outer) ->
        occurrences (fst (key t)) outer = 1%nat
        /\ occurrences (snd (key t)) inner = 1%nat.
Proof.
  intros Hone Hkey.
  assert (Hrow : forall x k,
            In k (map key (if short x then []
                           else flat_map (cell x) inner)) ->
            short x = false
            /\ exists y b, In y inner /\ In b (cell x y) /\ k = (x, y)
                           /\ key b = k).
  { intros x k H. destruct (short x); [destruct H|]. split; [reflexivity|].
    apply in_map_iff in H. destruct H as (b & <- & Hb).
    apply in_flat_map in Hb. destruct Hb as (y & Hy & Hb).
    exists y, b. repeat split; try assumption.
    apply Hkey. assumption. }
  assert (Hcell : forall x y, NoDup (map key (cell x y))).
  { intros x y. specialize (Hone x y).
    destruct (cell x y) as [|b [|c r]]; cbn [map List.length] in *.
    - constructor.
    - constructor; [intros []|constructor].
    - lia. }
  assert (Hinner : forall x,
            NoDup (map key (flat_map (cell x) inner))
            <-> forall y b, In y inner -> In b (cell x y) ->
                            occurrences y inner = 1%nat).
  { intros x. rewrite map_flat_map.
    rewrite (NoDup_flat_map_once (fun y => map key (cell x y))).
    - split.
      + intros [_ H] y b Hy Hb. apply (H y (key b) Hy).
        apply in_map. assumption.
      + intros H. split; [intros; apply Hcell|].
        intros y k Hy Hk. apply in_map_iff in Hk.
        destruct Hk as (b & _ & Hb). apply (H y b Hy Hb).
    - intros y y' k _ _ Hk Hk'.
      apply in_map_iff in Hk, Hk'.
      destruct Hk as (b & <- & Hb), Hk' as (b' & E & Hb').
      rewrite (Hkey _ _ _ Hb), (Hkey _ _ _ Hb') in E.
      injection E as E. symmetry. assumption. }
  rewrite map_flat_map.
  rewrite (NoDup_flat_map_once
             (fun x => map key (if short x then []
                                else flat_map (cell x) inner))).
  - split.
    + intros [H1 H2] t Ht. apply in_flat_map in Ht.
      destruct Ht as (x & Hx & Ht).
      assert (Hk : In (key t) (map key (if short x then []
                                        else flat_map (cell x) inner)))
        by (apply in_map; assumption).
      destruct (Hrow x _ Hk) as (Hs & y & b & Hy & Hb & E & _).
      rewrite E. cbn [fst snd]. split.
      * apply (H2 x (key t) Hx Hk).
      * specialize (H1 x Hx). rewrite Hs in H1.
        apply (proj1 (Hinner x) H1 y b Hy Hb).
    + intros H. split.
      * intros x Hx. destruct (short x) eqn:Hs; [constructor|].
        apply Hinner. intros y b Hy Hb.
        assert (Ht : In b (flat_map
                             (fun x => if short x then []
                                       else flat_map (cell x) inner)
                             outer)).
        { apply in_flat_map. exists x. split; [assumption|].
          rewrite Hs. apply in_flat_map. exists y. split; assumption. }
        destruct (H b Ht) as [_ G]. rewrite (Hkey _ _ _ Hb) in G.
        exact G.
      * intros x k Hx Hk.
        destruct (Hrow x k Hk) as (Hs & y & b & Hy & Hb & E & Eb).
        assert (Ht : In b (flat_map
                             (fun x => if short x then []
                                       else flat_map (cell x) inner)
                             outer)).
        { apply in_flat_map. exists x. split; [assumption|].
          rewrite Hs. apply in_flat_map. exists y. split; assumption. }
        destruct (H b Ht) as [G _]. rewrite (Hkey _ _ _ Hb) in G.
        exact G.
  - intros x x' k _ _ Hk Hk'.
    destruct (Hrow x k Hk) as (_ & y & b & _ & _ & E & _).
    destruct (Hrow x' k Hk') as (_ & y' & b' & _ & _ & E' & _).
    rewrite E in E'. injection E' as E' _. assumption.
Qed.

Section TyposquatFacts.
Context {U : Unicode}.

Lemma typo_recorded_iff d brands t :
  In t (snd (detect_typosquatting d brands)) <->
  In (typo_brand t) brands
  /\ In (typo_label t) (labels (lower_without_www d))
  /\ typo_condition (typo_brand t) (typo_label t)
  /\ typo_distance t = edit_distance (typo_label t) (typo_brand t)
  /\ typo_type t = classify_typo_type (typo_brand t) (typo_label t).
Proof.
  unfold detect_typosquatting, typo_condition. cbv zeta. cbn [snd].
  rewrite <- !levenshtein_distance_is_edit_distance.
  rewrite in_flat_map. split.
  - intros (brand & Hb & H).
    destruct (len brand <? 4) eqn:E4; [destruct H|].
    apply Z.ltb_ge in E4.
    apply in_flat_map in H. destruct H as (part & Hp & H).
    destruct (len part <? 3) eqn:E3; [destruct H|].
    apply Z.ltb_ge in E3.
    destruct ((0 <? levenshtein_distance part brand)
              && (levenshtein_distance part brand <=? 2)
              && (Z.abs (len part - len brand) <=? 2)) eqn:Ec; [|destruct H].
    destruct (negb (eqb part brand)) eqn:Ee; [|destruct H].
    destruct H as [<-|[]]. cbn.
    apply andb_true_iff in Ec. destruct Ec as [Ec Ea].
    apply andb_true_iff in Ec. destruct Ec as [E0 E2].
    apply Z.ltb_lt in E0. apply Z.leb_le in E2, Ea.
    apply negb_true_iff, eqb_neq in Ee.
    repeat split; auto; lia.
  - destruct t as [brand part dist kind]. cbn.
    intros (Hb & Hp & (H4 & H3 & [H0 H2] & Ha & Hne) & -> & ->).
    exists brand. split; [assumption|].
    replace (len brand <? 4) with false by (symmetry; apply Z.ltb_ge; lia).
    apply in_flat_map. exists part. split; [assumption|].
    replace (len part <? 3) with false by (symmetry; apply Z.ltb_ge; lia).
    replace (0 <? levenshtein_distance part brand) with true
      by (symmetry; apply Z.ltb_lt; lia).
    replace (levenshtein_distance part brand <=? 2) with true
      by (symmetry; apply Z.leb_le; lia).
    replace (Z.abs (len part - len brand) <=? 2) with true
      by (symmetry; apply Z.leb_le; lia).
    replace (eqb part brand) with false by (symmetry; apply eqb_neq; assumption).
    left. reflexivity.
Qed.

Lemma typo_example :
  detect_typosquatting (py "spedy.bg-pv.cfd") [py "speedy"]
  = (true, [ {| typo_brand := py "speedy"; typo_label := py "spedy";
                typo_distance := 1; typo_type := missing_char |} ]).
Proof.
  rewrite detect_typosquatting_plain by (vm_compute; reflexivity).
  vm_compute. reflexivity.
Qed.

(** C6 (amended). The list that [detect_typosquatting] returns has each
    pair of a brand and a label at most once exactly when no brand and
    no label of a recorded typo occurs a second time in the brand list,
    respectively among the labels of the domain.  So it has when the
    brands of at least four characters are pairwise different and the
    labels of at least three characters are: shorter ones are never
    recorded. *)
Theorem typos_unique_per_brand_and_label :
  forall (d : str) (brands : list str),
    (NoDup (map typo_key (snd (detect_typosquatting d brands)))
     <-> forall t, In t (snd (detect_typosquatting d brands)) ->
           occurrences (typo_brand t) brands = 1%nat
           /\ occurrences (typo_label t) (labels (lower_without_www d))
              = 1%nat)
    /\ (NoDup (filter (fun brand => 4 <=? len brand) brands) ->
        NoDup (filter (fun part => 3 <=? len part)
                 (labels (lower_without_www d))) ->
        NoDup (map typo_key (snd (detect_typosquatting d brands)))).
Proof.
  intros d brands.
  assert (Hiff :
    NoDup (map typo_key (snd (detect_typosquatting d brands)))
    <-> forall t, In t (snd (detect_typosquatting d brands)) ->
          occurrences (typo_brand t) brands = 1%nat
          /\ occurrences (typo_label t) (labels (lower_without_www d))
             = 1%nat).
  { unfold detect_typosquatting. cbv zeta. cbn [snd].
    apply (pairs_once typo_key
             (fun brand part =>
                if len part <? 3 then []
                else
                  if (0 <? levenshtein_distance part brand)
                     && (levenshtein_distance part brand <=? 2)
                     && (Z.abs (len part - len brand) <=? 2)
                  then
                    if negb (eqb part brand)
                    then [ {| typo_brand := brand; typo_label := part;
                              typo_distance :=
                                levenshtein_distance part brand;
                              typo_type := classify_typo_type brand part |} ]
                    else []
                  else [])
             (fun brand => len brand <? 4)).
    - intros brand part. destruct (len part <? 3); [simpl; lia|].
      destruct (_ && _); [|simpl; lia].
      destruct (negb _); simpl; lia.
    - intros brand part b H. destruct (len part <? 3); [destruct H|].
      destruct (_ && _); [|destruct H].
      destruct (negb _); [|destruct H].
      destruct H as [<-|[]]. reflexivity. }
  split; [exact Hiff|].
  intros Hb Hl. apply Hiff. intros t Ht.
  apply typo_recorded_iff in Ht.
  destruct Ht as (Hbrand & Hlabel & (H4 & H3 & _) & _).
  split.
  - rewrite <- (occurrences_filter (fun brand => 4 <=? len brand))
      by (apply Z.leb_le; assumption).
    apply NoDup_occurrences; [assumption|].
    apply filter_In. split; [assumption | apply Z.leb_le; assumption].
  - rewrite <- (occurrences_filter (fun part => 3 <=? len part))
      by (apply Z.leb_le; assumption).
    apply NoDup_occurrences; [assumption|].
    apply filter_In. split; [assumption | apply Z.leb_le; assumption].
Qed.

End TyposquatFacts.

(** Two typos are recorded for this domain, whose label ["bg"] occurs
    twice. *)
Lemma typos_unique_per_brand_and_label_witness :
  List.length
    (snd (@detect_typosquatting ascii_tables (py "spedy.ecnt.bg-bg.cfd")
            [py "speedy"; py "econt"])) = 2%nat
  /\ ~ NoDup (labels (@lower_without_www ascii_tables
                        (py "spedy.ecnt.bg-bg.cfd")))
  /\ NoDup (map typo_key
              (snd (@detect_typosquatting ascii_tables
                      (py "spedy.ecnt.bg-bg.cfd")
                      [py "speedy"; py "econt"]))).
Proof.
  split; [vm_compute; reflexivity|]. split.
  - intros H. vm_compute in H.
    inversion H as [|x1 l1 _ G1]. inversion G1 as [|x2 l2 _ G2].
    inversion G2 as [|x3 l3 N3 _]. apply N3. left. reflexivity.
  - apply (proj2 (@typos_unique_per_brand_and_label ascii_tables
                    (py "spedy.ecnt.bg-bg.cfd") [py "speedy"; py "econt"])).
    + vm_compute. repeat constructor; simpl; intuition discriminate.
    + vm_compute. repeat constructor; simpl; intuition discriminate.
Defined.

(** C6 as stated does not hold: the label ["spedy"] of
    ["spedy.spedy.cfd"] is recorded twice for ["speedy"]. *)
Lemma typo_recorded_twice :
  ~ (forall (U : Unicode) (d : str) (brands : list str),
       NoDup (map typo_key (snd (detect_typosquatting d brands)))).
Proof.
  intros H.
  specialize (H ascii_tables (py "spedy.spedy.cfd") [py "speedy"]).
  vm_compute in H. inversion H as [|k ks Hk _]. apply Hk. left. reflexivity.
Qed.

(** ["speedy"] and ["sqeedx"] differ at the second and the last
    character, which are no neighbours. *)
Lemma sqeedx_no_mirrored_pair :
  ~ mirrored_adjacent_pair (py "speedy") (py "sqeedx").
Proof.
  intros (i & Hi & Hd & _).
  change (List.length (py "speedy")) with 6%nat in *.
  assert (H1 : 1%nat = i \/ 1%nat = S i).
  { apply (Hd 1%nat); [lia|]. vm_compute. discriminate. }
  assert (H5 : 5%nat = i \/ 5%nat = S i).
  { apply (Hd 5%nat); [lia|]. vm_compute. discriminate. }
  lia.
Qed.

Section TyposquatClaims.
Context {U : Unicode}.

(** C5, at the input on which the detector departs from it: the label
    ["sqeedx"] of ["sqeedx.cfd"] is recorded for ["speedy"] at distance 2
    with the kind [swapped_chars], though the two strings differ at two
    positions that are not next to each other, which the specification
    calls a substitution. *)
Theorem swapped_chars_without_swap :
  detect_typosquatting (py "sqeedx.cfd") [py "speedy"]
  = (true, [ {| typo_brand := py "speedy"; typo_label := py "sqeedx";
                typo_distance := 2; typo_type := swapped_chars |} ])
  /\ typo_kind_spec (py "speedy") (py "sqeedx") substitution
  /\ ~ typo_kind_spec (py "speedy") (py "sqeedx") swapped_chars.
Proof.
  rewrite detect_typosquatting_plain by (vm_compute; reflexivity).
  split; [vm_compute; reflexivity|]. unfold typo_kind_spec.
  split.
  - split; [vm_compute; reflexivity | apply sqeedx_no_mirrored_pair].
  - intros [_ H]. exact (sqeedx_no_mirrored_pair H).
Qed.

End TyposquatClaims.

(** A true swap of two neighbours is classified as one. *)

Lemma differences_none : forall original typo : str,
  List.length original = List.length typo ->
  (forall j, (j < List.length original)%nat ->
             nth j original 0 = nth j typo 0) ->
  differences original typo = 0.
Proof.
  unfold differences.
  induction original as [|x o IH]; intros [|y t] Hl H; simpl in *;
    try reflexivity; try discriminate.
  pose proof (H 0%nat ltac:(lia)) as H0. simpl in H0. subst y.
  rewrite Z.eqb_refl. simpl. apply IH; [lia|].
  intros j Hj. apply (H (S j)). lia.
Qed.

Lemma differences_cons x y (o t : str) :
  differences (x :: o) (y :: t)
  = (if x =? y then 0 else 1) + differences o t.
Proof.
  unfold differences. cbn [combine filter].
  destruct (x =? y); cbn [negb]; unfold len; cbn [List.length]; lia.
Qed.

Lemma differences_pair : forall (i : nat) (original typo : str),
  List.length original = List.length typo ->
  (S i < List.length original)%nat ->
  (forall j, (j < List.length original)%nat ->
             (nth j original 0 <> nth j typo 0 <-> j = i \/ j = S i)) ->
  differences original typo = 2.
Proof.
  induction i as [|i IH]; intros original typo Hl Hi H.
  - destruct original as [|x [|x2 o]]; simpl in Hi; try lia.
    destruct typo as [|y [|y2 t]]; simpl in Hl; try lia.
    rewrite !differences_cons.
    assert (Hx : x <> y) by (apply (H 0%nat); simpl; lia).
    assert (Hx2 : x2 <> y2) by (apply (H 1%nat); simpl; lia).
    apply Z.eqb_neq in Hx, Hx2. rewrite Hx, Hx2.
    rewrite differences_none; [reflexivity | lia |].
    intros j Hj. destruct (Z.eq_dec (nth j o 0) (nth j t 0)) as [E|E];
      [assumption|].
    exfalso. assert (HS : S (S j) = 0%nat \/ S (S j) = 1%nat).
    { apply (H (S (S j))); simpl; [lia | assumption]. }
    lia.
  - destruct original as [|x o]; simpl in Hi; try lia.
    destruct typo as [|y t]; simpl in Hl; try lia.
    rewrite differences_cons.
    assert (Hx : x = y).
    { destruct (Z.eq_dec x y) as [E|E]; [assumption|]. exfalso.
      assert (H0 : 0%nat = S i \/ 0%nat = S (S i))
        by (apply (H 0%nat); simpl; [lia | assumption]).
      lia. }
    subst y. rewrite Z.eqb_refl.
    rewrite (IH o t); [reflexivity | lia | lia |].
    intros j Hj. specialize (H (S j)). simpl in H.
    split.
    + intros E. assert (HS : S j = S i \/ S j = S (S i)) by (apply H; [lia | assumption]).
      lia.
    + intros E. apply H; lia.
Qed.

Lemma mirrored_pair_is_swapped original typo :
  len typo = len original ->
  mirrored_adjacent_pair original typo ->
  classify_typo_type original typo = swapped_chars.
Proof.
  intros Hl (i & Hi & Hd & H1 & H2).
  apply classify_swapped. split; [assumption|].
  unfold len in Hl. split.
  - apply (differences_pair i); [lia | assumption | assumption].
  - exists i. split; [lia|]. rewrite Nat.add_1_r. auto.
Qed.

(** Where the recorded kind is not [swapped_chars], it is the kind of
    the specification. *)
Lemma classify_agrees_unless_swapped original typo k :
  classify_typo_type original typo = k ->
  k <> swapped_chars ->
  typo_kind_spec original typo k.
Proof.
  intros Hk Hne. destruct k; simpl.
  - apply classify_missing. assumption.
  - apply classify_extra. assumption.
  - contradiction.
  - assert (Hm : ~ len typo < len original).
    { intros H. apply classify_missing in H. congruence. }
    assert (He : ~ len original < len typo).
    { intros H. apply classify_extra in H. congruence. }
    split; [lia|]. intros Hp.
    rewrite (mirrored_pair_is_swapped original typo) in Hk by (assumption || lia).
    discriminate.
Qed.

(** ** Admission *)

Section ScanFacts.
Context {U : Unicode}.

Lemma is_whitelisted_iff d : is_whitelisted d = true <-> on_whitelist d.
Proof.
  unfold is_whitelisted, on_whitelist. cbv zeta.
  rewrite existsb_exists. split.
  - intros (w & Hw & H). exists w. split; [assumption|].
    apply orb_true_iff in H. destruct H as [H|H].
    + left. apply eqb_eq. assumption.
    + right. apply endswith_iff in H. exact H.
  - intros (w & Hw & H). exists w. split; [assumption|].
    apply orb_true_iff. destruct H as [H|H].
    + left. apply eqb_eq. assumption.
    + right. apply endswith_iff. exact H.
Qed.

Lemma scan_one_scored_unlisted outcome domain st :
  scored_unlisted st -> scored_unlisted (scan_one outcome domain st).
Proof.
  unfold scored_unlisted, scan_one. intros H. cbv zeta.
  destruct (eqb (strip domain) [] || startswith (py "*") (strip domain)
            || mem (strip domain) (processed_domains st)); [assumption|].
  cbn [processed_domains findings_count feed scored].
  destruct (is_infrastructure_domain (strip domain)); [assumption|].
  destruct (is_whitelisted (strip domain)) eqn:W; [assumption|].
  destruct (negb (mem (strip domain) MANUAL_CHECK_DOMAINS)
            && negb (existsb (fun suffix => endswith suffix (strip domain))
                       TARGET_SUFFIXES)); [assumption|].
  destruct (contains_courier_keyword (strip domain)) as [has_courier kws].
  destruct (calculate_score (strip domain)) as [sc det].
  cbn [processed_domains findings_count feed scored].
  assert (G : Forall (fun d => is_whitelisted d = false)
                (scored st ++ [strip domain])).
  { apply Forall_app. split; [assumption|]. constructor; [assumption|constructor]. }
  destruct (negb has_courier && _ && (sc <? 60)); [exact G|].
  destruct (SCORE_THRESHOLD <=? sc); exact G.
Qed.

Lemma scan_loop_scored_unlisted expired writes all_domains : forall i st,
  scored_unlisted st ->
  scored_unlisted (scan_loop expired writes i all_domains st).
Proof.
  induction all_domains as [|domain rest IH]; intros i st H; simpl.
  - assumption.
  - destruct (expired i); [assumption|].
    apply IH, scan_one_scored_unlisted, H.
Qed.

(** C8. A domain whose lower-cased, www-stripped form is a whitelist entry
    or ends with a dot and an entry is whitelisted, and in no run of
    [scan_domains], whatever the candidates, the clock, the feed file and
    the fate of its writes, is [calculate_score] called on it. *)
Theorem whitelisted_never_scored :
  forall d : str,
    on_whitelist d ->
    is_whitelisted d = true
    /\ forall (expired : nat -> bool) (writes : nat -> WriteOutcome)
              (all_domains : list str) (feed_file : FeedFile),
         ~ In d (scored (scan_domains expired writes all_domains
                           feed_file)).
Proof.
  intros d Hd. apply is_whitelisted_iff in Hd. split; [assumption|].
  intros expired writes all_domains feed_file Hin.
  assert (H : scored_unlisted
                (scan_domains expired writes all_domains feed_file)).
  { apply scan_loop_scored_unlisted. constructor. }
  unfold scored_unlisted in H. rewrite Forall_forall in H.
  specialize (H d Hin). congruence.
Qed.

End ScanFacts.

(** The scanner does score what it admits: of these three candidates the
    whitelisted one is skipped, as is the one on no tracked suffix. *)
Lemma scan_scores_admitted :
  scored (@scan_domains ascii_tables (fun _ => false) (fun _ => Saved)
            [py "www.econt.bg"; py "econt-bg.tk"; py "example.org"]
            NoFile)
  = [py "econt-bg.tk"].
Proof. vm_compute. reflexivity. Qed.

Lemma whitelisted_never_scored_witness :
  @is_whitelisted ascii_tables (py "www.tracking.econt.bg") = true
  /\ forall (expired : nat -> bool) (writes : nat -> WriteOutcome)
            (all_domains : list str) (feed_file : FeedFile),
       ~ In (py "www.tracking.econt.bg")
           (scored (@scan_domains ascii_tables expired writes all_domains
                      feed_file)).
Proof.
  apply (@whitelisted_never_scored ascii_tables (py "www.tracking.econt.bg")).
  exists (py "econt.bg"). split.
  - apply mem_iff. vm_compute. reflexivity.
  - right. exists (py "tracking"). vm_compute. reflexivity.
Defined.

(* ================================================================== *)
(** * Further properties of the detector *)

(** ** The distance is a metric *)

Lemma edit_distance_nonneg a b : 0 <= edit_distance a b.
Proof.
  rewrite <- levenshtein_distance_is_edit_distance.
  apply levenshtein_distance_nonneg.
Qed.

Lemma edit_distance_same a : edit_distance a a = 0.
Proof.
  induction a as [|x a IH]; [reflexivity|].
  rewrite edit_distance_cons, Z.eqb_refl, IH.
  pose proof (edit_distance_nonneg a (x :: a)).
  pose proof (edit_distance_nonneg (x :: a) a). lia.
Qed.

Lemma edit_distance_zero a : forall b, edit_distance a b = 0 -> a = b.
Proof.
  induction a as [|x a IH]; intros [|y b] H.
  - reflexivity.
  - rewrite edit_distance_nil_l, len_cons in H. pose proof (len_nonneg b). lia.
  - rewrite edit_distance_nil_r, len_cons in H. pose proof (len_nonneg a). lia.
  - rewrite edit_distance_cons in H.
    pose proof (edit_distance_nonneg a (y :: b)).
    pose proof (edit_distance_nonneg (x :: a) b).
    pose proof (edit_distance_nonneg a b).
    destruct (Z.eqb_spec x y) as [->|Hne]; [|lia].
    f_equal. apply IH. lia.
Qed.

Lemma edits_length_difference a b n :
  edits a b n -> Z.abs (len a - len b) <= n.
Proof.
  induction 1; rewrite ?len_cons;
    [change (len (@nil char)) with 0; lia | lia..].
Qed.

Lemma edit_distance_delete_bound x a b :
  edit_distance (x :: a) b <= edit_distance a b + 1.
Proof.
  apply edit_distance_least, edits_delete, edit_distance_edits.
Qed.

Lemma edit_distance_insert_bound y a b :
  edit_distance a (y :: b) <= edit_distance a b + 1.
Proof.
  apply edit_distance_least, edits_insert, edit_distance_edits.
Qed.

Lemma edit_distance_both_bound x y a b :
  edit_distance (x :: a) (y :: b)
  <= edit_distance a b + (if x =? y then 0 else 1).
Proof. rewrite edit_distance_cons. lia. Qed.

(** Two edit scripts, one after the other, cost no less than the best
    direct one. *)
Lemma edits_compose a b n :
  edits a b n -> forall c m, edits b c m -> edit_distance a c <= n + m.
Proof.
  induction 1 as [|x a b n H IH|y a b n H IH|x a b n H IH|x y a b n H IH];
    intros c m Hc.
  - apply edits_length_difference in Hc. rewrite edit_distance_nil_l.
    change (len (@nil char)) with 0 in Hc. lia.
  - pose proof (edit_distance_delete_bound x a c).
    specialize (IH c m Hc). lia.
  - remember (y :: b) as yb eqn:E. revert y b H IH E.
    induction Hc as [|x' b' c n' Hc IHc|z b' c n' Hc IHc
                     |x' b' c n' Hc IHc|x' z b' c n' Hc IHc];
      intros y b H IH E; try discriminate.
    + injection E as -> ->. specialize (IH c n' Hc). lia.
    + specialize (IHc y b H IH E).
      pose proof (edit_distance_insert_bound z a c). lia.
    + injection E as -> ->. specialize (IH c n' Hc).
      pose proof (edit_distance_insert_bound y a c). lia.
    + injection E as -> ->. specialize (IH c n' Hc).
      pose proof (edit_distance_insert_bound z a c). lia.
  - remember (x :: b) as xb eqn:E. revert x b H IH E.
    induction Hc as [|x' b' c n' Hc IHc|z b' c n' Hc IHc
                     |x' b' c n' Hc IHc|x' z b' c n' Hc IHc];
      intros x b H IH E; try discriminate.
    + injection E as -> ->. specialize (IH c n' Hc).
      pose proof (edit_distance_delete_bound x a c). lia.
    + specialize (IHc x b H IH E).
      pose proof (edit_distance_insert_bound z (x :: a) c). lia.
    + injection E as -> ->. specialize (IH c n' Hc).
      pose proof (edit_distance_both_bound x x a c).
      rewrite Z.eqb_refl in *. lia.
    + injection E as -> ->. specialize (IH c n' Hc).
      pose proof (edit_distance_both_bound x z a c).
      destruct (x =? z); lia.
  - remember (y :: b) as yb eqn:E. revert y b H IH E.
    induction Hc as [|x' b' c n' Hc IHc|z b' c n' Hc IHc
                     |x' b' c n' Hc IHc|x' z b' c n' Hc IHc];
      intros y b H IH E; try discriminate.
    + injection E as -> ->. specialize (IH c n' Hc).
      pose proof (edit_distance_delete_bound x a c). lia.
    + specialize (IHc y b H IH E).
      pose proof (edit_distance_insert_bound z (x :: a) c). lia.
    + injection E as -> ->. specialize (IH c n' Hc).
      pose proof (edit_distance_both_bound x y a c).
      destruct (x =? y); lia.
    + injection E as -> ->. specialize (IH c n' Hc).
      pose proof (edit_distance_both_bound x z a c).
      destruct (x =? z); lia.
Qed.

Lemma edit_distance_lengths a : forall b,
  edit_distance a b <= Z.max (len a) (len b).
Proof.
  induction a as [|x a IH]; intros [|y b].
  - simpl. unfold len. simpl. lia.
  - rewrite edit_distance_nil_l. lia.
  - rewrite edit_distance_nil_r. lia.
  - pose proof (edit_distance_both_bound x y a b). specialize (IH b).
    rewrite !len_cons. destruct (x =? y); lia.
Qed.

(** [levenshtein_distance] is symmetric, is zero for equal strings only,
    and obeys the triangle inequality. *)
Theorem levenshtein_distance_metric :
  forall s1 s2 s3 : str,
    levenshtein_distance s1 s2 = levenshtein_distance s2 s1
    /\ (levenshtein_distance s1 s2 = 0 <-> s1 = s2)
    /\ levenshtein_distance s1 s3
       <= levenshtein_distance s1 s2 + levenshtein_distance s2 s3.
Proof.
  intros s1 s2 s3. rewrite !levenshtein_distance_is_edit_distance.
  split; [apply edit_distance_sym|]. split.
  - split; [apply edit_distance_zero|]. intros ->. apply edit_distance_same.
  - apply (edits_compose s1 s2); apply edit_distance_edits.
Qed.

(** The distance is at least the difference of the lengths and at most
    the greater length. *)
Theorem levenshtein_distance_length_bounds :
  forall s1 s2 : str,
    Z.abs (len s1 - len s2) <= levenshtein_distance s1 s2
    /\ levenshtein_distance s1 s2 <= Z.max (len s1) (len s2).
Proof.
  intros s1 s2. rewrite levenshtein_distance_is_edit_distance. split.
  - apply edits_length_difference, edit_distance_edits.
  - apply edit_distance_lengths.
Qed.

(** ** Typos: what the tests of the detector amount to *)

Section TyposquatMore.
Context {U : Unicode}.

(** A typo is recorded for a brand of at least four characters and a
    label of at least three exactly when their distance is 1 or 2: the
    test on the difference of the lengths and the test that the label is
    not the brand reject nothing that the distance lets through. *)
Theorem typo_recorded_iff_distance_1_or_2 :
  forall (d : str) (brands : list str) (t : Typo),
    In t (snd (detect_typosquatting d brands)) <->
    In (typo_brand t) brands
    /\ In (typo_label t) (labels (lower_without_www d))
    /\ 4 <= len (typo_brand t)
    /\ 3 <= len (typo_label t)
    /\ (typo_distance t = 1 \/ typo_distance t = 2)
    /\ typo_distance t = levenshtein_distance (typo_label t) (typo_brand t)
    /\ typo_type t = classify_typo_type (typo_brand t) (typo_label t).
Proof.
  intros d brands t. rewrite typo_recorded_iff. unfold typo_condition.
  rewrite levenshtein_distance_is_edit_distance.
  pose proof (edits_length_difference _ _ _
                (edit_distance_edits (typo_label t) (typo_brand t))) as Hd.
  split.
  - intros (Hb & Hl & (H4 & H3 & H02 & _ & _) & E & K).
    repeat split; auto. lia.
  - intros (Hb & Hl & H4 & H3 & H12 & E & K).
    repeat split; auto; try lia.
    intros Heq. rewrite Heq, edit_distance_same in E. lia.
Qed.

End TyposquatMore.

(** ** Typos: a true swap *)

(** A typo of the length of the original that differs from it at two
    neighbouring positions, holding there the characters of the original
    in the other order, is classified [swapped_chars]. *)
Theorem adjacent_swap_is_swapped_chars :
  forall original typo : str,
    len typo = len original ->
    mirrored_adjacent_pair original typo ->
    classify_typo_type original typo = swapped_chars.
Proof. exact mirrored_pair_is_swapped. Qed.

Lemma spedey_mirrored_pair :
  mirrored_adjacent_pair (py "speedy") (py "spedey").
Proof.
  exists 3%nat. split; [vm_compute; lia|]. split.
  - intros j Hj. change (List.length (py "speedy")) with 6%nat in Hj.
    do 6 (destruct j as [|j]; [vm_compute; split; [intros H; try lia; exfalso; apply H; reflexivity | intros [H|H]; try discriminate; intros E; discriminate]|]).
    lia.
  - split; vm_compute; reflexivity.
Qed.

Lemma adjacent_swap_is_swapped_chars_witness :
  classify_typo_type (py "speedy") (py "spedey") = swapped_chars.
Proof.
  apply (adjacent_swap_is_swapped_chars (py "speedy") (py "spedey")).
  - vm_compute. reflexivity.
  - exact spedey_mirrored_pair.
Defined.

(** ** Homoglyph normalisation *)

Lemma normalize_homoglyphs_chars text :
  normalize_homoglyphs text = flat_map normalize_char text.
Proof.
  unfold normalize_homoglyphs. symmetry.
  apply (flat_map_concat_map normalize_char).
Qed.

(** A character is replaced by the one Latin letter of its row, or kept
    when no row has it. *)
Lemma normalize_char_cases c :
  (exists latin, normalize_char c = [latin]
                 /\ In [latin] (map fst HOMOGLYPH_MAP))
  \/ (normalize_char c = [c] /\ mem [c] lookalikes = false).
Proof.
  unfold normalize_char.
  destruct (find (fun entry => mem [c] (snd entry)) HOMOGLYPH_MAP)
    as [[latin hs]|] eqn:F.
  - left. apply find_some in F. destruct F as [Hin _].
    apply (in_map fst) in Hin. cbn [fst] in Hin.
    assert (G : forallb (fun k => (List.length k =? 1)%nat)
                  (map fst HOMOGLYPH_MAP) = true) by (vm_compute; reflexivity).
    rewrite forallb_forall in G. specialize (G latin Hin).
    destruct latin as [|l [|l2 latin]]; try discriminate.
    exists l. auto.
  - right.
    assert (Hm : mem [c] lookalikes = false).
    { unfold lookalikes, mem. apply not_true_is_false. intros H.
      apply existsb_exists in H. destruct H as (h & Hh & E).
      apply in_flat_map in Hh. destruct Hh as (entry & He & Hh).
      apply (find_none _ _ F) in He. cbn beta in He.
      unfold mem in He. apply not_true_iff_false in He. apply He.
      apply existsb_exists. exists h. auto. }
    split; [|assumption].
    destruct (Z.eqb_spec c 48) as [->|Hc]; [|reflexivity].
    vm_compute in Hm. discriminate.
Qed.

(** The Latin letters of the table are in no row of it, and are no
    zero. *)
Lemma latin_is_normal latin :
  In [latin] (map fst HOMOGLYPH_MAP) ->
  normalize_char latin = [latin] /\ mem [latin] lookalikes = false.
Proof.
  intros H. vm_compute in H.
  repeat (destruct H as [H|H];
          [injection H as <-; split; vm_compute; reflexivity|]).
  destruct H.
Qed.

Lemma ascii_not_zero_normal c :
  ascii_not_zero c = true -> normalize_char c = [c].
Proof.
  intros H. unfold ascii_not_zero in H. apply andb_true_iff in H.
  destruct H as [H128 H48]. apply Z.ltb_lt in H128.
  apply negb_true_iff, Z.eqb_neq in H48.
  destruct (normalize_char_cases c) as [(latin & E & Hin)|[E _]];
    [|assumption].
  unfold normalize_char in *.
  destruct (find (fun entry => mem [c] (snd entry)) HOMOGLYPH_MAP)
    as [[l hs]|] eqn:F.
  - exfalso. apply find_some in F. destruct F as [Hin' Hm].
    cbn [snd] in Hm.
    assert (G : forallb
                  (fun h => forallb (fun x => (128 <=? x) || (x =? 48)) h)
                  lookalikes = true) by (vm_compute; reflexivity).
    rewrite forallb_forall in G.
    assert (Hl : In [c] lookalikes).
    { unfold lookalikes. apply in_flat_map. exists (l, hs).
      split; [assumption|]. apply mem_iff. assumption. }
    specialize (G _ Hl). cbn in G. rewrite andb_true_r in G.
    apply orb_true_iff in G. destruct G as [G|G].
    + apply Z.leb_le in G. lia.
    + apply Z.eqb_eq in G. contradiction.
  - destruct (c =? 48) eqn:E48; [apply Z.eqb_eq in E48; contradiction|].
    reflexivity.
Qed.

(** [normalize_homoglyphs] keeps the length of a text; a second pass
    changes nothing; the result holds no look-alike character and no
    zero; and a text of ASCII characters without a zero is left as it
    is. *)
Theorem normalize_homoglyphs_normal_form :
  forall text : str,
    len (normalize_homoglyphs text) = len text
    /\ normalize_homoglyphs (normalize_homoglyphs text)
       = normalize_homoglyphs text
    /\ (forall c, In c (normalize_homoglyphs text) ->
                  mem [c] lookalikes = false)
    /\ (forallb ascii_not_zero text = true ->
        normalize_homoglyphs text = text).
Proof.
  intros text. rewrite !normalize_homoglyphs_chars.
  induction text as [|c text (IHlen & IHidem & IHout & IHascii)].
  - repeat split; auto. intros c [].
  - cbn [flat_map].
    assert (Hc : exists x, normalize_char c = [x]
                           /\ normalize_char x = [x]
                           /\ mem [x] lookalikes = false).
    { destruct (normalize_char_cases c) as [(latin & E & Hin)|[E Hm]].
      - exists latin. split; [assumption|]. apply latin_is_normal. assumption.
      - exists c. split; [assumption|]. split; [|assumption].
        destruct (normalize_char_cases c) as [(latin & E' & Hin)|[E' _]];
          [|assumption].
        rewrite E in E'. injection E' as <-.
        apply latin_is_normal. assumption. }
    destruct Hc as (x & E & Ex & Hx). rewrite E.
    repeat split.
    + cbn [app]. rewrite !len_cons, IHlen. reflexivity.
    + cbn [app flat_map]. rewrite Ex, IHidem. reflexivity.
    + intros c' [<-|Hin]; [assumption | apply IHout; assumption].
    + intros H. cbn [forallb] in H. apply andb_true_iff in H.
      destruct H as [Hc Ht]. rewrite (ascii_not_zero_normal c Hc) in E.
      injection E as <-. cbn [app]. rewrite IHascii by assumption.
      reflexivity.
Qed.

(** ** Homoglyphs: plain text raises no alarm *)

Lemma find_none_all {A} (f : A -> bool) l :
  (forall x, In x l -> f x = false) -> find f l = None.
Proof.
  induction l as [|a l IH]; intros H; simpl; [reflexivity|].
  rewrite (H a) by (left; reflexivity).
  apply IH. intros x Hx. apply H. right. assumption.
Qed.

Lemma homoglyph_hit_plain brand part :
  forallb ascii_not_zero part = true -> homoglyph_hit brand part = false.
Proof.
  intros H. unfold homoglyph_hit.
  destruct ((len part <? 3) || (2 <? Z.abs (len part - len brand)));
    [reflexivity|]. cbv zeta.
  assert (Ha : forallb (fun c => c <? 128) part = true).
  { rewrite forallb_forall in *. intros c Hc. specialize (H c Hc).
    unfold ascii_not_zero in H. apply andb_true_iff in H. tauto. }
  assert (H0 : contains (py "0") part = false).
  { apply not_true_is_false. intros Hc. change (py "0") with [48] in Hc.
    apply contains_char in Hc. rewrite forallb_forall in H.
    specialize (H 48 Hc). vm_compute in H. discriminate. }
  rewrite Ha, H0. reflexivity.
Qed.

Section HomoglyphMore.
Context {U : Unicode}.

(** A domain that, lower-cased and without its www prefix, consists of
    ASCII characters other than the digit zero is no homoglyph of any
    brand. *)
Theorem plain_domain_has_no_homoglyph :
  forall (d : str) (brands : list str),
    forallb ascii_not_zero (lower_without_www d) = true ->
    detect_homoglyphs d brands = (false, []).
Proof.
  intros d brands H. unfold detect_homoglyphs. cbv zeta.
  assert (E : flat_map
                (fun brand =>
                   match find (homoglyph_hit brand)
                           (labels (lower_without_www d)) with
                   | Some part => [part]
                   | None => []
                   end) brands = []).
  { induction brands as [|b brands IH]; [reflexivity|].
    cbn [flat_map]. rewrite IH, find_none_all; [reflexivity|].
    intros part Hp. apply homoglyph_hit_plain.
    pose proof (forallb_split_on ascii_not_zero is_separator _ H) as Hs.
    rewrite forallb_forall in Hs. apply Hs. exact Hp. }
  rewrite E. reflexivity.
Qed.

End HomoglyphMore.

Lemma plain_domain_has_no_homoglyph_witness :
  @detect_homoglyphs ascii_tables (py "econt-bg.tk") BRAND_KEYWORDS
  = (false, []).
Proof.
  apply (@plain_domain_has_no_homoglyph ascii_tables).
  vm_compute. reflexivity.
Defined.

(** ** The brand matcher: every brand once *)

Lemma distinct_NoDup l : distinct l = true -> NoDup l.
Proof.
  induction l as [|x t IH]; intros H; [constructor|].
  cbn [distinct] in H. apply andb_true_iff in H. destruct H as [Hx Ht].
  constructor; [|apply IH; assumption].
  intros Hin. apply mem_iff in Hin. rewrite Hin in Hx. discriminate.
Qed.

Lemma filter_sublist_length {A} (f : A -> bool) l :
  (List.length (filter f l) <= List.length l)%nat.
Proof. induction l as [|a l IH]; simpl; [lia|]. destruct (f a); simpl; lia. Qed.

Section BrandMore.
Context {U : Unicode}.

(** The brands that [contains_brand_impersonation] returns are registered
    brands, each at most once, and the flag beside them tells whether
    there is any. *)
Theorem matched_brands_registered_once :
  forall d : str,
    NoDup (snd (contains_brand_impersonation d))
    /\ (forall brand, In brand (snd (contains_brand_impersonation d)) ->
                      In brand BRAND_KEYWORDS)
    /\ (fst (contains_brand_impersonation d) = true <->
        snd (contains_brand_impersonation d) <> [])
    /\ (List.length (snd (contains_brand_impersonation d))
        <= List.length BRAND_KEYWORDS)%nat.
Proof.
  intros d. unfold contains_brand_impersonation. cbv zeta. cbn [fst snd].
  split.
  { apply NoDup_filter, distinct_NoDup. vm_compute. reflexivity. }
  split.
  { intros brand H. apply filter_In in H. tauto. }
  split.
  { destruct (filter _ BRAND_KEYWORDS) as [|b l].
    - split; [discriminate | congruence].
    - split; [discriminate|]. intros _. apply Z.ltb_lt.
      unfold len. cbn [List.length]. lia. }
  apply filter_sublist_length.
Qed.

End BrandMore.

(** ** The score: Bulgarian context *)

Lemma contains_infix (a b s : str) :
  infix a b -> contains b s = true -> contains a s = true.
Proof.
  intros (p & q & ->) H. apply contains_iff in H.
  destruct H as (x & y & ->). apply contains_iff.
  exists (x ++ p), (q ++ y). rewrite <- !app_assoc. reflexivity.
Qed.

(** A match of a pattern that starts with a literal text holds the text. *)
Lemma search_literal_first l r s :
  search (Seq (Lit l) r) s = true -> contains l s = true.
Proof.
  intros H. apply search_iff in H. destruct H as (pre & post & -> & H).
  apply ends_seq_nonempty in H. destruct H as (s1 & H1 & _).
  apply ends_lit_in in H1. subst post. apply contains_iff. eauto.
Qed.

(** A match of [text1 c? text2] holds [text2]. *)
Lemma search_literal_third l1 p lo hi l2 s :
  search (cat [Lit l1; Rep p lo hi; Lit l2]) s = true ->
  contains l2 s = true.
Proof.
  intros H. apply search_iff in H. destruct H as (pre & post & -> & H).
  unfold cat in H. cbn [fold_right] in H.
  apply ends_seq_nonempty in H. destruct H as (s1 & H1 & H).
  apply ends_seq_nonempty in H. destruct H as (s2 & H2 & H).
  apply ends_seq_nonempty in H. destruct H as (s3 & H3 & _).
  apply ends_lit_in in H1, H3. apply ends_suffix in H2.
  destruct H2 as [mid ->]. subst post s2.
  apply contains_iff. exists (pre ++ l1 ++ mid), s3.
  rewrite <- !app_assoc. reflexivity.
Qed.

Lemma direct_patterns_hold_bg s :
  existsb (fun pattern => search pattern s) direct_impersonation_patterns
  = true ->
  contains (py "bg") s = true.
Proof.
  intros H. apply existsb_exists in H. destruct H as (r & Hr & Hs).
  assert (E : direct_impersonation_patterns
              = map then_bg
                  ["econt"; "speedy"; "bgpost"; "olx"; "sameday"; "easypay";
                   "epay"; "borica"]%string
                ++ map bg_then ["econt"; "speedy"; "post"; "olx"]%string)
    by reflexivity.
  rewrite E in Hr. apply in_app_or in Hr. destruct Hr as [Hr|Hr];
    apply in_map_iff in Hr; destruct Hr as (b & <- & _).
  - unfold then_bg, opt in Hs. apply search_literal_third in Hs. exact Hs.
  - unfold bg_then, cat in Hs. cbn [fold_right] in Hs.
    apply search_literal_first in Hs. exact Hs.
Qed.

Section ContextFacts.
Context {U : Unicode}.

(** Every Bulgarian-context signal holds the letters bg or the word
    bulgaria, which the fallback test looks for. *)
Lemma context_signals_hold_bg d :
  geo_fired d = true \/ abuse_infix_fired d = true
  \/ direct_impersonation_fired d = true ->
  weak_fallback_fired d = true.
Proof.
  unfold geo_fired, abuse_infix_fired, direct_impersonation_fired,
    weak_fallback_fired.
  set (s := lower_without_www d). rewrite orb_true_iff.
  intros [H|[H|H]].
  - apply existsb_exists in H. destruct H as (g & Hg & Hs).
    assert (G : forallb (fun g => contains (py "bg") g
                                  || contains (py "bulgaria") g)
                  GEO_INDICATORS = true) by (vm_compute; reflexivity).
    rewrite forallb_forall in G. specialize (G g Hg).
    apply orb_true_iff in G. destruct G as [G|G]; [left|right];
      (eapply contains_infix; [apply contains_iff; exact G | exact Hs]).
  - left. apply (search_literal_first (py ".bg-")) in H.
    eapply contains_infix; [|exact H].
    exists (py "."), (py "-"). vm_compute. reflexivity.
  - left. apply direct_patterns_hold_bg. exact H.
Qed.

(** The penalty is applied exactly when a brand, homoglyph or typosquat
    match fired and the lower-cased domain holds neither ["bg"] nor
    ["bulgaria"]: the geo indicators, the .bg-XX infix and the
    direct-impersonation patterns all hold one of the two, so the tests
    on them, the one on the direct-impersonation flag included, decide
    nothing beyond that. *)
Theorem penalty_iff_brand_signal_without_bg :
  forall d : str,
    dict_get "non_bg_context_penalty" (snd (calculate_score d))
    = Some (VBool true)
    <-> (brand_fired d || homoglyph_fired d || typosquat_fired d = true
         /\ contains (py "bg") (lower_without_www d) = false
         /\ contains (py "bulgaria") (lower_without_www d) = false).
Proof.
  intros d. unfold calculate_score.
  destruct (signals_spec d) as (st & -> & Hs & Hb & Hd & Hp).
  rewrite Hb, Hd.
  pose proof (context_signals_hold_bg d) as Hc.
  assert (Hw : weak_fallback_fired d
               = contains (py "bg") (lower_without_www d)
                 || contains (py "bulgaria") (lower_without_www d))
    by reflexivity.
  rewrite <- orb_false_iff, <- Hw.
  destruct (brand_fired d || homoglyph_fired d || typosquat_fired d);
    destruct (geo_fired d); destruct (abuse_infix_fired d);
    destruct (direct_impersonation_fired d);
    destruct (weak_fallback_fired d);
    cbn [orb andb negb snd award details];
    rewrite ?Hp, ?dict_get_set_same;
    try (split; [intros; split; congruence | intros [? ?]; congruence]);
    exfalso; assert (false = true) by (apply Hc; auto); discriminate.
Qed.

End ContextFacts.

(** ** The score: its range of values *)

Lemma weight_scale b w : weight b w = w * weight b 1.
Proof. destruct b; unfold weight; lia. Qed.

Lemma weight_unit b : 0 <= weight b 1 <= 1.
Proof. destruct b; unfold weight; lia. Qed.

Lemma weight_unit_zero b : weight b 1 = 0 <-> b = false.
Proof. destruct b; unfold weight; split; (discriminate || reflexivity || lia). Qed.

Lemma startswith_two (p q s : str) :
  startswith p s = true -> startswith q s = true ->
  startswith p q = true \/ startswith q p = true.
Proof.
  revert q s. induction p as [|c p IH]; intros q s Hp Hq; [left; reflexivity|].
  destruct q as [|d q]; [right; reflexivity|].
  destruct s as [|e s]; [discriminate|].
  simpl in Hp, Hq. apply andb_true_iff in Hp, Hq.
  destruct Hp as [Hc Hp], Hq as [Hd Hq].
  apply Z.eqb_eq in Hc, Hd. subst c d.
  simpl. rewrite Z.eqb_refl. simpl. eapply IH; eassumption.
Qed.

Lemma endswith_two (p q s : str) :
  endswith p s = true -> endswith q s = true ->
  endswith p q = true \/ endswith q p = true.
Proof. unfold endswith. apply startswith_two. Qed.

Section ScoreRange.
Context {U : Unicode}.

Lemma calculate_score_value d :
  fst (calculate_score d)
  = clamp (weighted_sum d - (if penalty_due d then 20 else 0)).
Proof.
  unfold calculate_score, penalty_due.
  destruct (signals_spec d) as (st & -> & Hs & Hb & Hd & Hp).
  rewrite Hb, Hd.
  destruct (brand_fired d || homoglyph_fired d || typosquat_fired d),
    (geo_fired d), (abuse_infix_fired d), (weak_fallback_fired d),
    (direct_impersonation_fired d);
    cbn [orb andb negb fst]; unfold clamp; cbn [award score];
    rewrite <- ?Hs; f_equal; f_equal; lia.
Qed.

(** A domain cannot end with a free-hosting suffix and with a suspicious
    TLD at once. *)
Lemma hosting_tld_exclusive d :
  free_hosting_fired d = true -> suspicious_tld_fired d = true -> False.
Proof.
  unfold free_hosting_fired, suspicious_tld_fired. intros Hf Ht.
  apply existsb_exists in Hf, Ht.
  destruct Hf as (f & Hf & Ef), Ht as (t & Ht & Et).
  assert (G : forallb
                (fun f => forallb
                            (fun t => negb (endswith f t) && negb (endswith t f))
                            SUSPICIOUS_TLDS)
                FREE_HOSTING_SUFFIXES = true) by (vm_compute; reflexivity).
  rewrite forallb_forall in G. specialize (G f Hf).
  rewrite forallb_forall in G. specialize (G t Ht).
  apply andb_true_iff in G. destruct G as [G1 G2].
  destruct (endswith_two f t _ Ef Et) as [E|E]; rewrite E in *; discriminate.
Qed.

Lemma weighted_sum_units d :
  weighted_sum d
  = 40 * weight (brand_fired d) 1 + 30 * weight (homoglyph_fired d) 1
    + 25 * weight (typosquat_fired d) 1
    + 25 * weight (free_hosting_fired d) 1
    + 20 * weight (suspicious_tld_fired d) 1
    + 15 * weight (geo_fired d) 1 + 10 * weight (transaction_fired d) 1
    + 10 * weight (hyphens_fired d) 1
    + 10 * weight (numeric_suffix_fired d) 1
    + 10 * weight (stacking_fired d) 1 + 10 * weight (entropy_fired d) 1
    + 10 * weight (abuse_infix_fired d) 1
    + 15 * weight (direct_impersonation_fired d) 1.
Proof.
  unfold weighted_sum.
  rewrite (weight_scale _ 40), (weight_scale _ 30), (weight_scale _ 25),
    (weight_scale (free_hosting_fired d) 25), (weight_scale _ 20),
    (weight_scale (geo_fired d) 15), (weight_scale (transaction_fired d) 10),
    (weight_scale (hyphens_fired d) 10),
    (weight_scale (numeric_suffix_fired d) 10),
    (weight_scale (stacking_fired d) 10),
    (weight_scale (entropy_fired d) 10),
    (weight_scale (abuse_infix_fired d) 10),
    (weight_scale (direct_impersonation_fired d) 15).
  reflexivity.
Qed.

(** The lower bound of the clamp is never needed: the penalty is only
    applied to a sum of at least 25.  So the score is the lesser of 100
    and the sum less the penalty, a penalised domain scores at least 5,
    the score is 0 only when no signal fired, and it is a multiple
    of 5. *)
Theorem score_is_capped_sum :
  forall d : str,
    fst (calculate_score d)
    = Z.min (weighted_sum d - (if penalty_due d then 20 else 0)) 100
    /\ (penalty_due d = true -> 5 <= fst (calculate_score d))
    /\ (fst (calculate_score d) = 0 <-> any_signal d = false)
    /\ (5 | fst (calculate_score d)).
Proof.
  intros d. rewrite calculate_score_value. unfold clamp.
  assert (Hpen : penalty_due d = true -> 25 <= weighted_sum d).
  { unfold penalty_due. intros H. apply andb_true_iff in H.
    destruct H as [H _]. apply andb_true_iff in H. destruct H as [H _].
    rewrite weighted_sum_units.
    pose proof (weight_unit (free_hosting_fired d)).
    pose proof (weight_unit (suspicious_tld_fired d)).
    pose proof (weight_unit (geo_fired d)).
    pose proof (weight_unit (transaction_fired d)).
    pose proof (weight_unit (hyphens_fired d)).
    pose proof (weight_unit (numeric_suffix_fired d)).
    pose proof (weight_unit (stacking_fired d)).
    pose proof (weight_unit (entropy_fired d)).
    pose proof (weight_unit (abuse_infix_fired d)).
    pose proof (weight_unit (direct_impersonation_fired d)).
    assert (Hb : 25 <= 40 * weight (brand_fired d) 1
                      + 30 * weight (homoglyph_fired d) 1
                      + 25 * weight (typosquat_fired d) 1).
    { destruct (brand_fired d), (homoglyph_fired d), (typosquat_fired d);
        try discriminate; unfold weight; lia. }
    lia. }
  assert (Hany : any_signal d = false <-> weighted_sum d = 0).
  { unfold any_signal. rewrite !orb_false_iff, weighted_sum_units.
    rewrite <- !weight_unit_zero.
    pose proof (weight_unit (brand_fired d)).
    pose proof (weight_unit (homoglyph_fired d)).
    pose proof (weight_unit (typosquat_fired d)).
    pose proof (weight_unit (free_hosting_fired d)).
    pose proof (weight_unit (suspicious_tld_fired d)).
    pose proof (weight_unit (geo_fired d)).
    pose proof (weight_unit (transaction_fired d)).
    pose proof (weight_unit (hyphens_fired d)).
    pose proof (weight_unit (numeric_suffix_fired d)).
    pose proof (weight_unit (stacking_fired d)).
    pose proof (weight_unit (entropy_fired d)).
    pose proof (weight_unit (abuse_infix_fired d)).
    pose proof (weight_unit (direct_impersonation_fired d)).
    lia. }
  assert (Hdiv : (5 | weighted_sum d)).
  { rewrite weighted_sum_units.
    exists (8 * weight (brand_fired d) 1 + 6 * weight (homoglyph_fired d) 1
            + 5 * weight (typosquat_fired d) 1
            + 5 * weight (free_hosting_fired d) 1
            + 4 * weight (suspicious_tld_fired d) 1
            + 3 * weight (geo_fired d) 1 + 2 * weight (transaction_fired d) 1
            + 2 * weight (hyphens_fired d) 1
            + 2 * weight (numeric_suffix_fired d) 1
            + 2 * weight (stacking_fired d) 1 + 2 * weight (entropy_fired d) 1
            + 2 * weight (abuse_infix_fired d) 1
            + 3 * weight (direct_impersonation_fired d) 1).
    lia. }
  assert (H0 : 0 <= weighted_sum d).
  { clear Hany Hpen Hdiv. rewrite weighted_sum_units.
    pose proof (weight_unit (brand_fired d)).
    pose proof (weight_unit (homoglyph_fired d)).
    pose proof (weight_unit (typosquat_fired d)).
    pose proof (weight_unit (free_hosting_fired d)).
    pose proof (weight_unit (suspicious_tld_fired d)).
    pose proof (weight_unit (geo_fired d)).
    pose proof (weight_unit (transaction_fired d)).
    pose proof (weight_unit (hyphens_fired d)).
    pose proof (weight_unit (numeric_suffix_fired d)).
    pose proof (weight_unit (stacking_fired d)).
    pose proof (weight_unit (entropy_fired d)).
    pose proof (weight_unit (abuse_infix_fired d)).
    pose proof (weight_unit (direct_impersonation_fired d)).
    lia. }
  destruct Hdiv as [k Hk].
  destruct (penalty_due d) eqn:P.
  - specialize (Hpen eq_refl).
    split; [lia|]. split; [intros _; lia|]. split.
    + split; [intros H; exfalso; lia | intros H; apply Hany in H; lia].
    + destruct (Z.min_spec (Z.max (weighted_sum d - 20) 0) 100)
        as [[_ ->]|[_ ->]].
      * exists (k - 4). lia.
      * exists 20. lia.
  - split; [lia|]. split; [discriminate|]. split.
    + split; [intros H; apply Hany; lia | intros H; apply Hany in H; lia].
    + destruct (Z.min_spec (Z.max (weighted_sum d - 0) 0) 100)
        as [[_ ->]|[_ ->]].
      * exists k. lia.
      * exists 20. lia.
Qed.

End ScoreRange.

(** ** The score: the details *)

Ltac frame_block :=
  intros;
  unfold brand_block, homoglyph_block, typosquatting_block,
    free_hosting_block, suspicious_tld_block, geo_block, transaction_block,
    hyphen_block, numeric_suffix_block, stacking_block, entropy_block,
    bg_tld_abuse_block, weak_context_block, direct_impersonation_block,
    award, bg_context;
  cbv zeta;
  repeat (match goal with
          | |- context [if ?c then _ else _] => destruct c
          | |- context [match find ?f ?l with _ => _ end] =>
              destruct (find f l)
          end);
  cbn [details];
  rewrite ?dict_get_set_other, ?dict_get_append_other by congruence;
  reflexivity.

Section DetailsFacts.
Context {U : Unicode}.

Lemma brand_block_frame b l st k :
  k <> "brand_keywords"%string ->
  dict_get k (details (brand_block b l st)) = dict_get k (details st).
Proof. frame_block. Qed.

Lemma homoglyph_block_frame b l st k :
  k <> "homoglyphs_detected"%string -> k <> "homoglyphs_used"%string ->
  dict_get k (details (homoglyph_block b l st)) = dict_get k (details st).
Proof. frame_block. Qed.

Lemma typosquatting_block_frame b l st k :
  k <> "typosquatting_detected"%string ->
  k <> "typosquatting_details"%string ->
  dict_get k (details (typosquatting_block b l st)) = dict_get k (details st).
Proof. frame_block. Qed.

Lemma free_hosting_block_frame s st k :
  k <> "free_hosting"%string ->
  dict_get k (details (free_hosting_block s st)) = dict_get k (details st).
Proof. frame_block. Qed.

Lemma suspicious_tld_block_frame s st k :
  k <> "suspicious_tld"%string ->
  dict_get k (details (suspicious_tld_block s st)) = dict_get k (details st).
Proof. frame_block. Qed.

Lemma geo_block_frame s st k :
  k <> "geo_indicators"%string ->
  dict_get k (details (geo_block s st)) = dict_get k (details st).
Proof. frame_block. Qed.

Lemma transaction_block_frame s st k :
  k <> "transaction_keywords"%string ->
  dict_get k (details (transaction_block s st)) = dict_get k (details st).
Proof. frame_block. Qed.

Lemma hyphen_block_frame s st k :
  k <> "multiple_hyphens"%string ->
  dict_get k (details (hyphen_block s st)) = dict_get k (details st).
Proof. frame_block. Qed.

Lemma numeric_suffix_block_frame s st k :
  k <> "numeric_suffix"%string ->
  dict_get k (details (numeric_suffix_block s st)) = dict_get k (details st).
Proof. frame_block. Qed.

Lemma stacking_block_frame s st k :
  k <> "subdomain_stacking"%string ->
  dict_get k (details (stacking_block s st)) = dict_get k (details st).
Proof. frame_block. Qed.

Lemma entropy_block_frame s st k :
  k <> "high_entropy"%string ->
  dict_get k (details (entropy_block s st)) = dict_get k (details st).
Proof. frame_block. Qed.

Lemma bg_tld_abuse_block_frame s st k :
  k <> "bg_tld_abuse"%string ->
  dict_get k (details (bg_tld_abuse_block s st)) = dict_get k (details st).
Proof. frame_block. Qed.

Lemma weak_context_block_frame s st k :
  dict_get k (details (weak_context_block s st)) = dict_get k (details st).
Proof. frame_block. Qed.

Lemma direct_impersonation_block_frame s st k :
  k <> "direct_impersonation"%string ->
  dict_get k (details (direct_impersonation_block s st))
  = dict_get k (details st).
Proof. frame_block. Qed.

End DetailsFacts.

Lemma dict_set_present k k' v d :
  dict_get k d <> None -> dict_get k (dict_set k' v d) <> None.
Proof.
  intros H. destruct (String.eqb_spec k k') as [->|Hne].
  - rewrite dict_get_set_same. discriminate.
  - rewrite dict_get_set_other by assumption. assumption.
Qed.

Lemma dict_append_present k k' x d :
  dict_get k d <> None -> dict_get k (dict_append k' x d) <> None.
Proof.
  intros H. unfold dict_append.
  destruct (dict_get k' d) as [[]|]; try assumption.
  apply dict_set_present. assumption.
Qed.

Ltac keeps_block :=
  unfold keeps_keys; intros;
  unfold brand_block, homoglyph_block, typosquatting_block,
    free_hosting_block, suspicious_tld_block, geo_block, transaction_block,
    hyphen_block, numeric_suffix_block, stacking_block, entropy_block,
    bg_tld_abuse_block, weak_context_block, direct_impersonation_block,
    award, bg_context;
  cbv zeta;
  repeat (match goal with
          | |- context [if ?c then _ else _] => destruct c
          | |- context [match find ?f ?l with _ => _ end] =>
              destruct (find f l)
          end);
  cbn [details];
  repeat (apply dict_set_present || apply dict_append_present);
  assumption.

Lemma keeps_keys_trans st1 st2 st3 :
  keeps_keys st1 st2 -> keeps_keys st2 st3 -> keeps_keys st1 st3.
Proof. unfold keeps_keys. auto. Qed.

Section DetailsKeys.
Context {U : Unicode}.

Lemma brand_block_keeps b l st : keeps_keys st (brand_block b l st).
Proof. keeps_block. Qed.

Lemma homoglyph_block_keeps b l st : keeps_keys st (homoglyph_block b l st).
Proof. keeps_block. Qed.

Lemma typosquatting_block_keeps b l st : keeps_keys st (typosquatting_block b l st).
Proof. keeps_block. Qed.

Lemma free_hosting_block_keeps s st : keeps_keys st (free_hosting_block s st).
Proof. keeps_block. Qed.

Lemma suspicious_tld_block_keeps s st : keeps_keys st (suspicious_tld_block s st).
Proof. keeps_block. Qed.

Lemma geo_block_keeps s st : keeps_keys st (geo_block s st).
Proof. keeps_block. Qed.

Lemma transaction_block_keeps s st : keeps_keys st (transaction_block s st).
Proof. keeps_block. Qed.

Lemma hyphen_block_keeps s st : keeps_keys st (hyphen_block s st).
Proof. keeps_block. Qed.

Lemma numeric_suffix_block_keeps s st : keeps_keys st (numeric_suffix_block s st).
Proof. keeps_block. Qed.

Lemma stacking_block_keeps s st : keeps_keys st (stacking_block s st).
Proof. keeps_block. Qed.

Lemma entropy_block_keeps s st : keeps_keys st (entropy_block s st).
Proof. keeps_block. Qed.

Lemma bg_tld_abuse_block_keeps s st : keeps_keys st (bg_tld_abuse_block s st).
Proof. keeps_block. Qed.

Lemma weak_context_block_keeps s st : keeps_keys st (weak_context_block s st).
Proof. keeps_block. Qed.

Lemma direct_impersonation_block_keeps s st : keeps_keys st (direct_impersonation_block s st).
Proof. keeps_block. Qed.

Lemma signals_keep_keys d :
  forall k, dict_get k initial_details <> None ->
            dict_get k (details (snd (signals d))) <> None.
Proof.
  unfold signals.
  destruct (contains_brand_impersonation d) as [has_brand matched_brands].
  destruct (detect_homoglyphs d BRAND_KEYWORDS)
    as [has_homoglyphs homoglyphs_list].
  destruct (detect_typosquatting d BRAND_KEYWORDS) as [has_typos typos_list].
  cbv zeta. cbn [snd].
  set (st0 := {| score := 0; details := initial_details;
                 has_bg_context := false |}).
  assert (G : keeps_keys st0
                (direct_impersonation_block (lower_without_www d)
                   (weak_context_block (lower_without_www d)
                      (bg_tld_abuse_block (lower_without_www d)
                         (entropy_block (lower_without_www d)
                            (stacking_block (lower_without_www d)
                               (numeric_suffix_block (lower_without_www d)
                                  (hyphen_block (lower_without_www d)
                                     (transaction_block (lower_without_www d)
                                        (geo_block (lower_without_www d)
                                           (suspicious_tld_block
                                              (lower_without_www d)
                                              (free_hosting_block
                                                 (lower_without_www d)
                                                 (typosquatting_block
                                                    has_typos typos_list
                                                    (homoglyph_block
                                                       has_homoglyphs
                                                       homoglyphs_list
                                                       (brand_block has_brand
                                                          matched_brands
                                                          st0))))))))))))))).
  { repeat (eapply keeps_keys_trans;
            [|first [ apply brand_block_keeps 
                    | apply homoglyph_block_keeps 
                    | apply typosquatting_block_keeps 
                    | apply free_hosting_block_keeps 
                    | apply suspicious_tld_block_keeps 
                    | apply geo_block_keeps 
                    | apply transaction_block_keeps 
                    | apply hyphen_block_keeps 
                    | apply numeric_suffix_block_keeps 
                    | apply stacking_block_keeps 
                    | apply entropy_block_keeps 
                    | apply bg_tld_abuse_block_keeps 
                    | apply weak_context_block_keeps 
                    | apply direct_impersonation_block_keeps ]]).
    unfold keeps_keys. auto. }
  exact G.
Qed.

(** The penalty step leaves every other key of the details alone. *)
Lemma calculate_score_details d k :
  k <> "non_bg_context_penalty"%string ->
  dict_get k (snd (calculate_score d))
  = dict_get k (details (snd (signals d))).
Proof.
  intros Hk. unfold calculate_score.
  destruct (signals d) as [[[has_brand has_homoglyphs] has_typos] st].
  cbv zeta. cbn [snd].
  destruct (_ && _ && _); [|reflexivity].
  cbn [award details]. apply dict_get_set_other. assumption.
Qed.

(** The thirteen keys that [calculate_score] starts its details with are
    in the details that it returns: reading one of them, as
    [scan_domains] and [main] do, does not fail. *)
Theorem details_have_their_keys :
  forall (d : str) (k : string),
    In k (map fst initial_details) ->
    dict_get k (snd (calculate_score d)) <> None.
Proof.
  intros d k Hk.
  assert (Hi : dict_get k initial_details <> None).
  { cbn in Hk.
    repeat (destruct Hk as [<-|Hk]; [vm_compute; discriminate|]).
    destruct Hk. }
  assert (Hne : k <> "non_bg_context_penalty"%string).
  { intros ->. apply Hi. reflexivity. }
  rewrite calculate_score_details by assumption.
  apply signals_keep_keys. assumption.
Qed.

End DetailsKeys.

Lemma details_have_their_keys_witness :
  dict_get "typosquatting_details"
    (snd (@calculate_score ascii_tables (py "spedy-bg.tk"))) <> None.
Proof.
  apply (@details_have_their_keys ascii_tables).
  vm_compute. do 12 right. left. reflexivity.
Defined.

Ltac frames :=
  rewrite ?direct_impersonation_block_frame, ?weak_context_block_frame,
    ?bg_tld_abuse_block_frame, ?entropy_block_frame, ?stacking_block_frame,
    ?numeric_suffix_block_frame, ?hyphen_block_frame,
    ?transaction_block_frame, ?geo_block_frame, ?suspicious_tld_block_frame,
    ?free_hosting_block_frame, ?typosquatting_block_frame,
    ?homoglyph_block_frame, ?brand_block_frame
    by discriminate.

Ltac open_signals d :=
  unfold signals;
  destruct (contains_brand_impersonation d) as [has_brand matched_brands];
  destruct (detect_homoglyphs d BRAND_KEYWORDS)
    as [has_homoglyphs homoglyphs_list];
  destruct (detect_typosquatting d BRAND_KEYWORDS) as [has_typos typos_list];
  cbv zeta; cbn [snd].

Section DetailsValues.
Context {U : Unicode}.

Lemma signals_geo_indicators d :
  dict_get "geo_indicators" (details (snd (signals d)))
  = Some (VStrs (first_match
                   (fun geo => contains geo (lower_without_www d))
                   GEO_INDICATORS)).
Proof.
  open_signals d. frames.
  unfold geo_block, first_match. destruct (find _ GEO_INDICATORS).
  - cbn [details award bg_context]. unfold dict_append. frames.
    cbn [details]. change (dict_get "geo_indicators" initial_details)
      with (Some (VStrs [])).
    apply dict_get_set_same.
  - frames. reflexivity.
Qed.

Lemma signals_transaction_keywords d :
  dict_get "transaction_keywords" (details (snd (signals d)))
  = Some (VStrs (first_match
                   (fun keyword => contains keyword (lower_without_www d))
                   TRANSACTION_KEYWORDS)).
Proof.
  open_signals d. frames.
  unfold transaction_block, first_match.
  destruct (find _ TRANSACTION_KEYWORDS).
  - cbn [details award bg_context]. unfold dict_append. frames.
    cbn [details]. change (dict_get "transaction_keywords" initial_details)
      with (Some (VStrs [])).
    apply dict_get_set_same.
  - frames. reflexivity.
Qed.

Lemma signals_free_hosting d :
  dict_get "free_hosting" (details (snd (signals d)))
  = Some (match find (fun suffix => endswith suffix (lower_without_www d))
                  FREE_HOSTING_SUFFIXES with
          | Some suffix => VStr suffix
          | None => VNone
          end).
Proof.
  open_signals d. frames.
  unfold free_hosting_block. destruct (find _ FREE_HOSTING_SUFFIXES).
  - cbn [details award]. apply dict_get_set_same.
  - frames. reflexivity.
Qed.

Lemma signals_suspicious_tld d :
  dict_get "suspicious_tld" (details (snd (signals d)))
  = Some (match find (fun tld => endswith tld (lower_without_www d))
                  SUSPICIOUS_TLDS with
          | Some tld => VStr tld
          | None => VNone
          end).
Proof.
  open_signals d. frames.
  unfold suspicious_tld_block. destruct (find _ SUSPICIOUS_TLDS).
  - cbn [details award]. apply dict_get_set_same.
  - frames. reflexivity.
Qed.

Lemma first_match_short {A} (f : A -> bool) l :
  (List.length (first_match f l) <= 1)%nat.
Proof. unfold first_match. destruct (find f l); simpl; lia. Qed.

(** The lists under the keys [geo_indicators] and [transaction_keywords]
    of the details hold at most one entry each: the first indicator, or
    keyword, of the configured list that occurs in the lower-cased
    domain. *)
Theorem details_record_first_match_only :
  forall d : str,
    exists geo keywords : list str,
      dict_get "geo_indicators" (snd (calculate_score d)) = Some (VStrs geo)
      /\ dict_get "transaction_keywords" (snd (calculate_score d))
         = Some (VStrs keywords)
      /\ geo = first_match (fun g => contains g (lower_without_www d))
                 GEO_INDICATORS
      /\ keywords = first_match (fun kw => contains kw (lower_without_www d))
                      TRANSACTION_KEYWORDS
      /\ (List.length geo <= 1)%nat /\ (List.length keywords <= 1)%nat.
Proof.
  intros d. eexists. eexists.
  rewrite !calculate_score_details by discriminate.
  rewrite signals_geo_indicators, signals_transaction_keywords.
  repeat split; apply first_match_short.
Qed.

(** Before the penalty and the clamp the score is between 0 and 210, not
    the full sum of the weights: no domain has both a free-hosting suffix
    and a suspicious TLD, and the details never carry both. *)
Theorem raw_score_at_most_210 :
  forall d : str,
    0 <= score (snd (signals d)) <= 210
    /\ (dict_get "free_hosting" (snd (calculate_score d)) = Some VNone
        \/ dict_get "suspicious_tld" (snd (calculate_score d)) = Some VNone).
Proof.
  intros d.
  assert (Hx : free_hosting_fired d = true ->
               suspicious_tld_fired d = true -> False)
    by apply hosting_tld_exclusive.
  split.
  - destruct (signals_spec d) as (st & E & Hs & _). rewrite E. cbn [snd].
    rewrite Hs, weighted_sum_units.
    assert (Hft : 0 <= weight (free_hosting_fired d) 1
                  /\ 0 <= weight (suspicious_tld_fired d) 1
                  /\ weight (free_hosting_fired d) 1
                     + weight (suspicious_tld_fired d) 1 <= 1).
    { destruct (free_hosting_fired d), (suspicious_tld_fired d);
        unfold weight; try lia; exfalso; auto. }
    pose proof (weight_unit (brand_fired d)).
    pose proof (weight_unit (homoglyph_fired d)).
    pose proof (weight_unit (typosquat_fired d)).
    pose proof (weight_unit (geo_fired d)).
    pose proof (weight_unit (transaction_fired d)).
    pose proof (weight_unit (hyphens_fired d)).
    pose proof (weight_unit (numeric_suffix_fired d)).
    pose proof (weight_unit (stacking_fired d)).
    pose proof (weight_unit (entropy_fired d)).
    pose proof (weight_unit (abuse_infix_fired d)).
    pose proof (weight_unit (direct_impersonation_fired d)).
    lia.
  - rewrite !calculate_score_details by discriminate.
    rewrite signals_free_hosting, signals_suspicious_tld.
    unfold free_hosting_fired, suspicious_tld_fired in Hx.
    rewrite !existsb_find in Hx.
    destruct (find _ FREE_HOSTING_SUFFIXES); [|left; reflexivity].
    destruct (find _ SUSPICIOUS_TLDS); [|right; reflexivity].
    exfalso. auto.
Qed.

End DetailsValues.

(** The sum of 210 is reached, and the score is then capped at 100. *)
Example raw_score_reaches_210 :
  score (snd (@signals ascii_tables
    (py "xkcdaqrstvwz.econt-bg.ec0nt.login-123.speedy.bg-pv.cfd.web.app")))
  = 210
  /\ fst (@calculate_score ascii_tables
    (py "xkcdaqrstvwz.econt-bg.ec0nt.login-123.speedy.bg-pv.cfd.web.app"))
     = 100.
Proof. split; vm_compute; reflexivity. Qed.

(** ** The feed file *)

Lemma json_text_step c c2 t :
  json_text (c :: c2 :: t)
  = if is_high_surrogate c && is_low_surrogate c2
    then (65536 + (c - 55296) * 1024 + (c2 - 56320)) :: json_text t
    else c :: json_text (c2 :: t).
Proof. reflexivity. Qed.

Lemma surrogate_pair_free_step c c2 t :
  surrogate_pair_free (c :: c2 :: t)
  = negb (is_high_surrogate c && is_low_surrogate c2)
    && surrogate_pair_free (c2 :: t).
Proof. reflexivity. Qed.

(** A string without such a pair is read back as it was written. *)
Lemma json_text_fixed s : surrogate_pair_free s = true -> json_text s = s.
Proof.
  induction s as [|c t IH]; [reflexivity|].
  destruct t as [|c2 t]; [reflexivity|].
  rewrite surrogate_pair_free_step, json_text_step. intros H.
  apply andb_true_iff in H. destruct H as [H1 H2].
  apply negb_true_iff in H1. rewrite H1, (IH H2). reflexivity.
Qed.

Lemma surrogate_pair_free_after a l :
  is_high_surrogate a = false ->
  surrogate_pair_free (a :: l) = surrogate_pair_free l.
Proof.
  intros H. destruct l as [|x r]; [reflexivity|].
  rewrite surrogate_pair_free_step, H. reflexivity.
Qed.

Lemma joined_no_surrogate c c2 :
  is_high_surrogate c && is_low_surrogate c2 = true ->
  is_high_surrogate (65536 + (c - 55296) * 1024 + (c2 - 56320)) = false
  /\ is_low_surrogate (65536 + (c - 55296) * 1024 + (c2 - 56320)) = false.
Proof.
  unfold is_high_surrogate, is_low_surrogate. intros H.
  apply andb_true_iff in H. destruct H as [H1 H2].
  apply andb_true_iff in H1, H2. destruct H1 as [H1 _], H2 as [H2 _].
  apply Z.leb_le in H1, H2.
  split; apply andb_false_iff; right; apply Z.leb_gt; lia.
Qed.

Lemma json_text_head c t :
  exists x r, json_text (c :: t) = x :: r
              /\ (x = c \/ is_low_surrogate x = false).
Proof.
  destruct t as [|c2 t]; [exists c, []; auto|].
  rewrite json_text_step.
  destruct (is_high_surrogate c && is_low_surrogate c2) eqn:E.
  - eexists. eexists. split; [reflexivity|]. right.
    apply joined_no_surrogate. assumption.
  - eexists. eexists. split; [reflexivity|]. left. reflexivity.
Qed.

Lemma json_text_pair_free_upto (n : nat) : forall s,
  (List.length s <= n)%nat -> surrogate_pair_free (json_text s) = true.
Proof.
  induction n as [|n IH]; intros s Hn.
  - destruct s; [reflexivity | cbn [List.length] in Hn; lia].
  - destruct s as [|c [|c2 t]]; [reflexivity | reflexivity |].
    cbn [List.length] in Hn. rewrite json_text_step.
    destruct (is_high_surrogate c && is_low_surrogate c2) eqn:E.
    + rewrite surrogate_pair_free_after
        by (apply joined_no_surrogate; assumption).
      apply IH. lia.
    + destruct (json_text_head c2 t) as (x & r & Ex & Hx).
      assert (G : surrogate_pair_free (json_text (c2 :: t)) = true)
        by (apply IH; cbn [List.length]; lia).
      rewrite Ex in *. rewrite surrogate_pair_free_step, G.
      destruct Hx as [->|Hx].
      * rewrite E. reflexivity.
      * rewrite Hx, andb_false_r. reflexivity.
Qed.

(** What was read is read back as it is. *)
Lemma json_text_again s : json_text (json_text s) = json_text s.
Proof.
  apply json_text_fixed.
  apply (json_text_pair_free_upto (List.length s)), le_n.
Qed.

Lemma json_texts_again l :
  map json_text (map json_text l) = map json_text l.
Proof.
  rewrite map_map. apply map_ext. intros s. apply json_text_again.
Qed.

Lemma json_value_again v : json_value (json_value v) = json_value v.
Proof.
  destruct v as [|b|s|l|l]; cbn [json_value]; try reflexivity.
  - rewrite json_text_again. reflexivity.
  - rewrite json_texts_again. reflexivity.
  - rewrite map_map. f_equal. apply map_ext. intros [b t n k].
    unfold json_typo. cbn [typo_brand typo_label typo_distance typo_type].
    rewrite !json_text_again. reflexivity.
Qed.

Lemma json_entry_again e : json_entry (json_entry e) = json_entry e.
Proof.
  destruct e as [d sc det src]. unfold json_entry.
  cbn [entry_domain entry_score entry_details entry_source].
  rewrite !json_text_again. f_equal.
  unfold json_dict. rewrite map_map. apply map_ext.
  intros [k v]. rewrite json_value_again. reflexivity.
Qed.

(** Writing what was loaded, and loading it, gives what was loaded. *)
Lemma load_existing_feed_again file :
  map json_entry (load_existing_feed file) = load_existing_feed file.
Proof.
  destruct file as [| |l]; cbn [load_existing_feed map]; try reflexivity.
  rewrite map_map. apply map_ext. intros e. apply json_entry_again.
Qed.

Lemma feed_domains_app f g :
  feed_domains (f ++ g) = feed_domains f ++ feed_domains g.
Proof. apply map_app. Qed.

Lemma feed_domains_json l :
  feed_domains (map json_entry l) = map json_text (feed_domains l).
Proof. unfold feed_domains. rewrite !map_map. reflexivity. Qed.

Lemma in_feed_domains domain f :
  existsb (fun entry => eqb (entry_domain entry) domain) f
  = mem domain (feed_domains f).
Proof.
  induction f as [|e f IH]; [reflexivity|].
  cbn [existsb feed_domains map mem]. fold (feed_domains f).
  rewrite IH. f_equal. apply Bool.eq_iff_eq_true.
  rewrite !eqb_eq. split; congruence.
Qed.

Lemma feed_domains_scanner_entries {U : Unicode} l :
  feed_domains (map scanner_entry l) = l.
Proof.
  unfold feed_domains. rewrite map_map. cbn [scanner_entry entry_domain].
  apply map_id.
Qed.

Lemma map_fixed {A} (f : A -> A) l :
  (forall x, In x l -> f x = x) -> map f l = l.
Proof.
  intros H. induction l as [|a l IH]; [reflexivity|]. cbn [map].
  rewrite (H a) by (left; reflexivity).
  rewrite IH by (intros x Hx; apply H; right; assumption). reflexivity.
Qed.

Lemma add_to_feed_cases outcome domain sc det source file :
  (In domain (feed_domains (load_existing_feed file))
   /\ add_to_feed outcome domain sc det source file = file)
  \/ (~ In domain (feed_domains (load_existing_feed file))
      /\ add_to_feed outcome domain sc det source file
         = save_feed outcome
             (load_existing_feed file
              ++ [ {| entry_domain := domain; entry_score := sc;
                      entry_details := det; entry_source := source |} ])
             file).
Proof.
  unfold add_to_feed. cbv zeta. rewrite in_feed_domains.
  destruct (mem domain (feed_domains (load_existing_feed file))) eqn:E.
  - left. split; [apply mem_iff; assumption|reflexivity].
  - right. split; [|reflexivity]. intros H. apply mem_iff in H. congruence.
Qed.

Lemma load_saved file e file' :
  load_existing_feed
    (save_feed Saved (load_existing_feed file ++ [e]) file')
  = load_existing_feed file ++ [json_entry e].
Proof.
  cbn [save_feed load_existing_feed].
  rewrite map_app, load_existing_feed_again. reflexivity.
Qed.

(** Whatever becomes of the writing, a call adds at most one entry. *)
Lemma add_to_feed_length outcome domain sc det source file :
  (List.length (load_existing_feed
                  (add_to_feed outcome domain sc det source file))
   <= List.length (load_existing_feed file) + 1)%nat.
Proof.
  destruct (add_to_feed_cases outcome domain sc det source file)
    as [[_ E]|[_ E]]; rewrite E; [lia|].
  destruct outcome.
  - rewrite load_saved, length_app. cbn [List.length]. lia.
  - cbn [save_feed]. lia.
  - cbn [save_feed load_existing_feed List.length]. lia.
Qed.

(** [add_to_feed] keeps one entry per domain, when the feed is written
    and the domain is read back from the file as it was written: then the
    domain is in the feed; the entries that were there stay in place and
    as they were, followed by at most one new entry; a feed without two
    entries of a domain stays so; and a second call for the domain, with
    whatever score, details and source, leaves the file as it is. *)
Theorem add_to_feed_one_entry_per_domain :
  forall (domain : str) (sc : Z) (det : dict) (source : str)
         (file : FeedFile),
    json_text domain = domain ->
    let file' := add_to_feed Saved domain sc det source file in
    In domain (feed_domains (load_existing_feed file'))
    /\ (exists new,
          load_existing_feed file' = load_existing_feed file ++ new
          /\ (List.length new <= 1)%nat
          /\ forall e, In e new ->
               e = json_entry
                     {| entry_domain := domain; entry_score := sc;
                        entry_details := det; entry_source := source |})
    /\ (NoDup (feed_domains (load_existing_feed file)) ->
        NoDup (feed_domains (load_existing_feed file')))
    /\ forall outcome sc' det' source',
         add_to_feed outcome domain sc' det' source' file' = file'.
Proof.
  intros domain sc det source file Hj file'. subst file'.
  destruct (add_to_feed_cases Saved domain sc det source file)
    as [[Hin E]|[Hn E]]; rewrite E.
  - split; [assumption|]. split.
    { exists []. rewrite app_nil_r. repeat split; [simpl; lia|].
      intros e []. }
    split; [auto|]. intros outcome sc' det' source'.
    destruct (add_to_feed_cases outcome domain sc' det' source' file)
      as [[_ E']|[Hn' _]]; [exact E'|contradiction].
  - rewrite load_saved.
    assert (Hin : In domain
                    (feed_domains
                       (load_existing_feed file
                        ++ [json_entry
                              {| entry_domain := domain; entry_score := sc;
                                 entry_details := det;
                                 entry_source := source |}]))).
    { rewrite feed_domains_app. apply in_or_app. right. left.
      cbn [json_entry entry_domain]. assumption. }
    split; [assumption|]. split.
    { eexists. split; [reflexivity|]. split; [simpl; lia|].
      intros e [<-|[]]. reflexivity. }
    split.
    { intros Hnd. rewrite feed_domains_app.
      cbn [feed_domains map json_entry entry_domain]. rewrite Hj.
      apply NoDup_app.
      - assumption.
      - constructor; [intros []|constructor].
      - intros x Hx [<-|[]]. contradiction. }
    intros outcome sc' det' source'.
    match goal with |- add_to_feed _ _ _ _ _ ?g = _ =>
      destruct (add_to_feed_cases outcome domain sc' det' source' g)
        as [[_ E']|[Hn' _]] end; [exact E'|].
    exfalso. apply Hn'. rewrite load_saved. exact Hin.
Qed.

Lemma add_to_feed_one_entry_per_domain_witness :
  In (py "econt-bg.tk")
    (feed_domains
       (load_existing_feed
          (add_to_feed Saved (py "econt-bg.tk") 90 [] (py "scanner")
             NoFile)))
  /\ (exists new,
        load_existing_feed
          (add_to_feed Saved (py "econt-bg.tk") 90 [] (py "scanner") NoFile)
        = load_existing_feed NoFile ++ new
        /\ (List.length new <= 1)%nat
        /\ forall e, In e new ->
             e = json_entry
                   {| entry_domain := py "econt-bg.tk"; entry_score := 90;
                      entry_details := []; entry_source := py "scanner" |})
  /\ (NoDup (feed_domains (load_existing_feed NoFile)) ->
      NoDup (feed_domains
               (load_existing_feed
                  (add_to_feed Saved (py "econt-bg.tk") 90 []
                     (py "scanner") NoFile))))
  /\ forall outcome sc' det' source',
       add_to_feed outcome (py "econt-bg.tk") sc' det' source'
         (add_to_feed Saved (py "econt-bg.tk") 90 [] (py "scanner") NoFile)
       = add_to_feed Saved (py "econt-bg.tk") 90 [] (py "scanner") NoFile.
Proof.
  apply (add_to_feed_one_entry_per_domain (py "econt-bg.tk") 90 []
           (py "scanner") NoFile).
  vm_compute. reflexivity.
Defined.

(** A domain with a high surrogate followed by a low one is read back as
    another string, and a second call adds a second entry. *)
Example surrogate_pair_domain_added_twice :
  json_text [55357; 56832; 46; 116; 107] = [128512; 46; 116; 107]
  /\ List.length
       (load_existing_feed
          (add_to_feed Saved [55357; 56832; 46; 116; 107] 90 []
             (py "scanner")
             (add_to_feed Saved [55357; 56832; 46; 116; 107] 90 []
                (py "scanner") NoFile))) = 2%nat.
Proof. split; vm_compute; reflexivity. Qed.

(** A write that fails after the file was opened loses the feed. *)
Example failed_write_loses_feed :
  load_existing_feed
    (add_to_feed WriteFailed (py "econt-bg.tk") 90 [] (py "scanner")
       (Dumped [ {| entry_domain := py "speedy-bg.cfd"; entry_score := 75;
                    entry_details := []; entry_source := py "scanner" |} ]))
  = [].
Proof. vm_compute. reflexivity. Qed.

Section ScanRun.
Context {U : Unicode}.

(** The body of the loop in one piece: the second test on the score, for
    domains without a brand, changes nothing of the result. *)
Lemma scan_one_summary outcome c st :
  scan_one outcome c st
  = if skipped (strip c) st then st
    else {| processed_domains := strip c :: processed_domains st;
            findings_count :=
              if admitted (strip c) && finding (strip c)
              then findings_count st + 1 else findings_count st;
            feed :=
              if admitted (strip c) && finding (strip c)
              then add_to_feed outcome (strip c)
                     (fst (calculate_score (strip c)))
                     (snd (calculate_score (strip c))) (py "scanner")
                     (feed st)
              else feed st;
            scored :=
              if admitted (strip c) then scored st ++ [strip c]
              else scored st |}.
Proof.
  unfold scan_one, skipped, admitted, finding. cbv zeta.
  destruct (eqb (strip c) [] || startswith (py "*") (strip c)
            || mem (strip c) (processed_domains st)); [reflexivity|].
  cbn [processed_domains findings_count feed scored].
  destruct (is_infrastructure_domain (strip c)); [reflexivity|].
  destruct (is_whitelisted (strip c)); [reflexivity|].
  cbn [negb andb].
  destruct (mem (strip c) MANUAL_CHECK_DOMAINS
            || existsb (fun suffix => endswith suffix (strip c))
                 TARGET_SUFFIXES) eqn:T.
  - replace (negb (mem (strip c) MANUAL_CHECK_DOMAINS)
             && negb (existsb (fun suffix => endswith suffix (strip c))
                        TARGET_SUFFIXES)) with false
      by (rewrite <- negb_orb, T; reflexivity).
    destruct (contains_courier_keyword (strip c)) as [has_courier kws].
    destruct (calculate_score (strip c)) as [sc det].
    cbn [processed_domains findings_count feed scored fst snd].
    destruct (negb has_courier && _ && (sc <? 60)) eqn:G.
    + apply andb_true_iff in G. destruct G as [_ G].
      apply Z.ltb_lt in G.
      replace (SCORE_THRESHOLD <=? sc) with false; [reflexivity|].
      symmetry. apply Z.leb_gt. unfold SCORE_THRESHOLD. lia.
    + destruct (SCORE_THRESHOLD <=? sc); reflexivity.
  - replace (negb (mem (strip c) MANUAL_CHECK_DOMAINS)
             && negb (existsb (fun suffix => endswith suffix (strip c))
                        TARGET_SUFFIXES)) with true
      by (rewrite <- negb_orb, T; reflexivity).
    reflexivity.
Qed.

Lemma scan_loop_invariant (P : Scan -> Prop) :
  (forall outcome c st, P st -> P (scan_one outcome c st)) ->
  forall expired writes l i st, P st -> P (scan_loop expired writes i l st).
Proof.
  intros Hstep expired writes l.
  induction l as [|c rest IH]; intros i st H; cbn [scan_loop].
  - assumption.
  - destruct (expired i); [assumption|]. apply IH, Hstep, H.
Qed.

Lemma skipped_false d st :
  skipped d st = false ->
  d <> [] /\ startswith (py "*") d = false /\ ~ In d (processed_domains st).
Proof.
  unfold skipped. intros H.
  apply orb_false_iff in H. destruct H as [H H3].
  apply orb_false_iff in H. destruct H as [H1 H2].
  repeat split.
  - intros ->. discriminate.
  - assumption.
  - intros Hin. apply mem_iff in Hin. congruence.
Qed.

Lemma skipped_true d st :
  d <> [] -> startswith (py "*") d = false ->
  ~ In d (processed_domains st) -> skipped d st = false.
Proof.
  intros H1 H2 H3. unfold skipped. rewrite H2.
  destruct (eqb d []) eqn:E; [apply eqb_eq in E; contradiction|].
  destruct (mem d (processed_domains st)) eqn:M;
    [apply mem_iff in M; contradiction|reflexivity].
Qed.

Lemma new_findings_app f l d :
  new_findings f (l ++ [d])
  = new_findings f l
    ++ (if finding d && negb (mem d (feed_domains f)) then [d] else []).
Proof. unfold new_findings. rewrite filter_app. reflexivity. Qed.

Lemma new_findings_in f l d :
  In d (new_findings f l)
  <-> In d l /\ finding d = true /\ ~ In d (feed_domains f).
Proof.
  unfold new_findings. rewrite filter_In, andb_true_iff, negb_true_iff.
  split.
  - intros (H1 & H2 & H3). repeat split; try assumption.
    intros H. apply mem_iff in H. congruence.
  - intros (H1 & H2 & H3). repeat split; try assumption.
    destruct (mem d (feed_domains f)) eqn:M;
      [apply mem_iff in M; contradiction|reflexivity].
Qed.

(** What holds of the state of a scan, whatever becomes of the
    writes. *)
Lemma scan_one_once outcome c st :
  NoDup (scored st) /\ incl (scored st) (processed_domains st) ->
  NoDup (scored (scan_one outcome c st))
  /\ incl (scored (scan_one outcome c st))
       (processed_domains (scan_one outcome c st)).
Proof.
  intros (Hnd & Hincl).
  rewrite scan_one_summary.
  destruct (skipped (strip c) st) eqn:S; [split; assumption|].
  apply skipped_false in S. destruct S as (_ & _ & Hnew).
  cbn [processed_domains findings_count feed scored].
  destruct (admitted (strip c)).
  2:{ split; [assumption|]. intros x Hx. right. apply Hincl, Hx. }
  assert (Hns : ~ In (strip c) (scored st))
    by (intros H; apply Hnew, Hincl, H).
  split.
  - apply NoDup_app.
    + assumption.
    + constructor; [intros []|constructor].
    + intros x Hx [<-|[]]. contradiction.
  - intros x Hx. apply in_app_or in Hx. destruct Hx as [Hx|[<-|[]]].
    + right. apply Hincl, Hx.
    + left. reflexivity.
Qed.

(** [n] is the number of entries that the feed had. *)
Lemma scan_one_count (n : nat) outcome c st :
  (findings_count st
   = Z.of_nat (List.length (filter finding (scored st)))
   /\ Z.of_nat (List.length (load_existing_feed (feed st))) - Z.of_nat n
      <= findings_count st) ->
  (findings_count (scan_one outcome c st)
   = Z.of_nat (List.length
                 (filter finding (scored (scan_one outcome c st))))
   /\ Z.of_nat (List.length
                  (load_existing_feed (feed (scan_one outcome c st))))
      - Z.of_nat n
      <= findings_count (scan_one outcome c st)).
Proof.
  intros (Hcount & Hlen).
  rewrite scan_one_summary.
  destruct (skipped (strip c) st); [split; assumption|].
  cbn [processed_domains findings_count feed scored].
  destruct (admitted (strip c)); cbn [andb]; [|split; assumption].
  rewrite filter_app. cbn [filter].
  destruct (finding (strip c)) eqn:F.
  - split.
    + rewrite length_app. cbn [List.length]. lia.
    + pose proof (add_to_feed_length outcome (strip c)
                    (fst (calculate_score (strip c)))
                    (snd (calculate_score (strip c))) (py "scanner")
                    (feed st)).
      lia.
  - rewrite app_nil_r. split; assumption.
Qed.

Lemma scan_state expired writes l file :
  let run := scan_domains expired writes l file in
  (NoDup (scored run) /\ incl (scored run) (processed_domains run))
  /\ findings_count run
     = Z.of_nat (List.length (filter finding (scored run)))
  /\ Z.of_nat (List.length (load_existing_feed (feed run)))
     - Z.of_nat (List.length (load_existing_feed file))
     <= findings_count run.
Proof.
  unfold scan_domains. split.
  - apply (scan_loop_invariant
             (fun st => NoDup (scored st)
                        /\ incl (scored st) (processed_domains st))).
    + intros outcome c st. apply scan_one_once.
    + cbn [scored processed_domains]. split; [constructor|intros x []].
  - apply (scan_loop_invariant
             (fun st =>
                findings_count st
                = Z.of_nat (List.length (filter finding (scored st)))
                /\ Z.of_nat (List.length (load_existing_feed (feed st)))
                   - Z.of_nat (List.length (load_existing_feed file))
                   <= findings_count st)).
    + intros outcome c st. apply scan_one_count.
    + cbn [scored feed findings_count filter List.length]. lia.
Qed.

Lemma scan_one_scored outcome c st d :
  In d (scored (scan_one outcome c st)) ->
  In d (scored st)
  \/ (d = strip c /\ d <> [] /\ startswith (py "*") d = false
      /\ admitted d = true /\ ~ In d (processed_domains st)).
Proof.
  rewrite scan_one_summary.
  destruct (skipped (strip c) st) eqn:S; [auto|].
  apply skipped_false in S. destruct S as (S1 & S2 & S3).
  cbn [scored]. destruct (admitted (strip c)) eqn:A; [|auto].
  intros H. apply in_app_or in H. destruct H as [H|[<-|[]]]; [auto|].
  right. repeat split; assumption.
Qed.

Lemma scan_one_processed outcome c st :
  processed_domains (scan_one outcome c st)
  = if skipped (strip c) st then processed_domains st
    else strip c :: processed_domains st.
Proof.
  rewrite scan_one_summary. destruct (skipped (strip c) st); reflexivity.
Qed.

Lemma scan_loop_scored expired writes l : forall i st d,
  In d (scored (scan_loop expired writes i l st)) ->
  In d (scored st)
  \/ (In d (map strip l) /\ d <> [] /\ startswith (py "*") d = false
      /\ admitted d = true /\ ~ In d (processed_domains st)).
Proof.
  induction l as [|c rest IH]; intros i st d H; cbn [scan_loop] in H.
  - auto.
  - destruct (expired i); [auto|].
    apply IH in H. destruct H as [H|(H1 & H2 & H3 & H4 & H5)].
    + apply scan_one_scored in H.
      destruct H as [H|(-> & H2 & H3 & H4 & H5)]; [auto|].
      right. repeat split; try assumption. left. reflexivity.
    + right. repeat split; try assumption.
      * right. assumption.
      * intros Hin. apply H5. rewrite scan_one_processed.
        destruct (skipped (strip c) st); [assumption|right; assumption].
Qed.

Lemma scan_one_scored_mono outcome c st d :
  In d (scored st) -> In d (scored (scan_one outcome c st)).
Proof.
  rewrite scan_one_summary. destruct (skipped (strip c) st); [auto|].
  cbn [scored]. destruct (admitted (strip c)); [|auto].
  intros H. apply in_or_app. left. assumption.
Qed.

Lemma scan_loop_scored_mono expired writes l i st d :
  In d (scored st) -> In d (scored (scan_loop expired writes i l st)).
Proof.
  apply (scan_loop_invariant (fun st => In d (scored st))).
  intros outcome c st'. apply scan_one_scored_mono.
Qed.

Lemma str_eq_dec (a b : str) : {a = b} + {a <> b}.
Proof. apply list_eq_dec, Z.eq_dec. Qed.

Lemma scan_loop_scored_complete expired writes l : forall i st d,
  (forall j, (j < List.length l)%nat -> expired (i + j)%nat = false) ->
  In d (map strip l) -> d <> [] -> startswith (py "*") d = false ->
  admitted d = true -> ~ In d (processed_domains st) ->
  In d (scored (scan_loop expired writes i l st)).
Proof.
  induction l as [|c rest IH]; intros i st d He Hin H1 H2 H3 H4.
  - destruct Hin.
  - cbn [scan_loop].
    rewrite <- (Nat.add_0_r i) at 1.
    rewrite (He 0%nat) by (cbn [List.length]; lia).
    destruct (str_eq_dec (strip c) d) as [E|E].
    + apply scan_loop_scored_mono. rewrite scan_one_summary.
      rewrite E, (skipped_true d st H1 H2 H4). cbn [scored].
      rewrite H3. apply in_or_app. right. left. reflexivity.
    + apply IH; try assumption.
      * intros j Hj. rewrite Nat.add_succ_comm. apply He.
        cbn [List.length]. lia.
      * destruct Hin as [Hin|Hin]; [contradiction|assumption].
      * rewrite scan_one_processed.
        destruct (skipped (strip c) st); [assumption|].
        intros [Hx|Hx]; [contradiction|]. apply H4, Hx.
Qed.

(** The domains that a scan scores are, each once, the stripped
    candidates that are not empty, do not start with a star and pass the
    infrastructure, whitelist and suffix filters; and when the duration
    limit does not end the scan, every such candidate is scored. *)
Theorem scored_are_the_admitted_candidates :
  forall (expired : nat -> bool) (writes : nat -> WriteOutcome)
         (all_domains : list str) (feed_file : FeedFile),
    let run := scan_domains expired writes all_domains feed_file in
    NoDup (scored run)
    /\ (forall d, In d (scored run) ->
          In d (map strip all_domains) /\ d <> []
          /\ startswith (py "*") d = false
          /\ is_infrastructure_domain d = false
          /\ is_whitelisted d = false
          /\ existsb (fun suffix => endswith suffix d) TARGET_SUFFIXES
             = true)
    /\ ((forall i, (i < List.length all_domains)%nat -> expired i = false) ->
        forall d, In d (map strip all_domains) -> d <> [] ->
          startswith (py "*") d = false ->
          is_infrastructure_domain d = false ->
          is_whitelisted d = false ->
          existsb (fun suffix => endswith suffix d) TARGET_SUFFIXES = true ->
          In d (scored run)).
Proof.
  intros expired writes all_domains feed_file run.
  split; [apply (scan_state expired writes all_domains feed_file)|].
  split.
  - intros d H. apply scan_loop_scored in H.
    destruct H as [[]|(H1 & H2 & H3 & H4 & _)].
    unfold admitted in H4.
    apply andb_true_iff in H4. destruct H4 as [H4 H6].
    apply andb_true_iff in H4. destruct H4 as [H4 H5].
    apply negb_true_iff in H4, H5.
    repeat split; assumption.
  - intros He d H1 H2 H3 H4 H5 H6.
    apply scan_loop_scored_complete; try assumption.
    + unfold admitted. rewrite H4, H5, H6. rewrite orb_true_r. reflexivity.
    + intros [].
Qed.

(** The feed of a scan whose writes succeed and whose findings are read
    back from the file as written: [f] is the feed before the scan. *)
Lemma scan_one_feed f c st :
  (forall d, In d (scored (scan_one Saved c st)) -> finding d = true ->
             json_text d = d) ->
  NoDup (scored st) ->
  incl (scored st) (processed_domains st) ->
  load_existing_feed (feed st)
  = f ++ map json_entry (map scanner_entry (new_findings f (scored st))) ->
  load_existing_feed (feed (scan_one Saved c st))
  = f ++ map json_entry
           (map scanner_entry
              (new_findings f (scored (scan_one Saved c st)))).
Proof.
  intros Hj Hnd Hincl Hfeed. revert Hj.
  rewrite scan_one_summary.
  destruct (skipped (strip c) st) eqn:S; [intros _; assumption|].
  apply skipped_false in S. destruct S as (_ & _ & Hnew).
  cbn [processed_domains findings_count feed scored].
  destruct (admitted (strip c)); cbn [andb]; [|intros _; assumption].
  intros Hj.
  assert (Hns : ~ In (strip c) (scored st))
    by (intros H; apply Hnew, Hincl, H).
  assert (Hold : feed_domains
                   (map json_entry
                      (map scanner_entry (new_findings f (scored st))))
                 = new_findings f (scored st)).
  { rewrite feed_domains_json, feed_domains_scanner_entries.
    apply map_fixed. intros x Hx. apply new_findings_in in Hx.
    destruct Hx as (Hx & Hf & _). apply Hj; [|assumption].
    apply in_or_app. left. assumption. }
  rewrite new_findings_app.
  destruct (finding (strip c)) eqn:F; cbn [andb negb].
  2:{ rewrite app_nil_r. assumption. }
  assert (Hd : json_text (strip c) = strip c).
  { apply Hj; [|assumption]. apply in_or_app. right. left. reflexivity. }
  destruct (add_to_feed_cases Saved (strip c)
              (fst (calculate_score (strip c)))
              (snd (calculate_score (strip c))) (py "scanner")
              (feed st)) as [[Hin E]|[Hn E]]; rewrite E.
  - rewrite Hfeed in Hin. rewrite feed_domains_app, Hold in Hin.
    apply in_app_or in Hin. destruct Hin as [Hin|Hin].
    + apply mem_iff in Hin. rewrite Hin. cbn [negb].
      rewrite app_nil_r. assumption.
    + apply new_findings_in in Hin. destruct Hin as [Hin _].
      contradiction.
  - rewrite load_saved.
    rewrite Hfeed in Hn. rewrite feed_domains_app in Hn.
    destruct (mem (strip c) (feed_domains f)) eqn:M.
    + exfalso. apply Hn, in_or_app. left. apply mem_iff, M.
    + cbn [negb]. rewrite Hfeed, !map_app, <- app_assoc. reflexivity.
Qed.

Lemma scan_loop_feed f expired writes l : forall i st,
  (forall j, (j < List.length l)%nat -> writes (i + j)%nat = Saved) ->
  (forall d, In d (scored (scan_loop expired writes i l st)) ->
             finding d = true -> json_text d = d) ->
  NoDup (scored st) ->
  incl (scored st) (processed_domains st) ->
  load_existing_feed (feed st)
  = f ++ map json_entry (map scanner_entry (new_findings f (scored st))) ->
  load_existing_feed (feed (scan_loop expired writes i l st))
  = f ++ map json_entry
           (map scanner_entry
              (new_findings f (scored (scan_loop expired writes i l st)))).
Proof.
  induction l as [|c rest IH]; intros i st Hw Hj Hnd Hincl Hfeed;
    cbn [scan_loop] in *.
  - assumption.
  - destruct (expired i); [assumption|].
    assert (E : writes i = Saved).
    { rewrite <- (Nat.add_0_r i). apply Hw. cbn [List.length]. lia. }
    rewrite E in *.
    destruct (scan_one_once Saved c st (conj Hnd Hincl)) as (Hnd' & Hincl').
    apply IH; try assumption.
    + intros j Hj'. rewrite Nat.add_succ_comm. apply Hw.
      cbn [List.length]. lia.
    + apply scan_one_feed; try assumption.
      intros d Hd. apply Hj. apply scan_loop_scored_mono. assumption.
Qed.

End ScanRun.

Section ScanFeed.
Context {U : Unicode}.

(** When every write succeeds and every scored domain that reaches the
    threshold is read back from the file as it was written, the feed
    after a scan is the feed before it, unchanged, followed by one
    scanner entry, with the score and the details of the scorer as the
    file gives them back, for each scored domain that reaches the
    threshold and had no entry, in the order of scoring.  So every scored
    domain that reaches the threshold has an entry; and a feed with one
    entry per domain stays so. *)
Theorem feed_after_scan :
  forall (expired : nat -> bool) (writes : nat -> WriteOutcome)
         (all_domains : list str) (feed_file : FeedFile),
    let run := scan_domains expired writes all_domains feed_file in
    (forall i, (i < List.length all_domains)%nat -> writes i = Saved) ->
    (forall d, In d (scored run) -> finding d = true -> json_text d = d) ->
    load_existing_feed (feed run)
    = load_existing_feed feed_file
      ++ map json_entry
           (map scanner_entry
              (new_findings (load_existing_feed feed_file) (scored run)))
    /\ (forall d, In d (scored run) ->
          SCORE_THRESHOLD <= fst (calculate_score d) ->
          In d (feed_domains (load_existing_feed (feed run))))
    /\ (NoDup (feed_domains (load_existing_feed feed_file)) ->
        NoDup (feed_domains (load_existing_feed (feed run)))).
Proof.
  intros expired writes all_domains feed_file run Hw Hj.
  destruct (scan_state expired writes all_domains feed_file)
    as ((Hnd & _) & _).
  fold run in Hnd.
  assert (Hfeed :
    load_existing_feed (feed run)
    = load_existing_feed feed_file
      ++ map json_entry
           (map scanner_entry
              (new_findings (load_existing_feed feed_file) (scored run)))).
  { unfold run, scan_domains. apply scan_loop_feed.
    - intros j Hlt. apply Hw, Hlt.
    - exact Hj.
    - constructor.
    - intros x [].
    - cbn [feed scored]. unfold new_findings. cbn [filter map].
      rewrite app_nil_r. reflexivity. }
  split; [assumption|].
  assert (Hdom :
    feed_domains
      (map json_entry
         (map scanner_entry
            (new_findings (load_existing_feed feed_file) (scored run))))
    = new_findings (load_existing_feed feed_file) (scored run)).
  { rewrite feed_domains_json, feed_domains_scanner_entries.
    apply map_fixed. intros x Hx. apply new_findings_in in Hx.
    destruct Hx as (Hx & Hf & _). apply Hj; assumption. }
  rewrite Hfeed, feed_domains_app, Hdom. split.
  - intros d Hd Hs. apply in_or_app.
    destruct (In_dec str_eq_dec d
                (feed_domains (load_existing_feed feed_file))) as [H|H];
      [left; assumption|right].
    apply new_findings_in. repeat split; try assumption.
    unfold finding. apply Z.leb_le. assumption.
  - intros Hf. apply NoDup_app.
    + assumption.
    + unfold new_findings. apply NoDup_filter. assumption.
    + intros x Hx Hy. apply new_findings_in in Hy.
      destruct Hy as (_ & _ & Hy). contradiction.
Qed.

Lemma scan_one_feed_free outcome outcome' c st st' :
  processed_domains st = processed_domains st' ->
  scored st = scored st' ->
  findings_count st = findings_count st' ->
  processed_domains (scan_one outcome c st)
  = processed_domains (scan_one outcome' c st')
  /\ scored (scan_one outcome c st) = scored (scan_one outcome' c st')
  /\ findings_count (scan_one outcome c st)
     = findings_count (scan_one outcome' c st').
Proof.
  intros Hp Hs Hc. rewrite !scan_one_summary.
  unfold skipped. rewrite <- Hp.
  destruct (eqb (strip c) [] || startswith (py "*") (strip c)
            || mem (strip c) (processed_domains st));
    cbn [processed_domains scored findings_count];
    rewrite ?Hp, ?Hs, ?Hc; repeat split; reflexivity.
Qed.

Lemma scan_loop_feed_free expired writes writes' l : forall i st st',
  processed_domains st = processed_domains st' ->
  scored st = scored st' ->
  findings_count st = findings_count st' ->
  scored (scan_loop expired writes i l st)
  = scored (scan_loop expired writes' i l st')
  /\ findings_count (scan_loop expired writes i l st)
     = findings_count (scan_loop expired writes' i l st').
Proof.
  induction l as [|c rest IH]; intros i st st' Hp Hs Hc; cbn [scan_loop].
  - split; assumption.
  - destruct (expired i); [split; assumption|].
    destruct (scan_one_feed_free (writes i) (writes' i) c st st' Hp Hs Hc)
      as (H1 & H2 & H3).
    apply IH; assumption.
Qed.

(** The number of findings that a scan reports is the number of scored
    domains that reach the threshold, whether or not they had an entry:
    it does not depend on the feed file or on what becomes of the
    writes, and it is at least the number of entries that the scan
    adds. *)
Theorem findings_count_is_scored_over_threshold :
  forall (expired : nat -> bool) (writes : nat -> WriteOutcome)
         (all_domains : list str) (feed_file : FeedFile),
    let run := scan_domains expired writes all_domains feed_file in
    findings_count run
    = Z.of_nat (List.length (filter finding (scored run)))
    /\ Z.of_nat (List.length (load_existing_feed (feed run)))
       - Z.of_nat (List.length (load_existing_feed feed_file))
       <= findings_count run
    /\ forall other_writes other_file,
         findings_count
           (scan_domains expired other_writes all_domains other_file)
         = findings_count run
         /\ scored (scan_domains expired other_writes all_domains other_file)
            = scored run.
Proof.
  intros expired writes all_domains feed_file run.
  destruct (scan_state expired writes all_domains feed_file)
    as (_ & Hcount & Hlen).
  fold run in Hcount, Hlen.
  split; [assumption|]. split; [assumption|].
  intros other_writes other_file.
  destruct (scan_loop_feed_free expired other_writes writes all_domains 0
              {| processed_domains := []; findings_count := 0;
                 feed := other_file; scored := [] |}
              {| processed_domains := []; findings_count := 0;
                 feed := feed_file; scored := [] |}
              eq_refl eq_refl eq_refl) as [H1 H2].
  split; assumption.
Qed.



Lemma scan_loop_limit expired writes l : forall i k st,
  (forall j, (j < k)%nat -> expired (i + j)%nat = false) ->
  (expired (i + k)%nat = true \/ (List.length l <= k)%nat) ->
  scan_loop expired writes i l st
  = scan_loop (fun _ => false) writes i (firstn k l) st.
Proof.
  induction l as [|c rest IH]; intros i k st Hlt Hk.
  - rewrite firstn_nil. reflexivity.
  - destruct k as [|k].
    + destruct Hk as [Hk|Hk]; [|cbn [List.length] in Hk; lia].
      cbn [scan_loop firstn]. rewrite Nat.add_0_r in Hk. rewrite Hk.
      reflexivity.
    + cbn [scan_loop firstn].
      rewrite <- (Nat.add_0_r i) at 1.
      rewrite (Hlt 0%nat) by lia.
      apply IH.
      * intros j Hj. rewrite Nat.add_succ_comm. apply Hlt. lia.
      * destruct Hk as [Hk|Hk].
        -- left. rewrite Nat.add_succ_comm. assumption.
        -- right. cbn [List.length] in Hk. lia.
Qed.

(** When the duration limit is first found exceeded at the candidate of
    index [k], the scan gives what a scan without a limit gives on the
    first [k] candidates: the candidates before it are handled in full,
    the others not at all. *)
Theorem scan_stops_at_the_limit :
  forall (expired : nat -> bool) (writes : nat -> WriteOutcome)
         (all_domains : list str) (feed_file : FeedFile) (k : nat),
    (forall j, (j < k)%nat -> expired j = false) ->
    expired k = true ->
    scan_domains expired writes all_domains feed_file
    = scan_domains (fun _ => false) writes (firstn k all_domains)
        feed_file.
Proof.
  intros expired writes all_domains feed_file k Hlt Hk.
  unfold scan_domains. apply scan_loop_limit.
  - intros j Hj. apply Hlt, Hj.
  - left. exact Hk.
Qed.

End ScanFeed.

Lemma scan_stops_at_the_limit_witness :
  @scan_domains ascii_tables (fun i => (1 <=? i)%nat) (fun _ => Saved)
     [py "econt-bg.tk"; py "speedy-bg.cfd"] NoFile
  = @scan_domains ascii_tables (fun _ => false) (fun _ => Saved)
      (firstn 1 [py "econt-bg.tk"; py "speedy-bg.cfd"]) NoFile.
Proof.
  apply (@scan_stops_at_the_limit ascii_tables (fun i => (1 <=? i)%nat)
           (fun _ => Saved) [py "econt-bg.tk"; py "speedy-bg.cfd"] NoFile
           1%nat).
  - intros j Hj. assert (j = 0%nat) by lia. subst j. reflexivity.
  - reflexivity.
Defined.

(** A scan that finds something: one of the two candidates is added to
    the feed, with its score. *)
Example scan_finds_econt_bg_tk :
  map (fun e => (entry_domain e, entry_score e))
      (load_existing_feed
         (feed (@scan_domains ascii_tables (fun _ => false)
                  (fun _ => Saved)
                  [py " econt-bg.tk "; py "example.tk"] NoFile)))
  = [(py "econt-bg.tk", 90)].
Proof. vm_compute. reflexivity. Qed.

Lemma feed_after_scan_witness :
  let run := @scan_domains ascii_tables (fun _ => false) (fun _ => Saved)
               [py " econt-bg.tk "; py "example.tk"] NoFile in
  load_existing_feed (feed run)
  = load_existing_feed NoFile
    ++ map json_entry
         (map (@scanner_entry ascii_tables)
            (@new_findings ascii_tables (load_existing_feed NoFile)
               (scored run)))
  /\ (forall d, In d (scored run) ->
        SCORE_THRESHOLD <= fst (@calculate_score ascii_tables d) ->
        In d (feed_domains (load_existing_feed (feed run))))
  /\ (NoDup (feed_domains (load_existing_feed NoFile)) ->
      NoDup (feed_domains (load_existing_feed (feed run)))).
Proof.
  apply (@feed_after_scan ascii_tables (fun _ => false) (fun _ => Saved)
           [py " econt-bg.tk "; py "example.tk"] NoFile).
  - intros i _. reflexivity.
  - intros d Hd _. vm_compute in Hd.
    destruct Hd as [<-|[<-|[]]]; vm_compute; reflexivity.
Defined.


(** ** Subdomains of the whitelist *)

Lemma after_www (pre w l : str) :
  l = pre ++ py "." ++ w ->
  startswith www l = true ->
  skipn 4 l = w \/ exists pre', skipn 4 l = pre' ++ py "." ++ w.
Proof.
  intros -> H. apply startswith_iff in H. destruct H as [t H].
  change www with [119; 119; 119; 46] in H.
  change (py ".") with [46] in *.
  destruct pre as [|a [|b [|c [|d pre']]]]; cbn [app] in *;
    try (injection H as H1 H2 H3 H4 H5; try discriminate).
  - discriminate.
  - injection H as H1 H2. discriminate.
  - injection H as H1 H2 H3. discriminate.
  - left. reflexivity.
  - right. exists pre'. reflexivity.
Qed.

Section Whitelist.
Context {U : Unicode}.

Lemma lower_without_www_cases d :
  lower d = lower_without_www d \/ lower d = www ++ lower_without_www d.
Proof.
  unfold lower_without_www. cbv zeta.
  destruct (startswith www (lower d)) eqn:E; [right|left; reflexivity].
  apply startswith_iff in E. destruct E as [t E]. rewrite E.
  change 4%nat with (List.length www). rewrite skipn_app_exact.
  reflexivity.
Qed.

(** Every subdomain of a whitelisted domain is whitelisted, whatever the
    case of its letters and with or without a leading [www.]: for domains
    of ASCII characters and look-alike letters, putting labels and a dot
    in front of a whitelisted domain gives a whitelisted domain. *)
Theorem subdomain_of_whitelisted_is_whitelisted :
  forall sub d : str,
    forallb plain sub = true -> forallb plain d = true ->
    is_whitelisted d = true ->
    is_whitelisted (sub ++ py "." ++ d) = true.
Proof.
  intros sub d Hsub Hd H.
  apply is_whitelisted_iff in H. apply is_whitelisted_iff.
  destruct H as (w & Hw & H). exists w. split; [assumption|].
  assert (Hl : lower (sub ++ py "." ++ d)
               = map ascii_lower sub ++ py "." ++ lower d).
  { rewrite (lower_plain (sub ++ py "." ++ d)).
    - rewrite !map_app, (lower_plain d Hd). reflexivity.
    - rewrite !forallb_app, Hsub, Hd. reflexivity. }
  assert (Hpre : exists pre, lower (sub ++ py "." ++ d)
                             = pre ++ py "." ++ w).
  { rewrite Hl.
    destruct (lower_without_www_cases d) as [E|E]; rewrite E;
      destruct H as [->|[s ->]].
    - exists (map ascii_lower sub). reflexivity.
    - exists (map ascii_lower sub ++ py "." ++ s).
      rewrite <- !app_assoc. reflexivity.
    - exists (map ascii_lower sub ++ py ".www").
      rewrite <- !app_assoc. reflexivity.
    - exists (map ascii_lower sub ++ py "." ++ www ++ s).
      rewrite <- !app_assoc. reflexivity. }
  destruct Hpre as [pre Hpre].
  unfold lower_without_www. cbv zeta.
  destruct (startswith www (lower (sub ++ py "." ++ d))) eqn:E.
  - destruct (after_www pre w _ Hpre E) as [G|[pre' G]].
    + left. assumption.
    + right. exists pre'. assumption.
  - right. exists pre. assumption.
Qed.

End Whitelist.

Lemma subdomain_of_whitelisted_is_whitelisted_witness :
  @is_whitelisted ascii_tables (py "Tracking" ++ py "." ++ py "www.Econt.bg")
  = true.
Proof.
  apply (@subdomain_of_whitelisted_is_whitelisted ascii_tables
           (py "Tracking") (py "www.Econt.bg"));
    vm_compute; reflexivity.
Defined.

(** A longer name that merely ends in the letters of a whitelisted domain
    is not whitelisted: the match is on whole labels. *)
Example fake_econt_not_whitelisted :
  @is_whitelisted ascii_tables (py "fake-econt.bg") = false
  /\ @is_whitelisted ascii_tables (py "econt.bg.tk") = false.
Proof. split; vm_compute; reflexivity. Qed.

(** ** What is sure to be detected *)

Lemma normalize_homoglyphs_len text :
  len (normalize_homoglyphs text) = len text.
Proof.
  rewrite normalize_homoglyphs_chars.
  induction text as [|c text IH]; [reflexivity|].
  cbn [flat_map].
  destruct (normalize_char_cases c) as [(latin & E & _)|[E _]]; rewrite E;
    cbn [app]; rewrite !len_cons, IH; reflexivity.
Qed.

Lemma replace_len a b s : len (replace a b s) = len s.
Proof. unfold replace, len. rewrite length_map. reflexivity. Qed.

Lemma find_some_first {A} (f : A -> bool) l x :
  In x l -> f x = true -> exists y, find f l = Some y.
Proof.
  intros Hin Hx. destruct (find f l) as [y|] eqn:F; [exists y; reflexivity|].
  rewrite (find_none f l F x Hin) in Hx. discriminate.
Qed.

Section Detected.
Context {U : Unicode}.

(** A label that spells a brand of at least three characters with
    look-alike letters, or with zeros for the letter o, is detected:
    [detect_homoglyphs] answers [True] and reports for the brand a label
    with a hit, this one or one before it. *)
Theorem lookalike_spelling_is_detected :
  forall (d : str) (brands : list str) (brand l : str),
    In brand brands ->
    In l (labels (lower_without_www d)) ->
    3 <= len brand ->
    (has_non_ascii l /\ normalize_homoglyphs l = brand)
    \/ (In 48 l /\ replace 48 111 l = brand) ->
    fst (detect_homoglyphs d brands) = true
    /\ exists l', In l' (snd (detect_homoglyphs d brands))
                  /\ In l' (labels (lower_without_www d))
                  /\ homoglyph_rule brand l'.
Proof.
  intros d brands brand l Hb Hl H3 Hs.
  assert (Hlen : len l = len brand).
  { destruct Hs as [[_ E]|[_ E]]; rewrite <- E.
    - symmetry. apply normalize_homoglyphs_len.
    - symmetry. apply replace_len. }
  assert (Hhit : homoglyph_hit brand l = true).
  { apply homoglyph_hit_iff. unfold homoglyph_rule.
    split; [lia|]. split; [lia|].
    destruct Hs as [[Hn E]|[Hz E]]; [left|right]; auto. }
  destruct (find_some_first _ _ _ Hl Hhit) as [l' F].
  assert (Hin : In l' (snd (detect_homoglyphs d brands))).
  { unfold detect_homoglyphs. cbv zeta. cbn [snd].
    apply in_flat_map. exists brand. split; [assumption|].
    rewrite F. left. reflexivity. }
  split.
  - revert Hin. unfold detect_homoglyphs. cbv zeta. cbn [fst snd].
    destruct (flat_map _ brands) as [|x rest]; [intros []|].
    intros _. apply Z.ltb_lt. rewrite len_cons.
    pose proof (len_nonneg rest). lia.
  - exists l'. split; [assumption|].
    apply find_some in F. destruct F as [F1 F2].
    split; [assumption|]. apply homoglyph_hit_iff. assumption.
Qed.

(** A domain with a brand as a label, a geo indicator and a free-hosting
    suffix or a suspicious TLD reaches the threshold, whatever else it
    holds: it scores at least 75. *)
Theorem brand_with_geo_on_target_reaches_threshold :
  forall d : str,
    brand_fired d = true ->
    geo_fired d = true ->
    free_hosting_fired d = true \/ suspicious_tld_fired d = true ->
    SCORE_THRESHOLD <= 75 <= fst (calculate_score d).
Proof.
  intros d Hb Hg Ht. split; [unfold SCORE_THRESHOLD; lia|].
  rewrite calculate_score_value.
  assert (Hp : penalty_due d = false).
  { unfold penalty_due. rewrite Hg. cbn [negb andb].
    rewrite andb_false_r. reflexivity. }
  rewrite Hp, weighted_sum_units, Hb, Hg.
  pose proof (weight_unit (homoglyph_fired d)).
  pose proof (weight_unit (typosquat_fired d)).
  pose proof (weight_unit (free_hosting_fired d)).
  pose proof (weight_unit (suspicious_tld_fired d)).
  pose proof (weight_unit (transaction_fired d)).
  pose proof (weight_unit (hyphens_fired d)).
  pose proof (weight_unit (numeric_suffix_fired d)).
  pose proof (weight_unit (stacking_fired d)).
  pose proof (weight_unit (entropy_fired d)).
  pose proof (weight_unit (abuse_infix_fired d)).
  pose proof (weight_unit (direct_impersonation_fired d)).
  assert (Hht : 1 <= weight (free_hosting_fired d) 1
                     + weight (suspicious_tld_fired d) 1).
  { destruct Ht as [E|E]; rewrite E in *; unfold weight in *; lia. }
  change (weight true 1) with 1.
  unfold clamp. lia.
Qed.

End Detected.

Lemma lookalike_spelling_is_detected_witness :
  fst (@detect_homoglyphs ascii_tables (py "есоnt.cfd") BRAND_KEYWORDS) = true
  /\ exists l',
       In l' (snd (@detect_homoglyphs ascii_tables (py "есоnt.cfd")
                     BRAND_KEYWORDS))
       /\ In l' (labels (@lower_without_www ascii_tables (py "есоnt.cfd")))
       /\ homoglyph_rule (py "econt") l'.
Proof.
  apply (@lookalike_spelling_is_detected ascii_tables (py "есоnt.cfd")
           BRAND_KEYWORDS (py "econt") (py "есоnt")).
  - vm_compute. left. reflexivity.
  - vm_compute. left. reflexivity.
  - vm_compute. discriminate.
  - left. split.
    + exists 1077. split; [vm_compute; left; reflexivity|lia].
    + vm_compute. reflexivity.
Defined.

Lemma brand_with_geo_on_target_reaches_threshold_witness :
  SCORE_THRESHOLD <= 75
  <= fst (@calculate_score ascii_tables (py "speedy-bg.web.app")).
Proof.
  apply (@brand_with_geo_on_target_reaches_threshold ascii_tables
           (py "speedy-bg.web.app")).
  - vm_compute. reflexivity.
  - vm_compute. reflexivity.
  - left. vm_compute. reflexivity.
Defined.
